(** * MWEM: the select / measure / re-estimate loop of [src/mechanisms/mwem.py]

    A shallow embedding of the class [MWEM] (its constructor and the
    methods [worst_approximated] and [run]) and the properties of its
    natural-language specification.

    Conventions of the embedding.

    - Python and numpy floats are real numbers ([R]): rounding, overflow,
      NaN and infinities are outside the model.  What Python itself
      refuses is an error of the model: the true division [a / b] of two
      Python numbers raises [ZeroDivisionError] when [b] is zero
      ([py_truediv]); [rho] and [alpha] are Python numbers, as the parent
      class and the signature of [run] have them.  numpy arithmetic never
      raises on such inputs; where numpy would produce NaN or an infinity
      ([np.sqrt] of a negative number, a numpy division by zero) the model
      has the value of the Standard Library's total function.  The
      theorems that compute with the split of the budget assume the
      ranges in which no such value arises; the others hold whatever the
      numbers are.
    - Python [int] is [Z]; a tuple of attribute names is a [list string];
      the dict of true answers is a [gmap]; a one-dimensional numpy array is
      a [list R], with numpy's broadcasting rule written out.
    - The collaborators that are not part of the file (dataset, model,
      inference engine, parent class, numpy's global generator) are the
      fields of the class [Collaborators]; the operations that depend on
      ambient state thread the state of numpy's global generator and may
      raise.
    - A run is a computation in a state-and-error monad over [world]: the
      state of [np.random] and the sequence of calls made so far, on the
      collaborators, on [worst_approximated] and on [print]. *)

From Stdlib Require Import Reals Lra Lia ZArith List String.
From stdpp Require Import gmap strings.
Import ListNotations.

Open Scope R_scope.

(** ** Data model *)

(** A clique (query) is a tuple of attribute names. *)
Definition clique : Type := list string.

(** Modelled from the spec: the class [Domain] ([inference/domain.py] is not
    part of the sources).  A domain maps each attribute name to its finite
    cardinality, and [domain.size(clique)] is the product of the
    cardinalities of the clique's attributes. *)
Definition Domain : Type := string -> Z.

Definition domain_size (domain : Domain) (cl : clique) : Z :=
  fold_right Z.mul 1%Z (map domain cl).

(** [scipy.sparse.eye(n)]: the identity operator of dimension [n]. *)
Inductive sparse_matrix : Type :=
| sparse_eye (n : Z).

(** One entry of the measurement log, the tuple [(Q, y, 1.0, ax)]. *)
Definition measurement : Type := (sparse_matrix * list R * R * clique)%type.

(** ** Exceptions *)

Inductive value_error : Type :=
| zero_size_reduction            (* [max] of an empty array *)
| broadcast_mismatch (n m : nat) (* operands of shapes (n,) and (m,) *)
| numpy_rejects.                 (* an argument numpy's generator refuses *)

Inductive exn : Type :=
| ZeroDivisionError
| ValueError (why : value_error)
| KeyError (key : clique)
| IndexError
| UnboundLocalError (name : string)
| CollaboratorError (what : string).

Definition result (A : Type) : Type := (exn + A)%type.

Definition Ok {A : Type} (a : A) : result A := inr a.
Definition Raise {A : Type} (e : exn) : result A := inl e.

Definition result_bind {A B : Type} (r : result A) (k : A -> result B) : result B :=
  match r with
  | inl e => inl e
  | inr a => k a
  end.

(** ** Python and numpy arithmetic *)

(** [a / b] on Python numbers. *)
Definition py_truediv (a b : R) : result R :=
  if Req_dec_T b 0 then Raise ZeroDivisionError else Ok (a / b).

(** [a <= b] on Python numbers. *)
Definition py_le (a b : R) : bool :=
  if Rle_dec a b then true else false.

(** Element-wise binary operation on one-dimensional arrays, with numpy's
    broadcasting: equal lengths, or one operand of length one. *)
Definition np_broadcast (op : R -> R -> R) (x y : list R) : result (list R) :=
  if Nat.eqb (length x) (length y) then Ok (map (fun p => op (fst p) (snd p)) (combine x y))
  else match x, y with
       | [a], _ => Ok (map (fun b => op a b) y)
       | _, [b] => Ok (map (fun a => op a b) x)
       | _, _ => Raise (ValueError (broadcast_mismatch (length x) (length y)))
       end.

Definition np_sub : list R -> list R -> result (list R) := np_broadcast Rminus.
Definition np_add : list R -> list R -> result (list R) := np_broadcast Rplus.

Definition np_abs (x : list R) : list R := map Rabs x.

Definition np_sum (x : list R) : R := fold_right Rplus 0 x.

Definition np_append (errors : list R) (v : R) : list R := errors ++ [v].

(** [errors.max()]: numpy refuses an empty array. *)
Definition np_max (x : list R) : result R :=
  match x with
  | [] => Raise (ValueError zero_size_reduction)
  | a :: rest => Ok (fold_left Rmax rest a)
  end.

(** [scipy.special.softmax]: [exp(x) / sum(exp(x))]. *)
Definition softmax (x : list R) : list R :=
  let s := np_sum (map exp x) in
  map (fun xi => exp xi / s) x.

(** [range(lo, hi)]. *)
Definition py_range (lo hi : Z) : list Z :=
  map (fun k => (lo + Z.of_nat k)%Z) (seq 0 (Z.to_nat (hi - lo))).

(** [workload[key]] for a non-negative index. *)
Definition py_getitem (workload : list clique) (key : nat) : result clique :=
  match nth_error workload key with
  | Some cl => Ok cl
  | None => Raise IndexError
  end.

(** [workload_answers[cl]]. *)
Definition dict_getitem (workload_answers : gmap clique (list R)) (cl : clique) : result (list R) :=
  match workload_answers !! cl with
  | Some x => Ok x
  | None => Raise (KeyError cl)
  end.

(** ** Collaborators *)

(** The objects [run] works with but does not define.  Queries of a dataset
    or of a model are functions: they are taken to return, and to leave
    the generators alone (a projection that raises is outside the model,
    and no theorem says that one cannot); operations that draw random
    numbers or refit a model take the state of numpy's global generator,
    return its next state and may raise. *)
Class Collaborators : Type := {
  Rng : Type;        (* state of the module-level generator [np.random] *)
  Prng : Type;       (* a generator object handed to the constructor *)
  Dataset : Type;
  Model : Type;
  Factor : Type;
  Engine : Type;
  Embedding : Type;
  DataInit : Type;
  (* Dataset *)
  data_domain : Dataset -> Domain;
  data_records : Dataset -> Z;
  data_project : Dataset -> clique -> Dataset;
  data_datavector : Dataset -> list R;
  (* GraphicalModel / ParticleModel *)
  est_domain : Model -> Domain;
  est_project : Model -> clique -> Factor;
  factor_datavector : Factor -> list R;
  est_size : Model -> R;
  est_synthetic_data : Model -> option Z -> Rng -> result Dataset * Rng;
  GraphicalModel_size : Domain -> list clique -> R;
  ParticleModel : Domain -> Embedding -> Z -> DataInit -> Rng -> result Model * Rng;
  (* FactoredInference / AdvancedSlicedInference *)
  isinstance_FactoredInference : Engine -> bool;
  engine_estimate : Engine -> list measurement -> option Z -> Rng -> result (Model * R) * Rng;
  engine_embedding : Engine -> Embedding;
  engine_n_particles : Engine -> Z;
  (* Mechanism.__init__: [rho], [sensitivity] and [marginal_sensitivity], as
     [epsilon], [delta] and [bounded] determine them *)
  Mechanism_attributes : R -> R -> bool -> R * R * R;
  (* numpy.random *)
  np_random_choice : nat -> list R -> Rng -> result nat * Rng;
  np_random_normal : R -> R -> Z -> Rng -> result (list R) * Rng
}.

Section Mechanism.

Context {C : Collaborators}.

(** The calls a run makes, in the order it makes them. *)
Inductive call : Type :=
| call_data_project (cl : clique)
| call_engine_estimate (measurements : list measurement) (total : option Z)
| call_ParticleModel (domain : Domain) (embedding : Embedding) (n_particles : Z)
    (data_init : DataInit)
| call_worst_approximated (est : Model) (workload : list clique) (eps : R) (penalty : bool)
| call_np_random_choice (n : nat) (p : list R)
| call_np_random_normal (loc scale : R) (size : Z)
| call_synthetic_data (est : Model) (records : option Z)
| call_print_round (i : Z) (ax : clique) (model_size_mb : R)
| call_print_generating.

Record world : Type := {
  np_random : Rng;
  calls : list call
}.

(** ** The monad of a run *)

Definition M (A : Type) : Type := world -> result A * world.

Definition ret {A : Type} (a : A) : M A := fun w => (Ok a, w).

Definition bind {A B : Type} (m : M A) (k : A -> M B) : M B :=
  fun w =>
    match m w with
    | (inl e, w') => (inl e, w')
    | (inr a, w') => k a w'
    end.

Definition lift {A : Type} (r : result A) : M A := fun w => (r, w).

Definition record_call (c : call) : M unit :=
  fun w => (Ok tt, {| np_random := np_random w; calls := calls w ++ [c] |}).

Definition ambient {A : Type} (f : Rng -> result A * Rng) : M A :=
  fun w =>
    let (r, g) := f (np_random w) in
    (r, {| np_random := g; calls := calls w |}).

End Mechanism.

Notation "'let*' x := m 'in' k" := (bind m (fun x => k))
  (at level 10, x name, m at level 100, k at level 200).
Notation "'let*' ' pat := m 'in' k" := (bind m (fun x => match x with pat => k end))
  (at level 10, pat pattern, m at level 100, k at level 200).
Notation "'do' m 'then' k" := (bind m (fun _ => k))
  (at level 10, m at level 100, k at level 200).

Section MWEM.

Context {C : Collaborators}.

(** [for x in xs: s = body(x, s)]. *)
Fixpoint for_each {A S : Type} (xs : list A) (body : A -> S -> M S) (s : S) : M S :=
  match xs with
  | [] => ret s
  | x :: rest => let* s' := body x s in for_each rest body s'
  end.

(** The calls on collaborators, each recorded when it is made. *)

Definition do_data_project (data : Dataset) (cl : clique) : M (list R) :=
  do record_call (call_data_project cl) then
  ret (data_datavector (data_project data cl)).

Definition do_engine_estimate (engine : Engine) (measurements : list measurement)
    (total : option Z) : M (Model * R) :=
  do record_call (call_engine_estimate measurements total) then
  ambient (engine_estimate engine measurements total).

Definition do_ParticleModel (domain : Domain) (embedding : Embedding) (n_particles : Z)
    (data_init : DataInit) : M Model :=
  do record_call (call_ParticleModel domain embedding n_particles data_init) then
  ambient (ParticleModel domain embedding n_particles data_init).

Definition do_np_random_choice (n : nat) (p : list R) : M nat :=
  do record_call (call_np_random_choice n p) then
  ambient (np_random_choice n p).

Definition do_np_random_normal (loc scale : R) (size : Z) : M (list R) :=
  do record_call (call_np_random_normal loc scale size) then
  ambient (np_random_normal loc scale size).

Definition do_synthetic_data (est : Model) (records : option Z) : M Dataset :=
  do record_call (call_synthetic_data est records) then
  ambient (est_synthetic_data est records).

(** ** The mechanism object *)

(** The dict [hp] of hyperparameters, with the keys the constructor reads. *)
Record hyperparameters : Type := {
  hp_epsilon : R;
  hp_delta : R;
  hp_degree : Z;
  hp_rounds : Z;
  hp_data_init : DataInit;
  hp_max_model_size : R
}.

(** The attributes of an [MWEM] instance: those its own constructor sets
    from the hyperparameters, and those of the parent class [Mechanism]
    ([epsilon], [delta], [bounded], [prng], [rho], [sensitivity],
    [marginal_sensitivity]). *)
Record MWEM : Type := {
  epsilon : R;
  delta : R;
  bounded : bool;
  prng : Prng;
  rho : R;
  sensitivity : R;
  marginal_sensitivity : R;
  k : Z;
  rounds : Z;
  data_init : DataInit;
  max_model_size : R;
  hp : hyperparameters
}.

(** [MWEM.__init__], lines 18 to 39. *)
Definition MWEM_init (hp : hyperparameters) (bounded : bool) (prng : Prng) : MWEM :=
  let '(rho, sensitivity, marginal_sensitivity) :=
    Mechanism_attributes (hp_epsilon hp) (hp_delta hp) bounded in
  {| epsilon := hp_epsilon hp;
     delta := hp_delta hp;
     bounded := bounded;
     prng := prng;
     rho := rho;
     sensitivity := sensitivity;
     marginal_sensitivity := marginal_sensitivity;
     k := hp_degree hp;
     rounds := hp_rounds hp;
     data_init := hp_data_init hp;
     max_model_size := hp_max_model_size hp;
     hp := hp |}.

(** ** [MWEM.worst_approximated] *)

(** The variables of one activation of [worst_approximated]: its three
    object arguments and the local array [errors]. *)
Record locals : Type := {
  l_workload_answers : gmap clique (list R);
  l_est : Model;
  l_workload : list clique;
  l_errors : list R
}.

(** The body of [for cl in workload], lines 64 to 67. *)
Definition error_step (penalty : bool) (cl : clique) (fr : locals) : result locals :=
  let bias := if penalty then IZR (domain_size (est_domain (l_est fr)) cl) else 0 in
  result_bind (dict_getitem (l_workload_answers fr) cl) (fun x =>
  let xest := factor_datavector (est_project (l_est fr) cl) in
  result_bind (np_sub x xest) (fun d =>
  Ok {| l_workload_answers := l_workload_answers fr;
        l_est := l_est fr;
        l_workload := l_workload fr;
        l_errors := np_append (l_errors fr) (np_sum (np_abs d) - bias) |})).

(** Line 69, the argument of [softmax]:
    [0.5 * eps / self.sensitivity * (errors - errors.max())]. *)
Definition selection_logits (self : MWEM) (eps : R) (errors : list R) : result (list R) :=
  result_bind (np_max errors) (fun errors_max =>
  Ok (map (fun e => 0.5 * eps / sensitivity self * (e - errors_max)) errors)).

(** Lines 62 to 71, returning the selected clique together with the
    variables as they are when the method returns. *)
Definition worst_approximated_body (self : MWEM)
    (workload_answers : gmap clique (list R)) (est : Model) (workload : list clique)
    (eps : R) (penalty : bool) : M (clique * locals) :=
  do record_call (call_worst_approximated est workload eps penalty) then
  let* fr := for_each workload (fun cl fr => lift (error_step penalty cl fr))
               {| l_workload_answers := workload_answers;
                  l_est := est;
                  l_workload := workload;
                  l_errors := [] |} in
  let errors := l_errors fr in
  let* logits := lift (selection_logits self eps errors) in
  let prob := softmax logits in
  let* key := do_np_random_choice (length errors) prob in
  let* ax := lift (py_getitem (l_workload fr) key) in
  ret (ax, fr).

Definition worst_approximated (self : MWEM)
    (workload_answers : gmap clique (list R)) (est : Model) (workload : list clique)
    (eps : R) (penalty : bool) : M clique :=
  let* '(ax, _) := worst_approximated_body self workload_answers est workload eps penalty in
  ret ax.

(** ** [MWEM.run] *)

(** Lines 94 to 98: the number of rounds and the split of the budget.
    [sqrt] is the total function of the Standard Library, which is [0] on
    a negative number, where [np.sqrt] is NaN: the two agree for
    [rho_per_round >= 0] and [0 < alpha <= 1], the range that the
    theorems which use the values of [sigma] or [exp_eps] assume. *)
Definition run_budget (self : MWEM) (workload : list clique) (alpha : R)
  : result (Z * R * R * R) :=
  let rounds := Z.min (Z.of_nat (length workload)) (rounds self) in
  let rho := rho self in
  result_bind (py_truediv rho (IZR rounds)) (fun rho_per_round =>
  result_bind (py_truediv 0.5 (alpha * rho_per_round)) (fun q =>
  let sigma := sqrt q in
  let exp_eps := sqrt (8 * (1 - alpha) * rho_per_round) in
  Ok (rounds, rho_per_round, sigma, exp_eps))).

(** The local function [size], lines 102 and 103. *)
Definition size (domain : Domain) (cliques : list clique) : R :=
  GraphicalModel_size domain cliques * 8 / 2 ^ 20.

(** Lines 105 to 107: the dict comprehension over the workload. *)
Definition compute_workload_answers (data : Dataset) (workload : list clique)
  : M (gmap clique (list R)) :=
  for_each workload
    (fun cl answers => let* v := do_data_project data cl in ret (<[cl := v]> answers))
    ∅.

(** The variables that the round loop rebinds or mutates. *)
Record loop_state : Type := {
  measurements : list measurement;
  est : Model;
  loss : option R;        (* [None]: not yet assigned *)
  cliques : list clique
}.

(** Lines 122 to 126: the cliques that fit under the cap of round [i].
    The division cannot raise: inside the loop [rounds >= 1]. *)
Definition candidates (self : MWEM) (domain : Domain) (workload cliques : list clique)
    (i rounds : Z) : list clique :=
  List.filter
    (fun cl => py_le (size domain (cliques ++ [cl]))
                     (max_model_size self * IZR i / IZR rounds))
    workload.

(** Lines 121 to 152: one round. *)
Definition round_body (self : MWEM) (data : Dataset) (workload : list clique)
    (engine : Engine) (domain : Domain) (total : option Z)
    (workload_answers : gmap clique (list R)) (sigma exp_eps : R) (rounds : Z)
    (i : Z) (st : loop_state) : M loop_state :=
  let* ax :=
    if isinstance_FactoredInference engine then
      let* ax := worst_approximated self workload_answers (est st)
                   (candidates self domain workload (cliques st) i rounds) exp_eps true in
      do record_call (call_print_round i ax (est_size (est st) * 8 / 2 ^ 20)) then
      ret ax
    else
      worst_approximated self workload_answers (est st) workload exp_eps true in
  let n := domain_size domain ax in
  let* x := do_data_project data ax in
  let* noise := do_np_random_normal 0 (marginal_sensitivity self * sigma) n in
  let* y := lift (np_add x noise) in
  let Q := sparse_eye n in
  let measurements' := measurements st ++ [(Q, y, 1, ax)] in
  let* '(est', loss') := do_engine_estimate engine measurements' total in
  ret {| measurements := measurements';
         est := est';
         loss := Some loss';
         cliques := cliques st ++ [ax] |}.

(** Lines 109 to 119: the model before the first round. *)
Definition initial_model (self : MWEM) (data : Dataset) (engine : Engine)
    (total : option Z) : M Model :=
  if isinstance_FactoredInference engine then
    let* '(est, _) := do_engine_estimate engine [] total in
    ret est
  else
    do_ParticleModel (data_domain data) (engine_embedding engine)
      (engine_n_particles engine) (data_init self).

(** Lines 120 to 152, [for i in range(1, rounds + 1)], from a given state. *)
Definition run_loop (self : MWEM) (data : Dataset) (workload : list clique)
    (engine : Engine) (total : option Z) (workload_answers : gmap clique (list R))
    (sigma exp_eps : R) (rounds : Z) (indices : list Z) (st : loop_state) : M loop_state :=
  for_each indices
    (round_body self data workload engine (data_domain data) total workload_answers
       sigma exp_eps rounds)
    st.

(** Lines 94 to 152: [run] up to the end of the round loop. *)
Definition run_rounds (self : MWEM) (data : Dataset) (workload : list clique)
    (engine : Engine) (alpha : R) : M loop_state :=
  let* '(rounds, rho_per_round, sigma, exp_eps) := lift (run_budget self workload alpha) in
  let total := if bounded self then Some (data_records data) else None in
  let* workload_answers := compute_workload_answers data workload in
  let* est := initial_model self data engine total in
  run_loop self data workload engine total workload_answers sigma exp_eps rounds
    (py_range 1 (rounds + 1))
    {| measurements := []; est := est; loss := None; cliques := [] |}.

(** Lines 154 and 155. *)
Definition run_return (records : option Z) (st : loop_state) : M (Dataset * R) :=
  do record_call call_print_generating then
  let* synthetic := do_synthetic_data (est st) records in
  match loss st with
  | Some l => ret (synthetic, l)
  | None => lift (Raise (UnboundLocalError "loss"))
  end.

Definition run (self : MWEM) (data : Dataset) (workload : list clique)
    (engine : Engine) (alpha : R) (records : option Z) : M (Dataset * R) :=
  let* st := run_rounds self data workload engine alpha in
  run_return records st.

End MWEM.

(** ** A concrete world

    The scenario of the specification: the domain [{A: 2, B: 3}] and the
    workload [[(A,), (B,), (A, B)]], with collaborators simple enough to
    run by hand.  The private dataset has four records, all with the
    first value of every attribute; a model answers every marginal with
    zeros and is identified by the number of measurements it was fitted
    on; the generator state counts the draws made so far, [choice] returns
    that count modulo the number of candidates, and [normal] returns zero
    noise. *)
Module Toy.

Definition domain : Domain :=
  fun a => if String.eqb a "A" then 2%Z else if String.eqb a "B" then 3%Z else 1%Z.

Definition cells (cl : clique) : nat := Z.to_nat (domain_size domain cl).

Definition datavector (cl : clique) : list R :=
  match cells cl with
  | O => []
  | S n => 4 :: repeat 0 n
  end.

Definition choice (n : nat) (p : list R) (g : nat) : result nat * nat :=
  (match n with
   | O => Raise (ValueError numpy_rejects)
   | S _ => Ok (Nat.modulo g n)
   end, S g).

Definition normal (loc scale : R) (size : Z) (g : nat) : result (list R) * nat :=
  (Ok (repeat 0 (Z.to_nat size)), S g).

Instance collaborators : Collaborators := {|
  Rng := nat;
  Prng := nat;
  Dataset := clique;
  Model := nat;
  Factor := clique;
  Engine := bool;
  Embedding := unit;
  DataInit := unit;
  data_domain := fun _ => domain;
  data_records := fun _ => 4%Z;
  data_project := fun _ cl => cl;
  data_datavector := datavector;
  est_domain := fun _ => domain;
  est_project := fun _ cl => cl;
  factor_datavector := fun cl => repeat 0 (cells cl);
  est_size := fun m => INR m;
  est_synthetic_data := fun _ _ g => (Ok ["A"; "B"]%string, g);
  GraphicalModel_size := fun d cliques => IZR (fold_right Z.add 0%Z (map (domain_size d) cliques));
  ParticleModel := fun _ _ _ _ g => (Ok O, g);
  isinstance_FactoredInference := fun e => e;
  engine_estimate := fun _ ms _ g => (Ok (length ms, INR (length ms)), g);
  engine_embedding := fun _ => tt;
  engine_n_particles := fun _ => 1%Z;
  Mechanism_attributes := fun _ _ _ => (1, 2, sqrt 2);
  np_random_choice := choice;
  np_random_normal := normal
|}.

Definition A : clique := ["A"%string].
Definition B : clique := ["B"%string].
Definition AB : clique := ["A"%string; "B"%string].

Definition data : Dataset := AB.

Definition workload : list clique := [A; B; AB].

(** The table of true answers for the single candidate [A]. *)
Definition table : gmap clique (list R) :=
  <[A := datavector A]> ∅.

(** The hyperparameters of the scenario ([epsilon = 1], [delta = 1e-6]),
    for a number of rounds and a model-size cap. *)
Definition hyper (rounds : Z) (max_model_size : R) : hyperparameters := {|
  hp_epsilon := 1;
  hp_delta := 1 / 1000000;
  hp_degree := 2%Z;
  hp_rounds := rounds;
  hp_data_init := tt;
  hp_max_model_size := max_model_size
|}.

(** The bounded mechanism that the constructor builds from them, with
    total budget [rho = 1], written out. *)
Definition mechanism (rounds : Z) (max_model_size : R) : MWEM := {|
  epsilon := 1;
  delta := 1 / 1000000;
  bounded := true;
  prng := O;
  rho := 1;
  sensitivity := 2;
  marginal_sensitivity := sqrt 2;
  k := 2%Z;
  rounds := rounds;
  data_init := tt;
  max_model_size := max_model_size;
  hp := hyper rounds max_model_size
|}.

Definition start : world := {| np_random := O; calls := [] |}.

(** The state at the end of the two rounds of the scenario: the
    generator state is [0] at the first selection and [2] at the second, so
    the cliques at indices [0] and [2] of the three candidates are
    selected. *)
Definition final_state : loop_state := {|
  measurements :=
    [(sparse_eye 2, [4 + 0; 0 + 0], 1, A);
     (sparse_eye 6, [4 + 0; 0 + 0; 0 + 0; 0 + 0; 0 + 0; 0 + 0], 1, AB)];
  est := 2%nat;
  loss := Some (INR 2);
  cliques := [A; AB]
|}.

End Toy.

(** ** The vocabulary of the properties *)

Section Vocabulary.

Context {C : Collaborators}.

(** A computation [appends P] when its outcome depends on the world only
    through the generator state, and all it does to the sequence of calls
    is to append calls that satisfy [P]. *)
Definition appends {A : Type} (P : call -> Prop) (m : M A) : Prop :=
  forall g : Rng, exists (r : result A) (g' : Rng) (new : list call),
    Forall P new /\
    forall cs, m {| np_random := g; calls := cs |}
               = (r, {| np_random := g'; calls := cs ++ new |}).

(** The score of a candidate in the words of the specification: the L1
    distance between the true marginal and the model's marginal, minus the
    domain size of the candidate when the penalty is on. *)
Definition spec_l1_distance (x xest : list R) : R :=
  fold_right Rplus 0 (map (fun p => Rabs (fst p - snd p)) (combine x xest)).

Definition spec_error (workload_answers : gmap clique (list R)) (est : Model)
    (penalty : bool) (cl : clique) : R :=
  spec_l1_distance (default [] (workload_answers !! cl))
                   (factor_datavector (est_project est cl))
  - (if penalty then IZR (domain_size (est_domain est) cl) else 0).

(** The sampling distribution in the words of the specification. *)
Definition spec_distribution (eps sensitivity : R) (errors : list R) (max_error : R)
  : list R :=
  softmax (map (fun e => eps / (2 * sensitivity) * (e - max_error)) errors).

(** The calls of a run, for a given split of the budget. *)
Definition run_call (self : MWEM) (engine : Engine) (sigma exp_eps : R)
    (total records : option Z) (c : call) : Prop :=
  match c with
  | call_data_project _ => True
  | call_engine_estimate ms t =>
      t = total /\ (ms = [] -> isinstance_FactoredInference engine = true)
  | call_ParticleModel _ _ _ _ => isinstance_FactoredInference engine = false
  | call_worst_approximated _ _ eps penalty => eps = exp_eps /\ penalty = true
  | call_np_random_choice _ _ => True
  | call_np_random_normal loc scale _ =>
      loc = 0 /\ scale = marginal_sensitivity self * sigma
  | call_synthetic_data _ r => r = records
  | call_print_round _ _ _ => isinstance_FactoredInference engine = true
  | call_print_generating => True
  end.

(** The calls that carry a share of the budget carry the given one. *)
Definition uses_budget (self : MWEM) (sigma exp_eps : R) (c : call) : Prop :=
  match c with
  | call_worst_approximated _ _ eps _ => eps = exp_eps
  | call_np_random_normal loc scale _ =>
      loc = 0 /\ scale = marginal_sensitivity self * sigma
  | _ => True
  end.

(** The calls of a round that spends the given share of the budget, in
    the order of lines 121 to 151: the selection with strength [exp_eps]
    and its draw, the line printed for a size-aware engine, the projection
    of the data, the draw of the noise with mean [0] and scale
    [marginal_sensitivity * sigma], and the estimation. *)
Definition budget_round (self : MWEM) (engine : Engine) (total : option Z)
    (sigma exp_eps : R) (cs : list call) : Prop :=
  exists (est : Model) (offered : list clique) (p : list R) (i : Z) (ax : clique)
         (n : Z) (log : list measurement),
    cs = [call_worst_approximated est offered exp_eps true;
          call_np_random_choice (length offered) p]
         ++ (if isinstance_FactoredInference engine
             then [call_print_round i ax (est_size est * 8 / 2 ^ 20)]
             else [])
         ++ [call_data_project ax;
             call_np_random_normal 0 (marginal_sensitivity self * sigma) n;
             call_engine_estimate log total].

(** The calls of a round that has not completed: none when no round is
    under way, or else the selection with strength [exp_eps] first, and
    after it only calls that carry the given share of the budget. *)
Definition round_started (self : MWEM) (sigma exp_eps : R) (cs : list call) : Prop :=
  cs = [] \/
  exists (est : Model) (offered : list clique) (rest : list call),
    cs = call_worst_approximated est offered exp_eps true :: rest /\
    Forall (uses_budget self sigma exp_eps) rest.

(** What the entry of the log is for the selected clique [ax], the noise
    being drawn from the generator in state [g], given the shapes that
    the dataset and numpy's generator promise. *)
Definition recorded (self : MWEM) (data : Dataset) (sigma : R) (ax : clique) (g : Rng)
    (m : measurement) : Prop :=
  exists noise : list R,
    let n := domain_size (data_domain data) ax in
    let x := data_datavector (data_project data ax) in
    let y := map (fun p => fst p + snd p) (combine x noise) in
    m = (sparse_eye n, y, 1, ax) /\
    fst (np_random_normal 0 (marginal_sensitivity self * sigma) n g) = inr noise /\
    length noise = Z.to_nat n /\
    length y = Z.to_nat n.

(** The cliques selected in the rounds, when the rounds completed. *)
Definition cliques_of (r : result loop_state) : option (list clique) :=
  match r with
  | inl _ => None
  | inr st => Some (cliques st)
  end.

(** Reproducibility.  [E] relates two states of the generators that the
    same seed gives: an operation [respects E] when, from two such states,
    it has the same outcome and leaves two such states.  The collaborators
    are [seeded] when each of the operations that take the state respects
    [E]: numpy's [choice] and [normal], the engine (as its contract has
    it), the construction of a [ParticleModel] and [synthetic_data]. *)
Definition respects {A : Type} (E : Rng -> Rng -> Prop) (f : Rng -> result A * Rng)
  : Prop :=
  forall g1 g2, E g1 g2 -> fst (f g1) = fst (f g2) /\ E (snd (f g1)) (snd (f g2)).

Definition seeded (E : Rng -> Rng -> Prop) (engine : Engine) : Prop :=
  (forall n p, respects E (np_random_choice n p)) /\
  (forall loc scale n, respects E (np_random_normal loc scale n)) /\
  (forall ms total, respects E (engine_estimate engine ms total)) /\
  (forall d e n di, respects E (ParticleModel d e n di)) /\
  (forall est records, respects E (est_synthetic_data est records)).

(** A computation is [reproducible] when, from two worlds whose
    generators are in states that [E] relates, it has the same outcome,
    makes the same calls and leaves the generators in states that [E]
    relates. *)
Definition reproducible {A : Type} (E : Rng -> Rng -> Prop) (m : M A) : Prop :=
  forall w1 w2, E (np_random w1) (np_random w2) ->
    fst (m w1) = fst (m w2) /\
    E (np_random (snd (m w1))) (np_random (snd (m w2))) /\
    exists new, calls (snd (m w1)) = calls w1 ++ new /\
                calls (snd (m w2)) = calls w2 ++ new.

(** Two mechanisms have the same configuration when they differ at most
    in the generator object given to the constructor. *)
Definition same_configuration (self1 self2 : MWEM) : Prop :=
  epsilon self1 = epsilon self2 /\ delta self1 = delta self2 /\
  bounded self1 = bounded self2 /\ rho self1 = rho self2 /\
  sensitivity self1 = sensitivity self2 /\
  marginal_sensitivity self1 = marginal_sensitivity self2 /\
  k self1 = k self2 /\ rounds self1 = rounds self2 /\
  data_init self1 = data_init self2 /\ max_model_size self1 = max_model_size self2 /\
  hp self1 = hp self2.

(** A vector of probabilities: positive entries that add up to one. *)
Definition distribution (p : list R) : Prop :=
  Forall (fun q => 0 < q) p /\ np_sum p = 1.

(** What the collaborators promise.  The dataset and the models: the
    shapes of the marginals.  numpy: [choice(n, p=p)] returns an index
    below [n] when [n] is positive and [p] is a vector of [n]
    probabilities, and [normal(0, scale, n)] returns [n] numbers when
    neither [scale] nor [n] is negative; for other arguments nothing is
    promised.  The engine and the models: no exception.  The domain: no
    negative cardinality. *)
Definition well_behaved (data : Dataset) (engine : Engine) : Prop :=
  (forall cl, length (data_datavector (data_project data cl))
              = Z.to_nat (domain_size (data_domain data) cl)) /\
  (forall est cl, length (factor_datavector (est_project est cl))
                  = length (data_datavector (data_project data cl))) /\
  (forall n p g, n <> O -> length p = n -> distribution p ->
     exists key, fst (np_random_choice n p g) = inr key /\ (key < n)%nat) /\
  (forall scale n g, 0 <= scale -> (0 <= n)%Z ->
     exists noise, fst (np_random_normal 0 scale n g) = inr noise /\
                   length noise = Z.to_nat n) /\
  (forall ms total g, exists r, fst (engine_estimate engine ms total g) = inr r) /\
  (forall d e n di g, exists m, fst (ParticleModel d e n di g) = inr m) /\
  (forall est records g, exists d, fst (est_synthetic_data est records g) = inr d) /\
  (forall a, (0 <= data_domain data a)%Z).

End Vocabulary.

(** Evaluates the sum of domain sizes in a model size of the concrete world. *)
Ltac toy_sum :=
  match goal with
  | |- context [fold_right Z.add 0%Z ?l] =>
      let v := eval vm_compute in (fold_right Z.add 0%Z l) in
      change (fold_right Z.add 0%Z l) with v
  end.

(** ** More vocabulary *)

Section Accounting.

Context {C : Collaborators}.

(** The kinds of calls that an account of a run counts. *)
Definition is_data_project (c : call) : bool :=
  match c with call_data_project _ => true | _ => false end.

Definition is_worst_approximated (c : call) : bool :=
  match c with call_worst_approximated _ _ _ _ => true | _ => false end.

Definition is_np_random_normal (c : call) : bool :=
  match c with call_np_random_normal _ _ _ => true | _ => false end.

Definition is_engine_estimate (c : call) : bool :=
  match c with call_engine_estimate _ _ => true | _ => false end.

Definition count (f : call -> bool) (cs : list call) : nat :=
  length (List.filter f cs).

(** The calls of one round, in the order of lines 121 to 151: the
    selection and its draw, the line printed for a size-aware engine, the
    projection of the data, the draw of the noise and the estimation. *)
Definition round_trace (engine : Engine) (total : option Z) (cs : list call) : Prop :=
  exists (est : Model) (offered : list clique) (eps : R) (p : list R) (i : Z)
         (ax : clique) (scale : R) (n : Z) (log : list measurement),
    cs = [call_worst_approximated est offered eps true;
          call_np_random_choice (length offered) p]
         ++ (if isinstance_FactoredInference engine
             then [call_print_round i ax (est_size est * 8 / 2 ^ 20)]
             else [])
         ++ [call_data_project ax;
             call_np_random_normal 0 scale n;
             call_engine_estimate log total].

(** The calls made up to the end of the round loop. *)
Definition loop_call (c : call) : Prop :=
  match c with
  | call_synthetic_data _ _ => False
  | call_print_generating => False
  | _ => True
  end.

End Accounting.

(** ** More of the concrete world *)

Section MoreToy.

#[local] Existing Instance Toy.collaborators.

(** A table of true answers for the candidates [A] and [B], and one in
    which the answer for [B] has two entries where the domain of [B] has
    three cells. *)
Definition toy_table_AB : gmap clique (list R) :=
  <[Toy.B := Toy.datavector Toy.B]> Toy.table.

Definition toy_table_short : gmap clique (list R) :=
  <[Toy.B := [1; 2]]> Toy.table.

(** The table of true answers of the whole workload, as [run] builds it. *)
Definition toy_table_workload : gmap clique (list R) :=
  <[Toy.AB := Toy.datavector Toy.AB]> toy_table_AB.

(** The hyperparameters of the scenario with another [degree]. *)
Definition toy_hyper_degree_3 : hyperparameters := {|
  hp_epsilon := 1;
  hp_delta := 1 / 1000000;
  hp_degree := 3%Z;
  hp_rounds := 2%Z;
  hp_data_init := tt;
  hp_max_model_size := 1
|}.

End MoreToy.

(** ** A concrete world with two streams

    The collaborators of the scenario again, in a process whose
    generators have a state of two parts: the state of numpy's
    module-level generator, which a seed fixes, and the state of another
    generator, one of its own given to the constructor, say.  Every
    operation reads and advances the first part and leaves the second. *)
Module Seeded.

Definition on_global {A : Type} (f : nat -> result A * nat) (g : nat * nat)
  : result A * (nat * nat) :=
  (fst (f (fst g)), (snd (f (fst g)), snd g)).

Instance two_streams : Collaborators := {|
  Rng := (nat * nat)%type;
  Prng := nat;
  Dataset := clique;
  Model := nat;
  Factor := clique;
  Engine := bool;
  Embedding := unit;
  DataInit := unit;
  data_domain := fun _ => Toy.domain;
  data_records := fun _ => 4%Z;
  data_project := fun _ cl => cl;
  data_datavector := Toy.datavector;
  est_domain := fun _ => Toy.domain;
  est_project := fun _ cl => cl;
  factor_datavector := fun cl => repeat 0 (Toy.cells cl);
  est_size := fun m => INR m;
  est_synthetic_data := fun _ _ g => (Ok ["A"; "B"]%string, g);
  GraphicalModel_size :=
    fun d cliques => IZR (fold_right Z.add 0%Z (map (domain_size d) cliques));
  ParticleModel := fun _ _ _ _ g => (Ok O, g);
  isinstance_FactoredInference := fun e => e;
  engine_estimate := fun _ ms _ g => (Ok (length ms, INR (length ms)), g);
  engine_embedding := fun _ => tt;
  engine_n_particles := fun _ => 1%Z;
  Mechanism_attributes := fun _ _ _ => (1, 2, sqrt 2);
  np_random_choice := fun n p => on_global (Toy.choice n p);
  np_random_normal := fun loc scale size => on_global (Toy.normal loc scale size)
|}.

(** Two states that the same seed gives: the same state of the
    module-level generator. *)
Definition same_seed (g1 g2 : nat * nat) : Prop := fst g1 = fst g2.

(** The mechanism of the scenario, with two rounds, for a generator object
    given to the constructor. *)
Definition mechanism_of (prng : nat) : MWEM := {|
  epsilon := 1;
  delta := 1 / 1000000;
  bounded := true;
  prng := prng;
  rho := 1;
  sensitivity := 2;
  marginal_sensitivity := sqrt 2;
  k := 2%Z;
  rounds := 2%Z;
  data_init := tt;
  max_model_size := 1;
  hp := {| hp_epsilon := 1;
           hp_delta := 1 / 1000000;
           hp_degree := 2%Z;
           hp_rounds := 2%Z;
           hp_data_init := tt;
           hp_max_model_size := 1 |}
|}.

(** A world of that process: the states of the two generators and the
    calls made so far. *)
Definition world_at (seed other : nat) (history : list call) : world :=
  {| np_random := (seed, other); calls := history |}.

End Seeded.

(** * Properties *)

(** ** Reasoning about computations in [M] *)

Section Logic.

Context {C : Collaborators}.

Lemma bind_Ok {A B : Type} (m : M A) (k : A -> M B) (w w' : world) (b : B) :
  bind m k w = (inr b, w') ->
  exists a w1, m w = (inr a, w1) /\ k a w1 = (inr b, w').
Proof.
  unfold bind. destruct (m w) as [[e | a] w1] eqn:E; intros H.
  - discriminate H.
  - exists a, w1. split; [reflexivity | exact H].
Qed.

Lemma bind_Raise {A B : Type} (m : M A) (k : A -> M B) (w w' : world) (e : exn) :
  m w = (inl e, w') -> bind m k w = (inl e, w').
Proof. intros H. unfold bind. rewrite H. reflexivity. Qed.

Lemma bind_step {A B : Type} (m : M A) (k : A -> M B) (w w1 : world) (a : A) :
  m w = (inr a, w1) -> bind m k w = k a w1.
Proof. intros H. unfold bind. rewrite H. reflexivity. Qed.

Lemma for_each_app {A S : Type} (xs ys : list A) (body : A -> S -> M S) (s : S) (w : world) :
  for_each (xs ++ ys) body s w = bind (for_each xs body s) (for_each ys body) w.
Proof.
  revert s w. induction xs as [| x xs IH]; intros s w; simpl.
  - reflexivity.
  - unfold bind at 1 2 3. destruct (body x s w) as [[e | s1] w1].
    + reflexivity.
    + rewrite IH. reflexivity.
Qed.

Lemma appends_ret {A : Type} (P : call -> Prop) (a : A) : appends P (ret a).
Proof.
  intros g. exists (Ok a), g, []. split; [constructor |].
  intros cs. unfold ret. rewrite app_nil_r. reflexivity.
Qed.

Lemma appends_lift {A : Type} (P : call -> Prop) (r : result A) : appends P (lift r).
Proof.
  intros g. exists r, g, []. split; [constructor |].
  intros cs. unfold lift. rewrite app_nil_r. reflexivity.
Qed.

Lemma appends_record_call (P : call -> Prop) (c : call) :
  P c -> appends P (record_call c).
Proof.
  intros Hc g. exists (Ok tt), g, [c]. split; [repeat constructor; exact Hc |].
  intros cs. reflexivity.
Qed.

Lemma appends_ambient {A : Type} (P : call -> Prop) (f : Rng -> result A * Rng) :
  appends P (ambient f).
Proof.
  intros g. exists (fst (f g)), (snd (f g)), []. split; [constructor |].
  intros cs. unfold ambient. simpl. destruct (f g) as [r g']. simpl.
  rewrite app_nil_r. reflexivity.
Qed.

Lemma appends_bind {A B : Type} (P : call -> Prop) (m : M A) (k : A -> M B) :
  appends P m -> (forall a, appends P (k a)) -> appends P (bind m k).
Proof.
  intros Hm Hk g.
  destruct (Hm g) as (r & g1 & new1 & HP1 & E1).
  destruct r as [e | a].
  - exists (inl e), g1, new1. split; [exact HP1 |].
    intros cs. unfold bind. rewrite E1. reflexivity.
  - destruct (Hk a g1) as (r2 & g2 & new2 & HP2 & E2).
    exists r2, g2, (new1 ++ new2). split.
    + apply Forall_app. split; assumption.
    + intros cs. unfold bind. rewrite E1, E2, app_assoc. reflexivity.
Qed.

Lemma appends_for_each {A S : Type} (P : call -> Prop) (xs : list A)
    (body : A -> S -> M S) (s : S) :
  (forall x s', appends P (body x s')) -> appends P (for_each xs body s).
Proof.
  intros Hbody. revert s. induction xs as [| x xs IH]; intros s; simpl.
  - apply appends_ret.
  - apply appends_bind; [apply Hbody | exact IH].
Qed.

Lemma appends_weaken {A : Type} (P Q : call -> Prop) (m : M A) :
  (forall c, P c -> Q c) -> appends P m -> appends Q m.
Proof.
  intros HPQ Hm g. destruct (Hm g) as (r & g' & new & HP & E).
  exists r, g', new. split; [| exact E].
  eapply Forall_impl; [exact HP | exact HPQ].
Qed.

(** The calls on collaborators append the call they record. *)

Lemma appends_do_data_project (P : call -> Prop) (data : Dataset) (cl : clique) :
  P (call_data_project cl) -> appends P (do_data_project data cl).
Proof.
  intros H. unfold do_data_project.
  apply appends_bind; [apply appends_record_call; exact H | intros _; apply appends_ret].
Qed.

Lemma appends_do_engine_estimate (P : call -> Prop) (engine : Engine)
    (ms : list measurement) (total : option Z) :
  P (call_engine_estimate ms total) -> appends P (do_engine_estimate engine ms total).
Proof.
  intros H. unfold do_engine_estimate.
  apply appends_bind; [apply appends_record_call; exact H | intros _; apply appends_ambient].
Qed.

Lemma appends_do_ParticleModel (P : call -> Prop) (domain : Domain) (e : Embedding)
    (n : Z) (d : DataInit) :
  P (call_ParticleModel domain e n d) -> appends P (do_ParticleModel domain e n d).
Proof.
  intros H. unfold do_ParticleModel.
  apply appends_bind; [apply appends_record_call; exact H | intros _; apply appends_ambient].
Qed.

Lemma appends_do_np_random_choice (P : call -> Prop) (n : nat) (p : list R) :
  P (call_np_random_choice n p) -> appends P (do_np_random_choice n p).
Proof.
  intros H. unfold do_np_random_choice.
  apply appends_bind; [apply appends_record_call; exact H | intros _; apply appends_ambient].
Qed.

Lemma appends_do_np_random_normal (P : call -> Prop) (loc scale : R) (n : Z) :
  P (call_np_random_normal loc scale n) -> appends P (do_np_random_normal loc scale n).
Proof.
  intros H. unfold do_np_random_normal.
  apply appends_bind; [apply appends_record_call; exact H | intros _; apply appends_ambient].
Qed.

Lemma appends_do_synthetic_data (P : call -> Prop) (est : Model) (records : option Z) :
  P (call_synthetic_data est records) -> appends P (do_synthetic_data est records).
Proof.
  intros H. unfold do_synthetic_data.
  apply appends_bind; [apply appends_record_call; exact H | intros _; apply appends_ambient].
Qed.

(** What follows from [appends] for one world. *)
Lemma appends_calls {A : Type} (P : call -> Prop) (m : M A) (w : world) :
  appends P m ->
  exists new, calls (snd (m w)) = calls w ++ new /\ Forall P new.
Proof.
  intros Hm. destruct (Hm (np_random w)) as (r & g' & new & HP & E).
  exists new. destruct w as [g cs]. simpl in *. rewrite E. simpl. auto.
Qed.

(** Two worlds with the same generator state give the same outcome, the
    same next generator state and the same new calls. *)
Lemma appends_deterministic {A : Type} (P : call -> Prop) (m : M A) (w1 w2 : world) :
  appends P m ->
  np_random w1 = np_random w2 ->
  fst (m w1) = fst (m w2) /\
  np_random (snd (m w1)) = np_random (snd (m w2)) /\
  exists new, calls (snd (m w1)) = calls w1 ++ new /\ calls (snd (m w2)) = calls w2 ++ new.
Proof.
  intros Hm Hg. destruct (Hm (np_random w1)) as (r & g' & new & HP & E).
  destruct w1 as [g1 cs1], w2 as [g2 cs2]. simpl in *. subst g2.
  rewrite !E. simpl. repeat split. exists new. auto.
Qed.

End Logic.

(** ** The selector *)

Section Selector.

Context {C : Collaborators}.

Lemma np_sub_same_length (x y : list R) :
  length x = length y ->
  np_sub x y = Ok (map (fun p => fst p - snd p) (combine x y)).
Proof.
  intros H. unfold np_sub, np_broadcast.
  rewrite (proj2 (Nat.eqb_eq _ _) H). reflexivity.
Qed.

Lemma np_add_same_length (x y : list R) :
  length x = length y ->
  np_add x y = Ok (map (fun p => fst p + snd p) (combine x y)).
Proof.
  intros H. unfold np_add, np_broadcast.
  rewrite (proj2 (Nat.eqb_eq _ _) H). reflexivity.
Qed.

Lemma np_sum_abs_sub (x y : list R) :
  np_sum (np_abs (map (fun p => fst p - snd p) (combine x y))) = spec_l1_distance x y.
Proof.
  unfold np_sum, np_abs, spec_l1_distance. rewrite map_map. reflexivity.
Qed.

Lemma fold_left_Rmax_ge (l : list R) (a : R) : a <= fold_left Rmax l a.
Proof.
  revert a. induction l as [| b l IH]; intros a; simpl.
  - lra.
  - eapply Rle_trans; [apply Rmax_l | apply IH].
Qed.

Lemma fold_left_Rmax_upper (l : list R) (a : R) :
  Forall (fun e => e <= fold_left Rmax l a) l.
Proof.
  revert a. induction l as [| b l IH]; intros a; simpl.
  - constructor.
  - constructor.
    + eapply Rle_trans; [apply Rmax_r | apply fold_left_Rmax_ge].
    + apply IH.
Qed.

Lemma fold_left_Rmax_In (l : list R) (a : R) : In (fold_left Rmax l a) (a :: l).
Proof.
  revert a. induction l as [| b l IH]; intros a; simpl.
  - left. reflexivity.
  - destruct (IH (Rmax a b)) as [H | H].
    + unfold Rmax in H at 1. destruct (Rle_dec a b).
      * right. left. exact H.
      * left. exact H.
    + right. right. exact H.
Qed.

(** [errors.max()] is the greatest entry. *)
Lemma np_max_Ok (x : list R) (m : R) :
  np_max x = Ok m -> Forall (fun e => e <= m) x /\ In m x.
Proof.
  destruct x as [| a rest]; simpl; intros H; [discriminate H |].
  injection H as <-. split.
  - constructor; [apply fold_left_Rmax_ge | apply fold_left_Rmax_upper].
  - apply fold_left_Rmax_In.
Qed.

Lemma np_max_nonempty (x : list R) : x <> [] -> exists m, np_max x = Ok m.
Proof. destruct x; [congruence | intros _; eexists; reflexivity]. Qed.

(** The loop over the candidates makes no call and draws no number. *)
Lemma error_loop_pure (penalty : bool) (workload : list clique) (fr0 : locals) (w : world) :
  snd (for_each workload (fun cl fr => lift (error_step penalty cl fr)) fr0 w) = w.
Proof.
  revert fr0. induction workload as [| cl rest IH]; intros fr0; simpl.
  - reflexivity.
  - unfold bind, lift. destruct (error_step penalty cl fr0) as [e | fr1].
    + reflexivity.
    + apply IH.
Qed.

(** The loop rebinds [errors] only. *)
Lemma error_loop_frame (penalty : bool) (workload : list clique) (fr0 fr : locals)
    (w w' : world) :
  for_each workload (fun cl fr => lift (error_step penalty cl fr)) fr0 w = (inr fr, w') ->
  l_workload_answers fr = l_workload_answers fr0 /\
  l_est fr = l_est fr0 /\
  l_workload fr = l_workload fr0 /\
  length (l_errors fr) = (length (l_errors fr0) + length workload)%nat.
Proof.
  revert fr0 w. induction workload as [| cl rest IH]; intros fr0 w; simpl.
  - unfold ret. intros H. injection H as <- <-. repeat split. lia.
  - intros H. apply bind_Ok in H as (fr1 & w1 & H1 & H2).
    unfold lift in H1. injection H1 as H1 <-.
    apply IH in H2 as (Ha & He & Hw & Hl).
    unfold error_step, result_bind in H1.
    destruct (dict_getitem (l_workload_answers fr0) cl) as [e | x]; [discriminate H1 |].
    destruct (np_sub x _) as [e | d]; [discriminate H1 |].
    injection H1 as <-. simpl in *.
    unfold np_append in Hl. rewrite length_app in Hl. simpl in Hl.
    repeat split; try assumption. lia.
Qed.

(** When the table covers the candidates with vectors of the model's
    shape, the loop computes the specification's scores. *)
Lemma error_loop_covered (penalty : bool) (workload : list clique) (fr0 : locals)
    (w : world) :
  (forall cl, In cl workload ->
     exists x, l_workload_answers fr0 !! cl = Some x /\
               length x = length (factor_datavector (est_project (l_est fr0) cl))) ->
  for_each workload (fun cl fr => lift (error_step penalty cl fr)) fr0 w
  = (inr {| l_workload_answers := l_workload_answers fr0;
            l_est := l_est fr0;
            l_workload := l_workload fr0;
            l_errors := l_errors fr0
                        ++ map (spec_error (l_workload_answers fr0) (l_est fr0) penalty)
                             workload |}, w).
Proof.
  revert fr0. induction workload as [| cl rest IH]; intros fr0 Hcov; simpl.
  - unfold ret, Ok. rewrite app_nil_r. destruct fr0; reflexivity.
  - destruct (Hcov cl (or_introl eq_refl)) as (x & Hx & Hlen).
    assert (E : error_step penalty cl fr0
                = Ok {| l_workload_answers := l_workload_answers fr0;
                        l_est := l_est fr0;
                        l_workload := l_workload fr0;
                        l_errors := l_errors fr0
                          ++ [spec_error (l_workload_answers fr0) (l_est fr0) penalty cl] |}).
    { unfold error_step, dict_getitem, spec_error. rewrite Hx. simpl.
      rewrite (np_sub_same_length _ _ Hlen). simpl.
      rewrite np_sum_abs_sub. reflexivity. }
    unfold bind at 1. unfold lift at 1. rewrite E. unfold Ok.
    rewrite IH.
    + simpl. rewrite <- app_assoc. reflexivity.
    + simpl. intros cl' Hin. apply Hcov. right. exact Hin.
Qed.

Lemma record_call_eq (c : call) (w : world) :
  record_call c w = (inr tt, {| np_random := np_random w; calls := calls w ++ [c] |}).
Proof. reflexivity. Qed.

Lemma do_np_random_choice_eq (n : nat) (p : list R) (w : world) :
  do_np_random_choice n p w
  = (fst (np_random_choice n p (np_random w)),
     {| np_random := snd (np_random_choice n p (np_random w));
        calls := calls w ++ [call_np_random_choice n p] |}).
Proof.
  unfold do_np_random_choice, bind, record_call, ambient. simpl.
  destruct (np_random_choice n p (np_random w)) as [[e | key] g']; reflexivity.
Qed.

Lemma do_np_random_normal_eq (loc scale : R) (n : Z) (w : world) :
  do_np_random_normal loc scale n w
  = (fst (np_random_normal loc scale n (np_random w)),
     {| np_random := snd (np_random_normal loc scale n (np_random w));
        calls := calls w ++ [call_np_random_normal loc scale n] |}).
Proof.
  unfold do_np_random_normal, bind, record_call, ambient. simpl.
  destruct (np_random_normal loc scale n (np_random w)) as [[e | v] g']; reflexivity.
Qed.

Lemma do_engine_estimate_eq (engine : Engine) (ms : list measurement) (total : option Z)
    (w : world) :
  do_engine_estimate engine ms total w
  = (fst (engine_estimate engine ms total (np_random w)),
     {| np_random := snd (engine_estimate engine ms total (np_random w));
        calls := calls w ++ [call_engine_estimate ms total] |}).
Proof.
  unfold do_engine_estimate, bind, record_call, ambient. simpl.
  destruct (engine_estimate engine ms total (np_random w)) as [[e | v] g']; reflexivity.
Qed.

Lemma do_ParticleModel_eq (domain : Domain) (e : Embedding) (n : Z) (d : DataInit)
    (w : world) :
  do_ParticleModel domain e n d w
  = (fst (ParticleModel domain e n d (np_random w)),
     {| np_random := snd (ParticleModel domain e n d (np_random w));
        calls := calls w ++ [call_ParticleModel domain e n d] |}).
Proof.
  unfold do_ParticleModel, bind, record_call, ambient. simpl.
  destruct (ParticleModel domain e n d (np_random w)) as [[x | v] g']; reflexivity.
Qed.

Lemma do_synthetic_data_eq (est : Model) (records : option Z) (w : world) :
  do_synthetic_data est records w
  = (fst (est_synthetic_data est records (np_random w)),
     {| np_random := snd (est_synthetic_data est records (np_random w));
        calls := calls w ++ [call_synthetic_data est records] |}).
Proof.
  unfold do_synthetic_data, bind, record_call, ambient. simpl.
  destruct (est_synthetic_data est records (np_random w)) as [[x | v] g']; reflexivity.
Qed.

Lemma do_data_project_eq (data : Dataset) (cl : clique) (w : world) :
  do_data_project data cl w
  = (inr (data_datavector (data_project data cl)),
     {| np_random := np_random w; calls := calls w ++ [call_data_project cl] |}).
Proof. reflexivity. Qed.

(** The scaling factor of the code is the one of the specification. *)
Lemma selection_scale (eps sensitivity : R) :
  0.5 * eps / sensitivity = eps / (2 * sensitivity).
Proof.
  unfold Rdiv. rewrite Rinv_mult. generalize (/ sensitivity). intros t. lra.
Qed.

(** The argument of [softmax] is there when the maximum is. *)
Lemma selection_logits_eq (self : MWEM) (eps : R) (errors : list R) (m : R) :
  np_max errors = Ok m ->
  selection_logits self eps errors
  = Ok (map (fun e => 0.5 * eps / sensitivity self * (e - m)) errors).
Proof. intros H. unfold selection_logits. rewrite H. reflexivity. Qed.

Lemma selection_logits_Ok (self : MWEM) (eps : R) (errors logits : list R) :
  selection_logits self eps errors = Ok logits ->
  exists m, np_max errors = Ok m /\
            logits = map (fun e => 0.5 * eps / sensitivity self * (e - m)) errors.
Proof.
  unfold selection_logits. destruct (np_max errors) as [e | m]; intros H.
  - discriminate H.
  - injection H as <-. exists m. split; reflexivity.
Qed.

(** What a successful selection did. *)
Lemma worst_approximated_body_Ok (self : MWEM) (workload_answers : gmap clique (list R))
    (est : Model) (workload : list clique) (eps : R) (penalty : bool)
    (w w' : world) (ax : clique) (fr : locals) :
  worst_approximated_body self workload_answers est workload eps penalty w
  = (inr (ax, fr), w') ->
  l_workload_answers fr = workload_answers /\
  l_est fr = est /\
  l_workload fr = workload /\
  length (l_errors fr) = length workload /\
  exists (errors_max : R) (key : nat),
    let prob := softmax (map (fun e => 0.5 * eps / sensitivity self * (e - errors_max))
                           (l_errors fr)) in
    np_max (l_errors fr) = Ok errors_max /\
    fst (np_random_choice (length workload) prob (np_random w)) = inr key /\
    nth_error workload key = Some ax /\
    w' = {| np_random := snd (np_random_choice (length workload) prob (np_random w));
            calls := calls w ++ [call_worst_approximated est workload eps penalty;
                                 call_np_random_choice (length workload) prob] |}.
Proof.
  unfold worst_approximated_body. intros H.
  apply bind_Ok in H as ([] & w1 & H1 & H).
  rewrite record_call_eq in H1. injection H1 as <-.
  apply bind_Ok in H as (fr1 & w2 & H2 & H).
  match type of H2 with ?m ?fr0 ?w0 = _ =>
    pose proof (error_loop_pure penalty workload fr0 w0) as Hpure end.
  rewrite H2 in Hpure. simpl in Hpure. subst w2.
  apply error_loop_frame in H2 as (Ha & He & Hw & Hl). simpl in Ha, He, Hw, Hl.
  apply bind_Ok in H as (logits & w3 & H3 & H).
  unfold lift in H3. injection H3 as H3 <-.
  apply selection_logits_Ok in H3 as (m & H3 & ->).
  apply bind_Ok in H as (key & w4 & H4 & H).
  rewrite do_np_random_choice_eq in H4. injection H4 as H4 <-.
  apply bind_Ok in H as (ax' & w5 & H5 & H).
  unfold lift in H5. injection H5 as H5 <-.
  unfold ret in H. injection H as <- <- <-.
  repeat split; try assumption.
  exists m, key. simpl. rewrite Hl in *. simpl in H4.
  repeat split.
  - exact H3.
  - exact H4.
  - unfold py_getitem in H5. rewrite Hw in H5.
    destruct (nth_error workload key); [injection H5 as ->; reflexivity | discriminate H5].
  - rewrite <- app_assoc. reflexivity.
Qed.

Lemma worst_approximated_Ok (self : MWEM) (workload_answers : gmap clique (list R))
    (est : Model) (workload : list clique) (eps : R) (penalty : bool)
    (w w' : world) (ax : clique) :
  worst_approximated self workload_answers est workload eps penalty w = (inr ax, w') ->
  exists fr,
    worst_approximated_body self workload_answers est workload eps penalty w
    = (inr (ax, fr), w').
Proof.
  unfold worst_approximated. intros H.
  apply bind_Ok in H as ([ax' fr] & w1 & H1 & H).
  unfold ret in H. injection H as <- <-. exists fr. exact H1.
Qed.

(** An empty candidate list is refused by [errors.max()], after the call
    is recorded and before any number is drawn. *)
Lemma worst_approximated_empty (self : MWEM) (workload_answers : gmap clique (list R))
    (est : Model) (eps : R) (penalty : bool) (w : world) :
  worst_approximated self workload_answers est [] eps penalty w
  = (inl (ValueError zero_size_reduction),
     {| np_random := np_random w;
        calls := calls w ++ [call_worst_approximated est [] eps penalty] |}).
Proof. reflexivity. Qed.

(** The selection on a covered candidate list, computed. *)
Lemma worst_approximated_covered (self : MWEM) (workload_answers : gmap clique (list R))
    (est : Model) (workload : list clique) (eps : R) (penalty : bool) (w : world)
    (errors_max : R) :
  (forall cl, In cl workload ->
     exists x, workload_answers !! cl = Some x /\
               length x = length (factor_datavector (est_project est cl))) ->
  let errors := map (spec_error workload_answers est penalty) workload in
  np_max errors = Ok errors_max ->
  let prob := softmax (map (fun e => 0.5 * eps / sensitivity self * (e - errors_max))
                         errors) in
  worst_approximated self workload_answers est workload eps penalty w
  = (match fst (np_random_choice (length workload) prob (np_random w)) with
     | inl e => inl e
     | inr key => py_getitem workload key
     end,
     {| np_random := snd (np_random_choice (length workload) prob (np_random w));
        calls := calls w ++ [call_worst_approximated est workload eps penalty;
                             call_np_random_choice (length workload) prob] |}).
Proof.
  intros Hcov errors Hm prob.
  assert (Hlen : length errors = length workload) by apply length_map.
  unfold worst_approximated, worst_approximated_body.
  unfold bind at 1 2. rewrite record_call_eq.
  unfold bind at 1. rewrite error_loop_covered by (simpl; exact Hcov).
  simpl l_errors. simpl l_workload. fold errors.
  unfold bind at 1. unfold lift at 1. rewrite (selection_logits_eq self eps errors errors_max Hm).
  unfold Ok. fold prob. rewrite Hlen.
  unfold bind at 1. rewrite do_np_random_choice_eq. simpl np_random. simpl calls.
  rewrite <- app_assoc. simpl app.
  destruct (np_random_choice (length workload) prob (np_random w)) as [[e | key] g'];
    simpl.
  - reflexivity.
  - unfold bind, lift, ret. destruct (py_getitem workload key) as [e | ax]; reflexivity.
Qed.

(** What is returned is one of the candidates. *)
Lemma worst_approximated_In (self : MWEM) (workload_answers : gmap clique (list R))
    (est : Model) (workload : list clique) (eps : R) (penalty : bool)
    (w w' : world) (ax : clique) :
  worst_approximated self workload_answers est workload eps penalty w = (inr ax, w') ->
  In ax workload.
Proof.
  intros H. apply worst_approximated_Ok in H as (fr & H).
  apply worst_approximated_body_Ok in H
    as (_ & _ & _ & _ & m & key & _ & _ & Hnth & _).
  eapply nth_error_In. exact Hnth.
Qed.

End Selector.

(** ** The softmax *)

Section Softmax.

Lemma np_sum_map_div (f : R -> R) (s : R) (x : list R) :
  np_sum (map (fun xi => f xi / s) x) = np_sum (map f x) / s.
Proof.
  unfold np_sum. induction x as [| a x IH]; simpl.
  - unfold Rdiv. ring.
  - rewrite IH. unfold Rdiv. ring.
Qed.

Lemma np_sum_exp_pos (x : list R) : x <> [] -> 0 < np_sum (map exp x).
Proof.
  unfold np_sum.
  assert (H : forall y, 0 <= fold_right Rplus 0 (map exp y)).
  { induction y as [| a y IH]; cbn [map fold_right].
    - lra.
    - pose proof (exp_pos a). lra. }
  destruct x as [| a x]; [congruence |]. intros _. cbn [map fold_right].
  pose proof (exp_pos a). pose proof (H x) as Hx. lra.
Qed.

Lemma softmax_length (x : list R) : length (softmax x) = length x.
Proof. unfold softmax. apply length_map. Qed.

Lemma softmax_sum (x : list R) : x <> [] -> np_sum (softmax x) = 1.
Proof.
  intros Hx. unfold softmax. cbv zeta. rewrite np_sum_map_div.
  pose proof (np_sum_exp_pos x Hx). field. lra.
Qed.

Lemma softmax_pos (x : list R) : x <> [] -> Forall (fun p => 0 < p) (softmax x).
Proof.
  intros Hx. unfold softmax. cbv zeta. apply List.Forall_forall. intros p Hp.
  apply in_map_iff in Hp as (xi & <- & _).
  apply Rdiv_lt_0_compat; [apply exp_pos | apply np_sum_exp_pos; exact Hx].
Qed.

Lemma softmax_nth (x : list R) (i : nat) (xi : R) :
  nth_error x i = Some xi ->
  nth_error (softmax x) i = Some (exp xi / np_sum (map exp x)).
Proof.
  intros H. unfold softmax. cbv zeta. rewrite nth_error_map, H. reflexivity.
Qed.

Lemma np_sum_map_mult (f : R -> R) (c : R) (x : list R) :
  np_sum (map (fun xi => f xi * c) x) = np_sum (map f x) * c.
Proof.
  unfold np_sum. induction x as [| a x IH]; simpl.
  - ring.
  - rewrite IH. ring.
Qed.

(** Shifting every entry by the same amount does not change the softmax. *)
Lemma softmax_shift (x : list R) (d : R) :
  softmax (map (fun xi => xi - d) x) = softmax x.
Proof.
  destruct x as [| a x'] eqn:Ex; [reflexivity |]. rewrite <- Ex.
  assert (Hx : x <> []) by (rewrite Ex; discriminate).
  unfold softmax. cbv zeta. rewrite !map_map.
  assert (Hs : np_sum (map (fun xi => exp (xi - d)) x) = np_sum (map exp x) * exp (- d)).
  { rewrite <- np_sum_map_mult. f_equal. apply map_ext. intros xi.
    unfold Rminus. apply exp_plus. }
  rewrite Hs. apply map_ext. intros xi.
  pose proof (np_sum_exp_pos x Hx). pose proof (exp_pos (- d)).
  unfold Rminus. rewrite exp_plus. field. lra.
Qed.

(** The softmax of equal entries is uniform. *)
Lemma softmax_zero (x : list R) :
  softmax (map (fun _ => 0) x) = repeat (1 / INR (length x)) (length x).
Proof.
  unfold softmax. cbv zeta. rewrite !map_map.
  assert (Hs : np_sum (map (fun _ : R => exp 0) x) = INR (length x)).
  { unfold np_sum. rewrite exp_0. induction x as [| a l IH].
    - reflexivity.
    - cbn [map fold_right length]. rewrite IH, S_INR. ring. }
  rewrite Hs, exp_0. clear Hs.
  generalize (1 / INR (length x)). intros v.
  induction x as [| a l IH]; [reflexivity |].
  cbn [map length repeat]. rewrite IH. reflexivity.
Qed.

End Softmax.

Section SelectorProperties.

Context {C : Collaborators}.

(** C2.  For a non-empty candidate list and a table of true marginals
    that covers the candidates (with vectors of the shape of the model's
    marginals), [worst_approximated] scores every candidate by the L1
    distance between the true and the model's marginal minus the domain
    size of the candidate when the penalty is on.  What it hands to
    [softmax] is, candidate by candidate,
    [eps / (2 * sensitivity) * (error - max error)], where the maximum is
    the greatest of the scores, an upper bound of them and one of them:
    some entry is zero and, for [eps >= 0] and a positive sensitivity,
    none is positive.  It samples an index with the softmax of these, and
    the clique at the sampled index is what it returns. *)
Theorem worst_approximated_distribution (self : MWEM)
    (workload_answers : gmap clique (list R)) (est : Model) (workload : list clique)
    (eps : R) (penalty : bool) (w : world) :
  workload <> [] ->
  (forall cl, In cl workload ->
     exists x, workload_answers !! cl = Some x /\
               length x = length (factor_datavector (est_project est cl))) ->
  let errors := map (spec_error workload_answers est penalty) workload in
  exists max_error,
    Forall (fun e => e <= max_error) errors /\
    In max_error errors /\
    np_max errors = Ok max_error /\
    selection_logits self eps errors
    = Ok (map (fun e => eps / (2 * sensitivity self) * (e - max_error)) errors) /\
    In 0 (map (fun e => eps / (2 * sensitivity self) * (e - max_error)) errors) /\
    (0 <= eps -> 0 < sensitivity self ->
     Forall (fun l => l <= 0)
       (map (fun e => eps / (2 * sensitivity self) * (e - max_error)) errors)) /\
    let prob := spec_distribution eps (sensitivity self) errors max_error in
    calls (snd (worst_approximated self workload_answers est workload eps penalty w))
    = calls w ++ [call_worst_approximated est workload eps penalty;
                  call_np_random_choice (length workload) prob] /\
    forall key, fst (np_random_choice (length workload) prob (np_random w)) = inr key ->
      fst (worst_approximated self workload_answers est workload eps penalty w)
      = py_getitem workload key.
Proof.
  intros Hne Hcov errors.
  destruct (np_max_nonempty errors) as (m & Hm).
  { unfold errors. destruct workload; [congruence | discriminate]. }
  exists m. destruct (np_max_Ok _ _ Hm) as (Hub & Hin).
  split; [exact Hub |]. split; [exact Hin |]. split; [exact Hm |].
  assert (Hscaled : map (fun e => 0.5 * eps / sensitivity self * (e - m)) errors
                    = map (fun e => eps / (2 * sensitivity self) * (e - m)) errors).
  { apply List.map_ext. intros e. rewrite selection_scale. reflexivity. }
  split.
  { rewrite (selection_logits_eq self eps errors m Hm), Hscaled. reflexivity. }
  split.
  { apply in_map_iff. exists m. split; [ring | exact Hin]. }
  split.
  { intros Heps Hsens. apply List.Forall_forall. intros l Hl.
    apply in_map_iff in Hl as (e & <- & He).
    rewrite List.Forall_forall in Hub. specialize (Hub e He).
    assert (Hc : 0 <= eps / (2 * sensitivity self)).
    { apply Rmult_le_pos; [exact Heps |]. apply Rlt_le, Rinv_0_lt_compat. lra. }
    assert (Hd : e - m <= 0) by lra.
    replace 0 with (eps / (2 * sensitivity self) * 0) by ring.
    apply Rmult_le_compat_l; assumption. }
  intros prob.
  assert (Hprob : softmax (map (fun e => 0.5 * eps / sensitivity self * (e - m)) errors)
                  = prob).
  { unfold prob, spec_distribution. rewrite Hscaled. reflexivity. }
  rewrite (worst_approximated_covered self workload_answers est workload eps penalty w m
             Hcov Hm).
  fold errors. rewrite Hprob. simpl. split; [reflexivity |].
  intros key Hkey. rewrite Hkey. reflexivity.
Qed.

(** C10.  When [worst_approximated] returns, what it returns is the
    element of the candidate list at the sampled index, and the table of
    true answers, the candidate list and the model are, at the return, the
    ones it was given. *)
Theorem worst_approximated_frame (self : MWEM)
    (workload_answers : gmap clique (list R)) (est : Model) (workload : list clique)
    (eps : R) (penalty : bool) (w w' : world) (ax : clique) :
  worst_approximated self workload_answers est workload eps penalty w = (inr ax, w') ->
  In ax workload /\
  (exists key p, In (call_np_random_choice (length workload) p) (calls w') /\
     fst (np_random_choice (length workload) p (np_random w)) = inr key /\
     nth_error workload key = Some ax) /\
  exists fr,
    worst_approximated_body self workload_answers est workload eps penalty w
    = (inr (ax, fr), w') /\
    l_workload_answers fr = workload_answers /\
    l_workload fr = workload /\
    l_est fr = est.
Proof.
  intros H. apply worst_approximated_Ok in H as (fr & H).
  pose proof (worst_approximated_body_Ok _ _ _ _ _ _ _ _ _ _ H)
    as (Ha & He & Hw & Hl & m & key & Hm & Hkey & Hnth & Hw').
  split; [eapply nth_error_In; exact Hnth |]. split.
  - eexists key, _. split; [| split; [exact Hkey | exact Hnth]].
    rewrite Hw'. simpl. apply in_or_app. right. right. left. reflexivity.
  - exists fr. repeat split; assumption.
Qed.

End SelectorProperties.

(** ** The round loop *)

Section Rounds.

Context {C : Collaborators}.

Lemma py_truediv_Ok (a b : R) : b <> 0 -> py_truediv a b = Ok (a / b).
Proof.
  intros H. unfold py_truediv. destruct (Req_dec_T b 0); [contradiction | reflexivity].
Qed.

Lemma py_truediv_zero (a : R) : py_truediv a 0 = Raise ZeroDivisionError.
Proof.
  unfold py_truediv. destruct (Req_dec_T 0 0); [reflexivity | congruence].
Qed.

Lemma py_le_true (a b : R) : py_le a b = true <-> a <= b.
Proof. unfold py_le. destruct (Rle_dec a b); split; intros; congruence || assumption. Qed.

Lemma py_le_false (a b : R) : py_le a b = false <-> b < a.
Proof.
  unfold py_le. destruct (Rle_dec a b); split; intros H; try congruence; lra.
Qed.

(** The budget split succeeds exactly when no divisor is zero. *)
Lemma run_budget_Ok (self : MWEM) (workload : list clique) (alpha : R) :
  let n_rounds := Z.min (Z.of_nat (length workload)) (rounds self) in
  n_rounds <> 0%Z -> rho self <> 0 -> alpha <> 0 ->
  run_budget self workload alpha
  = Ok (n_rounds, rho self / IZR n_rounds,
        sqrt (0.5 / (alpha * (rho self / IZR n_rounds))),
        sqrt (8 * (1 - alpha) * (rho self / IZR n_rounds))).
Proof.
  intros n_rounds HR Hrho Halpha. unfold run_budget. fold n_rounds.
  assert (HR' : IZR n_rounds <> 0) by (apply not_0_IZR; exact HR).
  rewrite py_truediv_Ok by exact HR'. simpl.
  rewrite py_truediv_Ok; [reflexivity |].
  apply Rmult_integral_contrapositive_currified; [exact Halpha |].
  unfold Rdiv. apply Rmult_integral_contrapositive_currified; [exact Hrho |].
  apply Rinv_neq_0_compat. exact HR'.
Qed.

Lemma run_budget_Raise (self : MWEM) (workload : list clique) (alpha : R) :
  Z.min (Z.of_nat (length workload)) (rounds self) = 0%Z \/ rho self = 0 \/ alpha = 0 ->
  run_budget self workload alpha = Raise ZeroDivisionError.
Proof.
  intros H. unfold run_budget.
  destruct (Z.eq_dec (Z.min (Z.of_nat (length workload)) (rounds self)) 0%Z) as [E | E].
  - rewrite E. rewrite py_truediv_zero. reflexivity.
  - rewrite py_truediv_Ok by (apply not_0_IZR; exact E). simpl.
    replace (alpha * (rho self / IZR (Z.min (Z.of_nat (length workload)) (rounds self))))
      with 0.
    + rewrite py_truediv_zero. reflexivity.
    + destruct H as [H | [H | H]]; [contradiction | |]; rewrite H; unfold Rdiv; ring.
Qed.

(** What a successful round did. *)
Lemma round_body_Ok (self : MWEM) (data : Dataset) (workload : list clique)
    (engine : Engine) (domain : Domain) (total : option Z)
    (workload_answers : gmap clique (list R)) (sigma exp_eps : R) (rounds i : Z)
    (st st' : loop_state) (w w' : world) :
  round_body self data workload engine domain total workload_answers sigma exp_eps
    rounds i st w = (inr st', w') ->
  exists (ax : clique) (w1 : world) (noise y : list R) (l : R),
    let offered := if isinstance_FactoredInference engine
                   then candidates self domain workload (cliques st) i rounds
                   else workload in
    let n := domain_size domain ax in
    let x := data_datavector (data_project data ax) in
    let scale := marginal_sensitivity self * sigma in
    let log := measurements st ++ [(sparse_eye n, y, 1, ax)] in
    worst_approximated self workload_answers (est st) offered exp_eps true w
    = (inr ax, w1) /\
    np_random_normal 0 scale n (np_random w1) = (inr noise, snd (np_random_normal 0 scale n (np_random w1))) /\
    np_add x noise = Ok y /\
    engine_estimate engine log total (snd (np_random_normal 0 scale n (np_random w1)))
    = (inr (est st', l), np_random w') /\
    measurements st' = log /\
    loss st' = Some l /\
    cliques st' = cliques st ++ [ax] /\
    calls w' = calls w1
               ++ (if isinstance_FactoredInference engine
                   then [call_print_round i ax (est_size (est st) * 8 / 2 ^ 20)]
                   else [])
               ++ [call_data_project ax;
                   call_np_random_normal 0 scale n;
                   call_engine_estimate log total].
Proof.
  unfold round_body. intros H.
  apply bind_Ok in H as (ax & w2 & Hsel & H).
  assert (Hsel' : exists w1,
    worst_approximated self workload_answers (est st)
      (if isinstance_FactoredInference engine
       then candidates self domain workload (cliques st) i rounds else workload)
      exp_eps true w = (inr ax, w1) /\
    np_random w2 = np_random w1 /\
    calls w2 = calls w1 ++ (if isinstance_FactoredInference engine
                            then [call_print_round i ax (est_size (est st) * 8 / 2 ^ 20)]
                            else [])).
  { destruct (isinstance_FactoredInference engine).
    - apply bind_Ok in Hsel as (ax' & w1 & Hsel & Hp).
      apply bind_Ok in Hp as ([] & w1' & Hp & Hr).
      rewrite record_call_eq in Hp. injection Hp as <-.
      unfold ret in Hr. injection Hr as <- <-.
      exists w1. split; [exact Hsel |]. split; reflexivity.
    - exists w2. split; [exact Hsel |]. split; [reflexivity |].
      rewrite app_nil_r. reflexivity. }
  destruct Hsel' as (w1 & Hwa & Hg & Hc). clear Hsel.
  apply bind_Ok in H as (x & w3 & Hx & H).
  rewrite do_data_project_eq in Hx. injection Hx as <- <-.
  apply bind_Ok in H as (noise & w4 & Hn & H).
  rewrite do_np_random_normal_eq in Hn. simpl in Hn. injection Hn as Hn <-.
  apply bind_Ok in H as (y & w5 & Hy & H).
  unfold lift in Hy. injection Hy as Hy <-.
  apply bind_Ok in H as ([est' l] & w6 & He & H).
  rewrite do_engine_estimate_eq in He. simpl in He. injection He as He <-.
  unfold ret in H. injection H as <- <-.
  exists ax, w1, noise, y, l. simpl. rewrite Hg in *.
  repeat split.
  - exact Hwa.
  - rewrite <- Hn. apply surjective_pairing.
  - exact Hy.
  - rewrite <- He. apply surjective_pairing.
  - rewrite Hc. rewrite <- !app_assoc. reflexivity.
Qed.

(** An invariant of a loop, indexed by the items already processed. *)
Lemma for_each_invariant {A S : Type} (I : list A -> S -> world -> Prop)
    (body : A -> S -> M S) :
  (forall done x s w s' w',
     I done s w -> body x s w = (inr s', w') -> I (done ++ [x]) s' w') ->
  forall xs done s w s' w',
    I done s w -> for_each xs body s w = (inr s', w') -> I (done ++ xs) s' w'.
Proof.
  intros Hstep. induction xs as [| x xs IH]; intros done s w s' w' HI H; simpl in H.
  - unfold ret in H. injection H as <- <-. rewrite app_nil_r. exact HI.
  - apply bind_Ok in H as (s1 & w1 & H1 & H2).
    replace (done ++ x :: xs) with ((done ++ [x]) ++ xs)
      by (rewrite <- app_assoc; reflexivity).
    eapply IH; [| exact H2]. eapply Hstep; [exact HI | exact H1].
Qed.

Lemma appends_worst_approximated (P : call -> Prop) (self : MWEM)
    (workload_answers : gmap clique (list R)) (est : Model) (workload : list clique)
    (eps : R) (penalty : bool) :
  P (call_worst_approximated est workload eps penalty) ->
  (forall n p, P (call_np_random_choice n p)) ->
  appends P (worst_approximated self workload_answers est workload eps penalty).
Proof.
  intros Hwa Hch. unfold worst_approximated, worst_approximated_body.
  apply appends_bind; [| intros [ax fr]; apply appends_ret].
  apply appends_bind; [apply appends_record_call; exact Hwa | intros _].
  apply appends_bind.
  { apply appends_for_each. intros cl fr. apply appends_lift. }
  intros fr. apply appends_bind; [apply appends_lift | intros m].
  apply appends_bind; [apply appends_do_np_random_choice; apply Hch | intros key].
  apply appends_bind; [apply appends_lift | intros ax]. apply appends_ret.
Qed.

Lemma appends_round_body (self : MWEM) (data : Dataset) (workload : list clique)
    (engine : Engine) (domain : Domain) (total records : option Z)
    (workload_answers : gmap clique (list R)) (sigma exp_eps : R) (rounds i : Z)
    (st : loop_state) :
  appends (run_call self engine sigma exp_eps total records)
    (round_body self data workload engine domain total workload_answers sigma exp_eps
       rounds i st).
Proof.
  unfold round_body.
  apply appends_bind.
  { destruct (isinstance_FactoredInference engine) eqn:E.
    - apply appends_bind.
      + apply appends_worst_approximated; simpl; auto.
      + intros ax. apply appends_bind; [| intros _; apply appends_ret].
        apply appends_record_call. simpl. exact E.
    - apply appends_worst_approximated; simpl; auto. }
  intros ax.
  apply appends_bind; [apply appends_do_data_project; exact I | intros x].
  apply appends_bind; [apply appends_do_np_random_normal; simpl; auto | intros noise].
  apply appends_bind; [apply appends_lift | intros y].
  apply appends_bind; [| intros [est' l]; apply appends_ret].
  apply appends_do_engine_estimate. simpl. split; [reflexivity |].
  intros Hnil. destruct (measurements st); discriminate Hnil.
Qed.

Lemma appends_compute_workload_answers (P : call -> Prop) (data : Dataset)
    (workload : list clique) :
  (forall cl, P (call_data_project cl)) ->
  appends P (compute_workload_answers data workload).
Proof.
  intros H. unfold compute_workload_answers. apply appends_for_each.
  intros cl answers. apply appends_bind; [| intros v; apply appends_ret].
  apply appends_do_data_project. apply H.
Qed.

Lemma appends_initial_model (self : MWEM) (data : Dataset) (engine : Engine)
    (sigma exp_eps : R) (total records : option Z) :
  appends (run_call self engine sigma exp_eps total records)
    (initial_model self data engine total).
Proof.
  unfold initial_model. destruct (isinstance_FactoredInference engine) eqn:E.
  - apply appends_bind; [| intros [est l]; apply appends_ret].
    apply appends_do_engine_estimate. simpl. rewrite E. auto.
  - apply appends_do_ParticleModel. simpl. exact E.
Qed.

Lemma appends_bind_lift_Ok {A B : Type} (P : call -> Prop) (a : A) (k : A -> M B) :
  appends P (k a) -> appends P (bind (lift (inr a)) k).
Proof.
  intros H g. destruct (H g) as (r & g' & new & HP & E).
  exists r, g', new. split; [exact HP |]. intros cs. apply E.
Qed.

(** All the calls of [run], whatever its outcome. *)
Lemma appends_run_rounds (self : MWEM) (data : Dataset) (workload : list clique)
    (engine : Engine) (alpha : R) (records : option Z) :
  appends
    (fun c => forall n rho_per_round sigma exp_eps,
       run_budget self workload alpha = Ok (n, rho_per_round, sigma, exp_eps) ->
       run_call self engine sigma exp_eps
         (if bounded self then Some (data_records data) else None) records c)
    (run_rounds self data workload engine alpha).
Proof.
  unfold run_rounds.
  destruct (run_budget self workload alpha) as [e | [[[n rho_per_round] sigma] exp_eps]]
    eqn:Eb.
  - intros g. exists (inl e), g, []. split; [constructor |].
    intros cs. rewrite app_nil_r. reflexivity.
  - eapply appends_weaken with
      (P := run_call self engine sigma exp_eps
              (if bounded self then Some (data_records data) else None) records).
    { intros c Hc n' r' s' e' Heq. injection Heq as <- <- <- <-. exact Hc. }
    apply appends_bind_lift_Ok.
    apply appends_bind;
      [apply appends_compute_workload_answers; intros cl; exact I | intros answers].
    apply appends_bind; [apply appends_initial_model | intros est0].
    unfold run_loop. apply appends_for_each. intros i st.
    apply appends_round_body.
Qed.

Lemma appends_run (self : MWEM) (data : Dataset) (workload : list clique)
    (engine : Engine) (alpha : R) (records : option Z) :
  appends
    (fun c => forall n rho_per_round sigma exp_eps,
       run_budget self workload alpha = Ok (n, rho_per_round, sigma, exp_eps) ->
       run_call self engine sigma exp_eps
         (if bounded self then Some (data_records data) else None) records c)
    (run self data workload engine alpha records).
Proof.
  unfold run. apply appends_bind; [apply appends_run_rounds | intros st].
  unfold run_return.
  apply appends_bind; [apply appends_record_call; intros; exact I | intros _].
  apply appends_bind;
    [apply appends_do_synthetic_data; intros; reflexivity | intros d].
  destruct (loss st); [apply appends_ret | apply appends_lift].
Qed.

(** [range] *)

Lemma py_range_length (lo hi : Z) : length (py_range lo hi) = Z.to_nat (hi - lo).
Proof. unfold py_range. rewrite length_map, length_seq. reflexivity. Qed.

Lemma py_range_nth (lo hi : Z) (j : nat) (i : Z) :
  nth_error (py_range lo hi) j = Some i -> i = (lo + Z.of_nat j)%Z.
Proof.
  unfold py_range. intros H.
  rewrite nth_error_map in H.
  destruct (nth_error (seq 0 (Z.to_nat (hi - lo))) j) as [k |] eqn:E; [| discriminate H].
  simpl in H. injection H as <-.
  assert (Hj : (j < length (seq 0 (Z.to_nat (hi - lo))))%nat).
  { apply nth_error_Some. rewrite E. discriminate. }
  rewrite length_seq in Hj.
  apply (nth_error_nth _ _ O) in E. rewrite seq_nth in E by exact Hj. subst k.
  reflexivity.
Qed.

Lemma py_range_firstn (n : Z) (k : nat) :
  (k <= Z.to_nat n)%nat ->
  py_range 1 (Z.of_nat k + 1) = firstn k (py_range 1 (n + 1)).
Proof.
  intros Hk. unfold py_range.
  replace (Z.to_nat (Z.of_nat k + 1 - 1)) with k by lia.
  replace (Z.to_nat (n + 1 - 1)) with (k + (Z.to_nat n - k))%nat by lia.
  rewrite seq_app, map_app, firstn_app.
  rewrite length_map, length_seq, Nat.sub_diag. simpl firstn at 2.
  rewrite app_nil_r. rewrite firstn_all2; [reflexivity |].
  rewrite length_map, length_seq. lia.
Qed.

(** The dict comprehension records one projection per workload entry, in
    order, and the table it builds covers the workload. *)
Lemma workload_answers_loop (data : Dataset) (rest : list clique)
    (acc : gmap clique (list R)) (w : world) :
  exists answers : gmap clique (list R),
    for_each rest
      (fun cl answers => let* v := do_data_project data cl in ret (<[cl:=v]> answers))
      acc w
    = (inr answers,
       {| np_random := np_random w; calls := calls w ++ map call_data_project rest |}) /\
    (forall cl, In cl rest ->
       answers !! cl = Some (data_datavector (data_project data cl))) /\
    (forall cl, ~ In cl rest -> answers !! cl = acc !! cl).
Proof.
  revert acc w. induction rest as [| d rest IH]; intros acc w.
  - exists acc. simpl. unfold ret. rewrite app_nil_r. destruct w. repeat split.
    intros cl [].
  - destruct (IH (<[d := data_datavector (data_project data d)]> acc)
                {| np_random := np_random w; calls := calls w ++ [call_data_project d] |})
      as (answers & E & Hin & Hout).
    exists answers. split; [| split].
    + simpl for_each.
      rewrite (bind_step _ _ w
                 {| np_random := np_random w; calls := calls w ++ [call_data_project d] |}
                 (<[d := data_datavector (data_project data d)]> acc))
        by reflexivity.
      rewrite E. simpl. rewrite <- app_assoc. reflexivity.
    + intros cl [-> | Hcl].
      * destruct (in_dec (fun a b : clique => decide (a = b)) cl rest) as [Hi | Hn].
        -- apply Hin. exact Hi.
        -- rewrite (Hout cl Hn). apply lookup_insert_eq.
      * apply Hin. exact Hcl.
    + intros cl Hn. rewrite Hout by (intros Hi; apply Hn; right; exact Hi).
      apply lookup_insert_ne. intros ->. apply Hn. left. reflexivity.
Qed.

Lemma compute_workload_answers_eq (data : Dataset) (workload : list clique) (w : world) :
  exists answers : gmap clique (list R),
    compute_workload_answers data workload w
    = (inr answers,
       {| np_random := np_random w;
          calls := calls w ++ map call_data_project workload |}) /\
    forall cl, In cl workload ->
      answers !! cl = Some (data_datavector (data_project data cl)).
Proof.
  destruct (workload_answers_loop data workload ∅ w) as (answers & E & Hin & _).
  exists answers. split; [exact E | exact Hin].
Qed.

(** The parts of a run that reaches the end of the round loop. *)
Lemma run_rounds_Ok (self : MWEM) (data : Dataset) (workload : list clique)
    (engine : Engine) (alpha : R) (w w' : world) (st : loop_state) :
  run_rounds self data workload engine alpha w = (inr st, w') ->
  exists n rho_per_round sigma exp_eps answers est0 w1,
    let total := if bounded self then Some (data_records data) else None in
    run_budget self workload alpha = Ok (n, rho_per_round, sigma, exp_eps) /\
    (forall cl, In cl workload ->
       answers !! cl = Some (data_datavector (data_project data cl))) /\
    initial_model self data engine total
      {| np_random := np_random w; calls := calls w ++ map call_data_project workload |}
    = (inr est0, w1) /\
    run_loop self data workload engine total answers sigma exp_eps n
      (py_range 1 (n + 1))
      {| measurements := []; est := est0; loss := None; cliques := [] |} w1
    = (inr st, w').
Proof.
  unfold run_rounds. intros H.
  apply bind_Ok in H as ([[[n rho_per_round] sigma] exp_eps] & w0 & Hb & H).
  unfold lift in Hb. injection Hb as Hb <-.
  apply bind_Ok in H as (answers & w1 & Ha & H).
  destruct (compute_workload_answers_eq data workload w) as (answers' & Ea & Hcov).
  rewrite Ea in Ha. injection Ha as <- <-.
  apply bind_Ok in H as (est0 & w2 & Hi & H).
  exists n, rho_per_round, sigma, exp_eps, answers', est0, w2.
  simpl. repeat split; assumption.
Qed.

Lemma run_Ok (self : MWEM) (data : Dataset) (workload : list clique)
    (engine : Engine) (alpha : R) (records : option Z) (w w' : world)
    (out : Dataset * R) :
  run self data workload engine alpha records w = (inr out, w') ->
  exists st w1 l,
    run_rounds self data workload engine alpha w = (inr st, w1) /\
    loss st = Some l /\
    snd out = l /\
    est_synthetic_data (est st) records (np_random w1) = (inr (fst out), np_random w') /\
    calls w' = calls w1 ++ [call_print_generating; call_synthetic_data (est st) records].
Proof.
  unfold run. intros H.
  apply bind_Ok in H as (st & w1 & Hr & H).
  unfold run_return in H.
  apply bind_Ok in H as ([] & w2 & Hp & H).
  rewrite record_call_eq in Hp. injection Hp as <-.
  apply bind_Ok in H as (d & w3 & Hs & H).
  rewrite do_synthetic_data_eq in Hs. simpl in Hs. injection Hs as Hs <-.
  destruct (loss st) as [l |] eqn:El.
  - unfold ret in H. injection H as <- <-.
    exists st, w1, l. simpl. repeat split; try assumption.
    + rewrite <- Hs. apply surjective_pairing.
    + rewrite <- app_assoc. reflexivity.
  - unfold lift in H. discriminate H.
Qed.

End Rounds.

(** ** The budget *)

Section Budget.

Context {C : Collaborators}.

(** C3, as the code has it.  [run] raises [ZeroDivisionError] at its first
    lines, with no call made and no number drawn, when the number of rounds
    is zero, when [rho] is zero or when [alpha] is zero. *)
Theorem run_zero_division (self : MWEM) (data : Dataset) (workload : list clique)
    (engine : Engine) (alpha : R) (records : option Z) (w : world) :
  Z.min (Z.of_nat (length workload)) (rounds self) = 0%Z \/ rho self = 0 \/ alpha = 0 ->
  run self data workload engine alpha records w = (inl ZeroDivisionError, w).
Proof.
  intros H. unfold run, run_rounds.
  rewrite (run_budget_Raise self workload alpha H). reflexivity.
Qed.

End Budget.

(** ** The measurement log *)

Section Log.

Context {C : Collaborators}.

Variables (self : MWEM) (data : Dataset) (workload : list clique) (engine : Engine)
  (total : option Z) (workload_answers : gmap clique (list R)) (sigma exp_eps : R)
  (n_rounds : Z).

Let loop := run_loop self data workload engine total workload_answers sigma exp_eps n_rounds.

(** A round appends one measurement and one clique, and binds [loss]. *)
Lemma round_body_appends_one (i : Z) (st st' : loop_state) (w w' : world) :
  round_body self data workload engine (data_domain data) total workload_answers
    sigma exp_eps n_rounds i st w = (inr st', w') ->
  exists m ax l,
    measurements st' = measurements st ++ [m] /\
    cliques st' = cliques st ++ [ax] /\
    loss st' = Some l.
Proof.
  intros H. apply round_body_Ok in H as (ax & w1 & noise & y & l & H).
  cbv zeta in H. destruct H as (_ & _ & _ & _ & Hm & Hl & Hc & _).
  eexists _, ax, l. repeat split; eassumption.
Qed.

(** The log and the list of selected cliques grow by one entry per round. *)
Lemma run_loop_grows (indices : list Z) (st st' : loop_state) (w w' : world) :
  loop indices st w = (inr st', w') ->
  exists new selected,
    measurements st' = measurements st ++ new /\
    length new = length indices /\
    cliques st' = cliques st ++ selected /\
    length selected = length indices /\
    (indices <> [] -> exists l, loss st' = Some l).
Proof.
  intros H.
  pose (I := fun (done : list Z) (s : loop_state) (_ : world) =>
    exists new selected,
      measurements s = measurements st ++ new /\
      length new = length done /\
      cliques s = cliques st ++ selected /\
      length selected = length done /\
      (done <> [] -> exists l, loss s = Some l)).
  change (I ([] ++ indices) st' w').
  unfold loop, run_loop in H.
  eapply for_each_invariant; [| | exact H].
  - intros done i s w0 s' w0' (new & sel & Hm & Hlm & Hc & Hlc & _) Hround.
    apply round_body_appends_one in Hround as (m & ax & l & Hm' & Hc' & Hl').
    exists (new ++ [m]), (sel ++ [ax]).
    rewrite Hm', Hc', Hm, Hc, <- !app_assoc, !length_app. simpl.
    repeat split; try lia. intros _. exists l. exact Hl'.
  - exists [], []. rewrite !app_nil_r. repeat split. intros Hne. congruence.
Qed.

End Log.

Section LogProperties.

Context {C : Collaborators}.

(** C5.  When [run] completes, the number of rounds
    [R = min(len(workload), rounds)] is at least one, the log at the end
    of the loop has exactly [R] entries, every round appends exactly one
    entry, and for every [k <= R] the loop has, after [k] rounds, a log of
    [k] entries that is the first [k] entries of the final log. *)
Theorem run_measurement_log (self : MWEM) (data : Dataset) (workload : list clique)
    (engine : Engine) (alpha : R) (records : option Z) (w w' : world)
    (out : Dataset * R) :
  run self data workload engine alpha records w = (inr out, w') ->
  let n := Z.min (Z.of_nat (length workload)) (rounds self) in
  let total := if bounded self then Some (data_records data) else None in
  (1 <= n)%Z /\
  exists st w_end rho_r sigma exp_eps answers est0 w1,
    let loop := run_loop self data workload engine total answers sigma exp_eps n in
    let st0 := {| measurements := []; est := est0; loss := None; cliques := [] |} in
    run_rounds self data workload engine alpha w = (inr st, w_end) /\
    run_budget self workload alpha = Ok (n, rho_r, sigma, exp_eps) /\
    loop (py_range 1 (n + 1)) st0 w1 = (inr st, w_end) /\
    length (measurements st) = Z.to_nat n /\
    (forall i s s' v v',
       round_body self data workload engine (data_domain data) total answers sigma
         exp_eps n i s v = (inr s', v') ->
       exists m, measurements s' = measurements s ++ [m]) /\
    forall k, (k <= Z.to_nat n)%nat ->
      exists st_k w_k,
        loop (py_range 1 (Z.of_nat k + 1)) st0 w1 = (inr st_k, w_k) /\
        length (measurements st_k) = k /\
        measurements st_k = firstn k (measurements st).
Proof.
  intros Hrun n total.
  apply run_Ok in Hrun as (st & w_end & l & Hrounds & Hloss & _).
  pose proof Hrounds as Hparts.
  apply run_rounds_Ok in Hparts
    as (n' & rho_r & sigma & exp_eps & answers & est0 & w1 & Hb & Hcov & Hinit & Hloop).
  assert (Hn' : n' = n).
  { unfold run_budget, result_bind in Hb.
    destruct (py_truediv _ _); [discriminate Hb |].
    destruct (py_truediv _ _); [discriminate Hb |].
    injection Hb as <- _ _ _. reflexivity. }
  subst n'. fold total in Hloop, Hinit.
  pose proof (run_loop_grows _ _ _ _ _ _ _ _ _ _ _ _ _ _ Hloop)
    as (new & sel & Hm & Hlen & _ & _ & Hl).
  simpl in Hm. rewrite py_range_length in Hlen.
  replace (n + 1 - 1)%Z with n in Hlen by lia.
  assert (Hn : (1 <= n)%Z).
  { destruct (Z_lt_le_dec n 1) as [Hlt | Hle]; [| exact Hle].
    exfalso. destruct new as [| m new]; [| simpl in Hlen; lia].
    unfold py_range in Hloop. replace (Z.to_nat (n + 1 - 1)) with O in Hloop by lia.
    simpl in Hloop. unfold run_loop in Hloop. simpl in Hloop.
    unfold ret in Hloop. injection Hloop as <- _. simpl in Hloss. discriminate Hloss. }
  split; [exact Hn |].
  exists st, w_end, rho_r, sigma, exp_eps, answers, est0, w1. simpl.
  split; [exact Hrounds |]. split; [exact Hb |]. split; [exact Hloop |].
  split; [rewrite Hm; exact Hlen |]. split.
  - intros i s s' v v' Hround.
    apply round_body_appends_one in Hround as (m & ax & l' & Hm' & _).
    exists m. exact Hm'.
  - intros k Hk.
    rewrite (py_range_firstn n k Hk).
    rewrite <- (firstn_skipn k (py_range 1 (n + 1))) in Hloop.
    unfold run_loop in Hloop. rewrite for_each_app in Hloop.
    apply bind_Ok in Hloop as (st_k & w_k & Hk1 & Hk2).
    exists st_k, w_k. split; [exact Hk1 |].
    pose proof (run_loop_grows _ _ _ _ _ _ _ _ _ _ _ _ _ _ Hk1)
      as (new1 & _ & Hm1 & Hlen1 & _).
    pose proof (run_loop_grows _ _ _ _ _ _ _ _ _ _ _ _ _ _ Hk2)
      as (new2 & _ & Hm2 & _).
    simpl in Hm1. rewrite length_firstn, py_range_length in Hlen1.
    assert (Hk' : length new1 = k) by lia.
    split; [rewrite Hm1; exact Hk' |].
    rewrite Hm2, Hm1. rewrite firstn_app, Hk', Nat.sub_diag. simpl.
    rewrite app_nil_r. rewrite firstn_all2 by lia. reflexivity.
Qed.

End LogProperties.

(** ** The model-size schedule and the recorded measurements *)

Section Schedule.

Context {C : Collaborators}.

Lemma firstn_snoc {A : Type} (l : list A) (j : nat) (x : A) :
  nth_error l j = Some x -> firstn (S j) l = firstn j l ++ [x].
Proof.
  revert j. induction l as [| a l IH]; intros [| j] H; simpl in *; try discriminate H.
  - injection H as ->. reflexivity.
  - f_equal. apply IH. exact H.
Qed.

Variables (self : MWEM) (data : Dataset) (workload : list clique) (engine : Engine)
  (total : option Z) (workload_answers : gmap clique (list R)) (sigma exp_eps : R)
  (n_rounds : Z).

Let loop := run_loop self data workload engine total workload_answers sigma exp_eps n_rounds.

(** With a size-aware engine, the cliques selected up to and including
    the round of index [i] fit under the cap of that round. *)
Lemma run_loop_cap (indices : list Z) (est0 : Model) (st : loop_state) (w w' : world) :
  isinstance_FactoredInference engine = true ->
  loop indices {| measurements := []; est := est0; loss := None; cliques := [] |} w
  = (inr st, w') ->
  length (cliques st) = length indices /\
  forall j i, nth_error indices j = Some i ->
    size (data_domain data) (firstn (S j) (cliques st))
    <= max_model_size self * IZR i / IZR n_rounds.
Proof.
  intros Hf H.
  pose (I := fun (done : list Z) (s : loop_state) (_ : world) =>
    length (cliques s) = length done /\
    forall j i, nth_error done j = Some i ->
      size (data_domain data) (firstn (S j) (cliques s))
      <= max_model_size self * IZR i / IZR n_rounds).
  change (I ([] ++ indices) st w').
  unfold loop, run_loop in H.
  eapply for_each_invariant; [| | exact H].
  - intros done i s w0 s' w0' (Hlen & Hcap) Hround.
    apply round_body_Ok in Hround as (ax & w1 & noise & y & l & Hround).
    cbv zeta in Hround. destruct Hround as (Hsel & _ & _ & _ & _ & _ & Hc & _).
    rewrite Hf in Hsel. apply worst_approximated_In in Hsel.
    unfold candidates in Hsel. apply filter_In in Hsel as (_ & Hle).
    apply py_le_true in Hle.
    split.
    + rewrite Hc, !length_app. simpl. lia.
    + intros j i' Hj. rewrite Hc.
      destruct (Nat.lt_ge_cases j (length done)) as [Hlt | Hge].
      * rewrite nth_error_app1 in Hj by exact Hlt.
        rewrite firstn_app. replace (S j - length (cliques s))%nat with O by lia.
        simpl. rewrite app_nil_r. apply Hcap. exact Hj.
      * assert (Hj' : j = length done).
        { assert (Hlt : (j < length (done ++ [i]))%nat)
            by (apply nth_error_Some; rewrite Hj; discriminate).
          rewrite length_app in Hlt. simpl in Hlt. lia. }
        subst j. rewrite nth_error_app2, Nat.sub_diag in Hj by lia.
        simpl in Hj. injection Hj as <-.
        rewrite firstn_all2 by (rewrite length_app; simpl; lia).
        exact Hle.
  - split; [reflexivity |]. intros j i Hj. destruct j; discriminate Hj.
Qed.

Hypothesis Hdata : forall cl, length (data_datavector (data_project data cl))
                              = Z.to_nat (domain_size (data_domain data) cl).

Hypothesis Hnormal : forall loc scale n g noise,
  fst (np_random_normal loc scale n g) = inr noise -> length noise = Z.to_nat n.

(** The measurement of a round is taken on the clique that the selection
    of the round returned, with noise drawn right after the selection. *)
Lemma round_body_recorded (i : Z) (s s' : loop_state) (v v' : world) :
  round_body self data workload engine (data_domain data) total workload_answers
    sigma exp_eps n_rounds i s v = (inr s', v') ->
  exists (ax : clique) (w1 : world) (m : measurement),
    worst_approximated self workload_answers (est s)
      (if isinstance_FactoredInference engine
       then candidates self (data_domain data) workload (cliques s) i n_rounds
       else workload) exp_eps true v = (inr ax, w1) /\
    cliques s' = cliques s ++ [ax] /\
    measurements s' = measurements s ++ [m] /\
    recorded self data sigma ax (np_random w1) m.
Proof.
  intros Hround.
  apply round_body_Ok in Hround as (ax & w1 & noise & y & l & Hround).
  cbv zeta in Hround. destruct Hround as (Hsel & Hn & Hy & _ & Hm & _ & Hc & _).
  assert (Hnoise : length noise = Z.to_nat (domain_size (data_domain data) ax)).
  { eapply Hnormal. rewrite Hn. reflexivity. }
  rewrite np_add_same_length in Hy by (rewrite Hdata, Hnoise; reflexivity).
  injection Hy as <-.
  eexists ax, w1, _. split; [exact Hsel |]. split; [exact Hc |]. split; [exact Hm |].
  exists noise. cbv zeta. split; [reflexivity |]. split; [rewrite Hn; reflexivity |].
  split; [exact Hnoise |].
  rewrite length_map, length_combine, Hdata, Hnoise. lia.
Qed.

(** Entry by entry, the log holds the measurements of the selected
    cliques. *)
Lemma run_loop_recorded (indices : list Z) (st0 st : loop_state) (w w' : world) :
  Forall2 (fun c m => exists g, recorded self data sigma c g m)
    (cliques st0) (measurements st0) ->
  loop indices st0 w = (inr st, w') ->
  Forall2 (fun c m => exists g, recorded self data sigma c g m)
    (cliques st) (measurements st).
Proof.
  intros H0 H.
  pose (I := fun (done : list Z) (s : loop_state) (_ : world) =>
    Forall2 (fun c m => exists g, recorded self data sigma c g m)
      (cliques s) (measurements s)).
  change (I ([] ++ indices) st w').
  unfold loop, run_loop in H.
  eapply for_each_invariant; [| | exact H].
  - intros done i s w0 s' w0' Hs Hround.
    apply round_body_recorded in Hround as (ax & w1 & m & _ & Hc & Hm & Hrec).
    unfold I. rewrite Hc, Hm. apply List.Forall2_app; [exact Hs |].
    constructor; [| constructor]. exists (np_random w1). exact Hrec.
  - exact H0.
Qed.

End Schedule.

Section ScheduleProperties.

Context {C : Collaborators}.

Lemma run_budget_rounds (self : MWEM) (workload : list clique) (alpha : R)
    (n : Z) (rho_r sigma exp_eps : R) :
  run_budget self workload alpha = Ok (n, rho_r, sigma, exp_eps) ->
  n = Z.min (Z.of_nat (length workload)) (rounds self).
Proof.
  unfold run_budget, result_bind. intros Hb.
  destruct (py_truediv _ _); [discriminate Hb |].
  destruct (py_truediv _ _); [discriminate Hb |].
  injection Hb as <- _ _ _. reflexivity.
Qed.

(** C7.  With a size-aware engine, when the rounds complete, the clique
    selected in round [i] together with those selected before it has a
    model size of at most [max_model_size * i / R], for every
    [i = 1..R]; hence the cliques selected by the end of the last round
    have a model size of at most [max_model_size]. *)
Theorem model_size_cap (self : MWEM) (data : Dataset) (workload : list clique)
    (engine : Engine) (alpha : R) (w w' : world) (st : loop_state) :
  isinstance_FactoredInference engine = true ->
  run_rounds self data workload engine alpha w = (inr st, w') ->
  let n := Z.min (Z.of_nat (length workload)) (rounds self) in
  length (cliques st) = Z.to_nat n /\
  (forall i, (1 <= i <= n)%Z ->
     exists selected,
       let already_selected := firstn (Z.to_nat i - 1) (cliques st) in
       nth_error (cliques st) (Z.to_nat i - 1) = Some selected /\
       size (data_domain data) (already_selected ++ [selected])
       <= max_model_size self * IZR i / IZR n) /\
  ((1 <= n)%Z -> size (data_domain data) (cliques st) <= max_model_size self).
Proof.
  intros Hf Hrounds n.
  apply run_rounds_Ok in Hrounds
    as (n' & rho_r & sigma & exp_eps & answers & est0 & w1 & Hb & _ & _ & Hloop).
  apply run_budget_rounds in Hb. fold n in Hb. subst n'.
  apply run_loop_cap in Hloop as (Hlen & Hcap); [| exact Hf].
  rewrite py_range_length in Hlen. replace (n + 1 - 1)%Z with n in Hlen by lia.
  assert (Hith : forall i, (1 <= i <= n)%Z ->
            nth_error (py_range 1 (n + 1)) (Z.to_nat i - 1) = Some i).
  { intros i Hi.
    destruct (nth_error (py_range 1 (n + 1)) (Z.to_nat i - 1)) as [i' |] eqn:E.
    - apply py_range_nth in E. f_equal. lia.
    - apply nth_error_None in E. rewrite py_range_length in E. lia. }
  split; [exact Hlen |]. split.
  - intros i Hi.
    destruct (nth_error (cliques st) (Z.to_nat i - 1)) as [selected |] eqn:E.
    + exists selected. simpl. split; [reflexivity |].
      rewrite <- (firstn_snoc _ _ _ E). apply Hcap. apply Hith. exact Hi.
    + apply nth_error_None in E. lia.
  - intros Hn.
    specialize (Hcap (Z.to_nat n - 1)%nat n (Hith n ltac:(lia))).
    rewrite firstn_all2 in Hcap by lia.
    replace (max_model_size self * IZR n / IZR n) with (max_model_size self) in Hcap.
    + exact Hcap.
    + field. apply not_0_IZR. lia.
Qed.

Lemma Forall2_In_r {A B : Type} (P : A -> B -> Prop) (l1 : list A) (l2 : list B)
    (b : B) :
  Forall2 P l1 l2 -> In b l2 -> exists a, In a l1 /\ P a b.
Proof.
  induction 1 as [| a0 b0 l1 l2 Hab _ IH]; intros Hin.
  - destruct Hin.
  - destruct Hin as [<- | Hin].
    + exists a0. split; [left; reflexivity | exact Hab].
    + destruct (IH Hin) as (a & Ha & HP). exists a. split; [right; exact Ha | exact HP].
Qed.

(** C8.  Given that the marginal of the dataset on a clique has as many
    entries as the domain size of the clique, and that [np.random.normal]
    returns as many numbers as it is asked for.  In every round, the
    entry appended to the log is the tuple [(eye(n), y, 1.0, c)] for the
    clique [c] that the selection of that round returned, [n] being the
    domain size of [c], and [y] is, entry by entry, the exact marginal of
    the private dataset on [c] plus the noise drawn, right after the
    selection, with mean [0] and scale [marginal_sensitivity * sigma].
    When the rounds complete, the log holds, in order, one such entry for
    each of the [R] selected cliques, and the [y] of an entry has as many
    entries as the product of the cardinalities of the attributes of its
    clique. *)
Theorem recorded_measurements (self : MWEM) (data : Dataset) (workload : list clique)
    (engine : Engine) (alpha : R) (w w' : world) (st : loop_state) :
  (forall cl, length (data_datavector (data_project data cl))
              = Z.to_nat (domain_size (data_domain data) cl)) ->
  (forall loc scale n g noise,
     fst (np_random_normal loc scale n g) = inr noise -> length noise = Z.to_nat n) ->
  run_rounds self data workload engine alpha w = (inr st, w') ->
  let total := if bounded self then Some (data_records data) else None in
  exists n rho_r sigma exp_eps answers est0 w1,
    run_budget self workload alpha = Ok (n, rho_r, sigma, exp_eps) /\
    run_loop self data workload engine total answers sigma exp_eps n
      (py_range 1 (n + 1))
      {| measurements := []; est := est0; loss := None; cliques := [] |} w1
    = (inr st, w') /\
    (forall i s s' v v',
       round_body self data workload engine (data_domain data) total answers sigma
         exp_eps n i s v = (inr s', v') ->
       exists (c : clique) (v1 : world) (m : measurement),
         worst_approximated self answers (est s)
           (if isinstance_FactoredInference engine
            then candidates self (data_domain data) workload (cliques s) i n
            else workload) exp_eps true v = (inr c, v1) /\
         cliques s' = cliques s ++ [c] /\
         measurements s' = measurements s ++ [m] /\
         recorded self data sigma c (np_random v1) m) /\
    Forall2 (fun c m => exists g, recorded self data sigma c g m)
      (cliques st) (measurements st) /\
    length (measurements st) = Z.to_nat n /\
    forall Q y weight c, In (Q, y, weight, c) (measurements st) ->
      In c (cliques st) /\
      Q = sparse_eye (domain_size (data_domain data) c) /\
      weight = 1 /\
      length y = Z.to_nat (fold_right Z.mul 1%Z (map (data_domain data) c)).
Proof.
  intros Hdata Hnormal Hrounds total.
  apply run_rounds_Ok in Hrounds
    as (n & rho_r & sigma & exp_eps & answers & est0 & w1 & Hb & _ & _ & Hloop).
  fold total in Hloop.
  exists n, rho_r, sigma, exp_eps, answers, est0, w1.
  split; [exact Hb |]. split; [exact Hloop |]. split.
  { intros i s s' v v' Hround.
    eapply round_body_recorded; [exact Hdata | exact Hnormal | exact Hround]. }
  assert (Hrec : Forall2 (fun c m => exists g, recorded self data sigma c g m)
                   (cliques st) (measurements st)).
  { eapply run_loop_recorded; [exact Hdata | exact Hnormal | | exact Hloop].
    cbn [cliques measurements]. constructor. }
  split; [exact Hrec |]. split.
  { pose proof (run_loop_grows _ _ _ _ _ _ _ _ _ _ _ _ _ _ Hloop)
      as (new & _ & Hm & Hlen & _).
    cbn [measurements app] in Hm. rewrite Hm, Hlen, py_range_length. f_equal. lia. }
  intros Q y weight c Hin.
  destruct (Forall2_In_r _ _ _ _ Hrec Hin) as (c' & Hc' & g & noise & Hm & _ & _ & Hy).
  cbv zeta in Hm, Hy. injection Hm as -> -> -> ->.
  split; [exact Hc' |]. repeat split. exact Hy.
Qed.

End ScheduleProperties.

(** ** The model across the rounds, failures and determinism *)

Section ModelProperties.

Context {C : Collaborators}.

Lemma initial_model_Ok (self : MWEM) (data : Dataset) (engine : Engine)
    (total : option Z) (w w1 : world) (est0 : Model) :
  initial_model self data engine total w = (inr est0, w1) ->
  if isinstance_FactoredInference engine
  then (exists l0,
          engine_estimate engine [] total (np_random w) = (inr (est0, l0), np_random w1)) /\
       calls w1 = calls w ++ [call_engine_estimate [] total]
  else ParticleModel (data_domain data) (engine_embedding engine)
         (engine_n_particles engine) (data_init self) (np_random w)
       = (inr est0, np_random w1) /\
       calls w1 = calls w ++ [call_ParticleModel (data_domain data)
                                (engine_embedding engine) (engine_n_particles engine)
                                (data_init self)].
Proof.
  unfold initial_model. destruct (isinstance_FactoredInference engine); intros H.
  - apply bind_Ok in H as ([est l0] & w2 & He & H).
    rewrite do_engine_estimate_eq in He. injection He as He <-.
    unfold ret in H. injection H as <- <-. simpl. split; [| reflexivity].
    exists l0. rewrite <- He. apply surjective_pairing.
  - rewrite do_ParticleModel_eq in H. injection H as H <-. simpl.
    split; [| reflexivity]. rewrite <- H. apply surjective_pairing.
Qed.

(** C9, as the code has it.  With a [FactoredInference] engine the model
    before the first round is what [engine.estimate] returns for the empty
    list of measurements; with any other engine it is a new
    [ParticleModel] built from the domain of the data, the embedding and
    the number of particles of the engine and [data_init], and
    [engine.estimate] is not called for it.  Every round selects with the
    current model and then calls [engine.estimate] with the whole log,
    the new measurement last, and the model it returns becomes the
    current one. *)
Theorem initial_model_and_refit (self : MWEM) (data : Dataset) (workload : list clique)
    (engine : Engine) (alpha : R) (w w' : world) (st : loop_state) :
  run_rounds self data workload engine alpha w = (inr st, w') ->
  let total := if bounded self then Some (data_records data) else None in
  let w0 := {| np_random := np_random w;
               calls := calls w ++ map call_data_project workload |} in
  exists n rho_r sigma exp_eps answers est0 w1,
    run_budget self workload alpha = Ok (n, rho_r, sigma, exp_eps) /\
    (if isinstance_FactoredInference engine
     then (exists l0,
             engine_estimate engine [] total (np_random w)
             = (inr (est0, l0), np_random w1)) /\
          calls w1 = calls w0 ++ [call_engine_estimate [] total]
     else ParticleModel (data_domain data) (engine_embedding engine)
            (engine_n_particles engine) (data_init self) (np_random w)
          = (inr est0, np_random w1) /\
          calls w1 = calls w0 ++ [call_ParticleModel (data_domain data)
                                    (engine_embedding engine)
                                    (engine_n_particles engine) (data_init self)]) /\
    run_loop self data workload engine total answers sigma exp_eps n
      (py_range 1 (n + 1))
      {| measurements := []; est := est0; loss := None; cliques := [] |} w1
    = (inr st, w') /\
    forall i s s' v v',
      round_body self data workload engine (data_domain data) total answers sigma
        exp_eps n i s v = (inr s', v') ->
      exists (offered : list clique) (m : measurement) (l : R) (g : Rng)
             (between : list call),
        calls v' = calls v
                   ++ call_worst_approximated (est s) offered exp_eps true
                      :: between ++ [call_engine_estimate (measurements s ++ [m]) total] /\
        measurements s' = measurements s ++ [m] /\
        engine_estimate engine (measurements s ++ [m]) total g
        = (inr (est s', l), np_random v') /\
        loss s' = Some l.
Proof.
  intros Hrounds total w0.
  apply run_rounds_Ok in Hrounds
    as (n & rho_r & sigma & exp_eps & answers & est0 & w1 & Hb & _ & Hinit & Hloop).
  exists n, rho_r, sigma, exp_eps, answers, est0, w1.
  split; [exact Hb |]. split; [| split; [exact Hloop |]].
  - apply initial_model_Ok in Hinit. exact Hinit.
  - intros i s s' v v' Hround.
    apply round_body_Ok in Hround as (ax & v1 & noise & y & l & Hround).
    cbv zeta in Hround.
    destruct Hround as (Hsel & _ & _ & He & Hm & Hl & _ & Hc).
    apply worst_approximated_Ok in Hsel as (fr & Hsel).
    apply worst_approximated_body_Ok in Hsel
      as (_ & _ & _ & _ & m & key & _ & _ & _ & Hv1).
    assert (Hcalls : exists between,
              calls v' = calls v
                         ++ call_worst_approximated (est s)
                              (if isinstance_FactoredInference engine
                               then candidates self (data_domain data) workload
                                      (cliques s) i n
                               else workload) exp_eps true
                            :: between
                               ++ [call_engine_estimate
                                     (measurements s
                                      ++ [(sparse_eye (domain_size (data_domain data) ax),
                                           y, 1, ax)]) total]).
    { rewrite Hc, Hv1. cbn [calls].
      match goal with
      | |- context [(_ ++ [_; ?b]) ++ ?p ++ [?d; ?e; _]] => exists (b :: p ++ [d; e])
      end.
      rewrite <- !app_assoc. cbn [app]. rewrite <- !app_assoc. reflexivity. }
    destruct Hcalls as (between & Hcalls).
    eexists _, _, l, _, between.
    split; [exact Hcalls | split; [exact Hm | split; [exact He | exact Hl]]].
Qed.

(** C4, as the code has it.  With a size-aware engine, when the run
    reaches a round in which no workload clique fits under the cap, it
    hands the empty candidate list to [worst_approximated] and ends there
    with the [ValueError] of numpy's maximum of an empty array, which
    carries neither the round nor the cap; [worst_approximated] raises
    that error for every empty candidate list, after the call is recorded
    and before any number is drawn. *)
Theorem empty_candidates_raise (self : MWEM) (data : Dataset) (workload : list clique)
    (engine : Engine) (alpha : R) (records : option Z)
    (answers : gmap clique (list R)) (est0 : Model)
    (n i : Z) (rho_r sigma exp_eps : R) (before after : list Z) (st : loop_state)
    (w w0 w1 v : world) :
  let total := if bounded self then Some (data_records data) else None in
  isinstance_FactoredInference engine = true ->
  run_budget self workload alpha = Ok (n, rho_r, sigma, exp_eps) ->
  compute_workload_answers data workload w = (inr answers, w0) ->
  initial_model self data engine total w0 = (inr est0, w1) ->
  py_range 1 (n + 1) = before ++ i :: after ->
  run_loop self data workload engine total answers sigma exp_eps n before
    {| measurements := []; est := est0; loss := None; cliques := [] |} w1
  = (inr st, v) ->
  candidates self (data_domain data) workload (cliques st) i n = [] ->
  run self data workload engine alpha records w
  = (inl (ValueError zero_size_reduction),
     {| np_random := np_random v;
        calls := calls v ++ [call_worst_approximated (est st) [] exp_eps true] |}) /\
  forall answers' est' eps' penalty v',
    worst_approximated self answers' est' [] eps' penalty v'
    = (inl (ValueError zero_size_reduction),
       {| np_random := np_random v';
          calls := calls v' ++ [call_worst_approximated est' [] eps' penalty] |}).
Proof.
  intros total Hf Hb Ha Hinit Hrange Hbefore Hempty. split.
  - unfold run. apply bind_Raise. unfold run_rounds. rewrite Hb.
    unfold bind at 1. unfold lift at 1. unfold Ok at 1. cbv beta iota.
    rewrite (bind_step _ _ _ _ _ Ha). fold total.
    rewrite (bind_step _ _ _ _ _ Hinit). rewrite Hrange.
    unfold run_loop in *. rewrite for_each_app.
    rewrite (bind_step _ _ _ _ _ Hbefore).
    simpl for_each. apply bind_Raise.
    unfold round_body. rewrite Hf, Hempty.
    apply bind_Raise. apply bind_Raise. apply worst_approximated_empty.
  - intros. apply worst_approximated_empty.
Qed.

End ModelProperties.

(** ** Reproducibility *)

Section Reproducibility.

Context {C : Collaborators}.

Variable E : Rng -> Rng -> Prop.

Lemma reproducible_ret {A : Type} (a : A) : reproducible E (ret a).
Proof.
  intros w1 w2 HE. split; [reflexivity |]. split; [exact HE |].
  exists []. cbn [ret snd]. rewrite !app_nil_r. split; reflexivity.
Qed.

Lemma reproducible_lift {A : Type} (r : result A) : reproducible E (lift r).
Proof.
  intros w1 w2 HE. split; [reflexivity |]. split; [exact HE |].
  exists []. cbn [lift snd]. rewrite !app_nil_r. split; reflexivity.
Qed.

Lemma reproducible_record_call (c : call) : reproducible E (record_call c).
Proof.
  intros w1 w2 HE. split; [reflexivity |]. split; [exact HE |].
  exists [c]. split; reflexivity.
Qed.

Lemma reproducible_ambient {A : Type} (f : Rng -> result A * Rng) :
  respects E f -> reproducible E (ambient f).
Proof.
  intros Hf w1 w2 HE. destruct (Hf _ _ HE) as (Hr & Hg). unfold ambient.
  destruct (f (np_random w1)) as [r1 g1]. destruct (f (np_random w2)) as [r2 g2].
  cbn [fst snd np_random calls] in *.
  split; [exact Hr |]. split; [exact Hg |].
  exists []. rewrite !app_nil_r. split; reflexivity.
Qed.

Lemma reproducible_bind {A B : Type} (m : M A) (k : A -> M B) :
  reproducible E m -> (forall a, reproducible E (k a)) -> reproducible E (bind m k).
Proof.
  intros Hm Hk w1 w2 HE.
  destruct (Hm w1 w2 HE) as (Hr & Hg & new & H1 & H2). unfold bind.
  destruct (m w1) as [[e1 | a1] v1]; destruct (m w2) as [[e2 | a2] v2];
    cbn [fst snd] in *; try discriminate Hr.
  - injection Hr as <-. split; [reflexivity |]. split; [exact Hg |].
    exists new. split; assumption.
  - injection Hr as <-.
    destruct (Hk a1 v1 v2 Hg) as (Hr' & Hg' & new' & H1' & H2').
    split; [exact Hr' |]. split; [exact Hg' |].
    exists (new ++ new'). rewrite H1', H2', H1, H2, !app_assoc. split; reflexivity.
Qed.

Lemma reproducible_for_each {A S : Type} (xs : list A) (body : A -> S -> M S) (s : S) :
  (forall x s', reproducible E (body x s')) -> reproducible E (for_each xs body s).
Proof.
  intros Hbody. revert s. induction xs as [| x xs IH]; intros s; cbn [for_each].
  - apply reproducible_ret.
  - apply reproducible_bind; [apply Hbody | exact IH].
Qed.

Variables (self : MWEM) (data : Dataset) (workload : list clique) (engine : Engine).

Hypothesis Hseeded : seeded E engine.

Lemma reproducible_worst_approximated (workload_answers : gmap clique (list R))
    (est : Model) (offered : list clique) (eps : R) (penalty : bool) :
  reproducible E (worst_approximated self workload_answers est offered eps penalty).
Proof.
  destruct Hseeded as (Hchoice & _).
  unfold worst_approximated, worst_approximated_body.
  apply reproducible_bind; [| intros [ax fr]; apply reproducible_ret].
  apply reproducible_bind; [apply reproducible_record_call | intros _].
  apply reproducible_bind.
  { apply reproducible_for_each. intros cl fr. apply reproducible_lift. }
  intros fr. apply reproducible_bind; [apply reproducible_lift | intros logits].
  apply reproducible_bind.
  { unfold do_np_random_choice.
    apply reproducible_bind; [apply reproducible_record_call | intros _].
    apply reproducible_ambient. apply Hchoice. }
  intros key. apply reproducible_bind; [apply reproducible_lift | intros ax].
  apply reproducible_ret.
Qed.

Lemma reproducible_do_engine_estimate (ms : list measurement) (total : option Z) :
  reproducible E (do_engine_estimate engine ms total).
Proof.
  destruct Hseeded as (_ & _ & Hest & _). unfold do_engine_estimate.
  apply reproducible_bind; [apply reproducible_record_call | intros _].
  apply reproducible_ambient. apply Hest.
Qed.

Lemma reproducible_round_body (domain : Domain) (total : option Z)
    (workload_answers : gmap clique (list R)) (sigma exp_eps : R) (n i : Z)
    (st : loop_state) :
  reproducible E
    (round_body self data workload engine domain total workload_answers sigma exp_eps
       n i st).
Proof.
  destruct Hseeded as (_ & Hnormal & _).
  unfold round_body.
  apply reproducible_bind.
  { destruct (isinstance_FactoredInference engine).
    - apply reproducible_bind; [apply reproducible_worst_approximated | intros ax].
      apply reproducible_bind; [apply reproducible_record_call | intros _].
      apply reproducible_ret.
    - apply reproducible_worst_approximated. }
  intros ax.
  apply reproducible_bind.
  { unfold do_data_project.
    apply reproducible_bind; [apply reproducible_record_call | intros _].
    apply reproducible_ret. }
  intros x. apply reproducible_bind.
  { unfold do_np_random_normal.
    apply reproducible_bind; [apply reproducible_record_call | intros _].
    apply reproducible_ambient. apply Hnormal. }
  intros noise. apply reproducible_bind; [apply reproducible_lift | intros y].
  apply reproducible_bind; [apply reproducible_do_engine_estimate | intros [est' l]].
  apply reproducible_ret.
Qed.

Lemma reproducible_run_rounds (alpha : R) :
  reproducible E (run_rounds self data workload engine alpha).
Proof.
  unfold run_rounds.
  apply reproducible_bind;
    [apply reproducible_lift | intros [[[n rho_r] sigma] exp_eps]].
  apply reproducible_bind.
  { unfold compute_workload_answers. apply reproducible_for_each. intros cl answers.
    apply reproducible_bind; [| intros v; apply reproducible_ret].
    unfold do_data_project.
    apply reproducible_bind; [apply reproducible_record_call | intros _].
    apply reproducible_ret. }
  intros answers. apply reproducible_bind.
  { unfold initial_model. destruct (isinstance_FactoredInference engine).
    - apply reproducible_bind; [apply reproducible_do_engine_estimate | intros [est l]].
      apply reproducible_ret.
    - destruct Hseeded as (_ & _ & _ & Hpm & _). unfold do_ParticleModel.
      apply reproducible_bind; [apply reproducible_record_call | intros _].
      apply reproducible_ambient. apply Hpm. }
  intros est0. unfold run_loop. apply reproducible_for_each. intros i st.
  apply reproducible_round_body.
Qed.

Lemma reproducible_run (alpha : R) (records : option Z) :
  reproducible E (run self data workload engine alpha records).
Proof.
  unfold run. apply reproducible_bind; [apply reproducible_run_rounds | intros st].
  unfold run_return.
  apply reproducible_bind; [apply reproducible_record_call | intros _].
  apply reproducible_bind.
  { destruct Hseeded as (_ & _ & _ & _ & Hsyn). unfold do_synthetic_data.
    apply reproducible_bind; [apply reproducible_record_call | intros _].
    apply reproducible_ambient. apply Hsyn. }
  intros d. destruct (loss st); [apply reproducible_ret | apply reproducible_lift].
Qed.

End Reproducibility.

Section ReproducibilityProperties.

Context {C : Collaborators}.

(** The same configuration gives the same run. *)
Lemma same_configuration_run (self1 self2 : MWEM) (data : Dataset)
    (workload : list clique) (engine : Engine) (alpha : R) (records : option Z)
    (w : world) :
  same_configuration self1 self2 ->
  run self1 data workload engine alpha records w
  = run self2 data workload engine alpha records w /\
  run_rounds self1 data workload engine alpha w
  = run_rounds self2 data workload engine alpha w.
Proof.
  intros Hsame. destruct self1, self2. unfold same_configuration in Hsame.
  simpl in Hsame.
  destruct Hsame as (-> & -> & -> & -> & -> & -> & -> & -> & -> & -> & ->).
  split; reflexivity.
Qed.

(** C6.  Let [E] relate the states of the generators that the same seed
    gives, and let [np.random.choice], [np.random.normal], the engine and
    the models each have, from two such states, the same outcome and
    leave two such states (the contract of the engine, and what a seed is
    for numpy).  Then two runs with the same configuration (whatever the
    generator object given to the constructor), data, workload, engine and
    parameters that start from two such states have the same outcome (the
    same synthetic dataset and loss, or the same error), the same
    measurement log at the end of the rounds, make the same calls with the
    same arguments and leave two such states: the run itself adds no
    other source.  In every round the selection and the noise are drawn
    from one stream one after the other: the noise is drawn from the
    state that the draw of the selection left, and the estimation starts
    from the state that the draw of the noise left. *)
Theorem run_deterministic (E : Rng -> Rng -> Prop) (self1 self2 : MWEM)
    (data : Dataset) (workload : list clique) (engine : Engine) (alpha : R)
    (records : option Z) (w1 w2 : world) :
  seeded E engine ->
  same_configuration self1 self2 ->
  E (np_random w1) (np_random w2) ->
  fst (run self1 data workload engine alpha records w1)
  = fst (run self2 data workload engine alpha records w2) /\
  fst (run_rounds self1 data workload engine alpha w1)
  = fst (run_rounds self2 data workload engine alpha w2) /\
  E (np_random (snd (run self1 data workload engine alpha records w1)))
    (np_random (snd (run self2 data workload engine alpha records w2))) /\
  (exists new,
     calls (snd (run self1 data workload engine alpha records w1)) = calls w1 ++ new /\
     calls (snd (run self2 data workload engine alpha records w2)) = calls w2 ++ new) /\
  forall total answers sigma exp_eps n i s s' v v',
    round_body self1 data workload engine (data_domain data) total answers sigma
      exp_eps n i s v = (inr s', v') ->
    let offered := if isinstance_FactoredInference engine
                   then candidates self1 (data_domain data) workload (cliques s) i n
                   else workload in
    exists (p : list R) (key : nat) (ax : clique) (noise : list R) (l : R),
      let size := domain_size (data_domain data) ax in
      let scale := marginal_sensitivity self1 * sigma in
      let after_choice := snd (np_random_choice (length offered) p (np_random v)) in
      let after_normal := snd (np_random_normal 0 scale size after_choice) in
      fst (np_random_choice (length offered) p (np_random v)) = inr key /\
      nth_error offered key = Some ax /\
      fst (np_random_normal 0 scale size after_choice) = inr noise /\
      engine_estimate engine (measurements s') total after_normal
      = (inr (est s', l), np_random v') /\
      calls v' = calls v
                 ++ [call_worst_approximated (est s) offered exp_eps true;
                     call_np_random_choice (length offered) p]
                 ++ (if isinstance_FactoredInference engine
                     then [call_print_round i ax (est_size (est s) * 8 / 2 ^ 20)]
                     else [])
                 ++ [call_data_project ax;
                     call_np_random_normal 0 scale size;
                     call_engine_estimate (measurements s') total].
Proof.
  intros Hseeded Hsame HE.
  destruct (same_configuration_run self1 self2 data workload engine alpha records w2 Hsame)
    as (Hrun & Hrounds).
  rewrite <- Hrun, <- Hrounds.
  destruct (reproducible_run E self1 data workload engine Hseeded alpha records w1 w2 HE)
    as (H1 & H2 & H3).
  destruct (reproducible_run_rounds E self1 data workload engine Hseeded alpha w1 w2 HE)
    as (H4 & _).
  split; [exact H1 |]. split; [exact H4 |]. split; [exact H2 |]. split; [exact H3 |].
  intros total answers sigma exp_eps n i s s' v v' Hround offered.
  apply round_body_Ok in Hround as (ax & v1 & noise & y & l & Hround).
  cbv zeta in Hround. fold offered in Hround.
  destruct Hround as (Hsel & Hn & _ & He & Hm & _ & _ & Hc).
  apply worst_approximated_Ok in Hsel as (fr & Hsel).
  apply worst_approximated_body_Ok in Hsel as (_ & _ & _ & _ & m & key & Hsel).
  cbv zeta in Hsel. destruct Hsel as (_ & Hkey & Hnth & Hv1).
  rewrite Hv1 in Hn, He, Hc. cbn [np_random calls] in Hn, He, Hc.
  rewrite <- Hm in He, Hc.
  eexists _, key, ax, noise, l. cbv zeta.
  split; [exact Hkey |]. split; [exact Hnth |].
  split; [rewrite Hn; reflexivity |]. split; [exact He |].
  rewrite Hc, <- !app_assoc. reflexivity.
Qed.

End ReproducibilityProperties.

(** ** Completion *)

Section Completion.

Context {C : Collaborators}.

Lemma py_range_cons (lo hi : Z) :
  (lo < hi)%Z -> py_range lo hi = lo :: py_range (lo + 1) hi.
Proof.
  intros H. unfold py_range.
  replace (Z.to_nat (hi - lo)) with (S (Z.to_nat (hi - (lo + 1)))) by lia.
  simpl. f_equal; [lia |].
  rewrite <- seq_shift, map_map. apply map_ext. intros a. lia.
Qed.

Lemma py_range_nil (lo hi : Z) : (hi <= lo)%Z -> py_range lo hi = [].
Proof.
  intros H. unfold py_range. replace (Z.to_nat (hi - lo)) with O by lia. reflexivity.
Qed.

Lemma domain_size_nonneg (domain : Domain) (cl : clique) :
  (forall a, (0 <= domain a)%Z) -> (0 <= domain_size domain cl)%Z.
Proof.
  intros H. unfold domain_size. induction cl as [| a cl IH]; cbn [map fold_right].
  - lia.
  - apply Z.mul_nonneg_nonneg; [apply H | exact IH].
Qed.

Variables (self : MWEM) (data : Dataset) (workload : list clique) (engine : Engine)
  (total : option Z) (workload_answers : gmap clique (list R)) (sigma exp_eps : R)
  (n_rounds : Z).

Hypothesis Hbehaved : well_behaved data engine.

Hypothesis Hcovered : forall cl, In cl workload ->
  workload_answers !! cl = Some (data_datavector (data_project data cl)).

Hypothesis Hscale : 0 <= marginal_sensitivity self * sigma.

(** The selection succeeds on a non-empty part of the workload. *)
Lemma worst_approximated_completes (est : Model) (offered : list clique) (w : world) :
  offered <> [] ->
  (forall cl, In cl offered -> In cl workload) ->
  exists ax w1,
    worst_approximated self workload_answers est offered exp_eps true w = (inr ax, w1) /\
    In ax offered.
Proof.
  intros Hne Hsub.
  destruct Hbehaved as (_ & Hshape & Hchoice & _).
  assert (Hcov : forall cl, In cl offered ->
            exists x, workload_answers !! cl = Some x /\
                      length x = length (factor_datavector (est_project est cl))).
  { intros cl Hin. eexists. split; [apply Hcovered, Hsub, Hin |].
    symmetry. apply Hshape. }
  destruct (np_max_nonempty (map (spec_error workload_answers est true) offered))
    as (m & Hm).
  { destruct offered; [congruence | discriminate]. }
  rewrite (worst_approximated_covered self workload_answers est offered exp_eps true w m
             Hcov Hm).
  match goal with |- context [np_random_choice ?n (softmax ?x) ?g] =>
    assert (Hx : x <> []) by (destruct offered; [congruence | discriminate]);
    destruct (Hchoice n (softmax x) g) as (key & Hkey & Hlt)
  end.
  { destruct offered; [congruence | discriminate]. }
  { rewrite softmax_length, !length_map. reflexivity. }
  { split; [apply softmax_pos; exact Hx | apply softmax_sum; exact Hx]. }
  rewrite Hkey. unfold py_getitem.
  destruct (nth_error offered key) as [ax |] eqn:E.
  - eexists ax, _. split; [reflexivity |]. eapply nth_error_In. exact E.
  - apply nth_error_None in E. lia.
Qed.

(** A round succeeds when it has a candidate to offer. *)
Lemma round_body_completes (i : Z) (st : loop_state) (w : world) :
  (if isinstance_FactoredInference engine
   then candidates self (data_domain data) workload (cliques st) i n_rounds
   else workload) <> [] ->
  exists st' w' ax,
    round_body self data workload engine (data_domain data) total workload_answers
      sigma exp_eps n_rounds i st w = (inr st', w') /\
    cliques st' = cliques st ++ [ax] /\
    In ax workload.
Proof.
  intros Hne.
  assert (Hsel : exists ax w2,
    (if isinstance_FactoredInference engine
     then let* ax := worst_approximated self workload_answers (est st)
                       (candidates self (data_domain data) workload (cliques st) i
                          n_rounds) exp_eps true in
          do record_call (call_print_round i ax (est_size (est st) * 8 / 2 ^ 20)) then
          ret ax
     else worst_approximated self workload_answers (est st) workload exp_eps true) w
    = (inr ax, w2) /\ In ax workload).
  { destruct (isinstance_FactoredInference engine).
    - destruct (worst_approximated_completes (est st) _ w Hne) as (ax & w1 & H1 & Hin).
      { intros cl Hin. unfold candidates in Hin. apply filter_In in Hin. tauto. }
      exists ax. eexists. split.
      + rewrite (bind_step _ _ _ _ _ H1). reflexivity.
      + unfold candidates in Hin. apply filter_In in Hin. tauto.
    - destruct (worst_approximated_completes (est st) _ w Hne) as (ax & w1 & H1 & Hin);
        [tauto |].
      exists ax, w1. split; assumption. }
  destruct Hsel as (ax & w2 & Hsel & Hin).
  destruct Hbehaved as (Hdata & _ & _ & Hnormal & Hest & _ & _ & Hdomain).
  set (n := domain_size (data_domain data) ax).
  set (scale := marginal_sensitivity self * sigma).
  destruct (Hnormal scale n (np_random w2)) as (noise & Hnoise & Hlen);
    [exact Hscale | apply domain_size_nonneg; exact Hdomain |].
  set (x := data_datavector (data_project data ax)).
  assert (Hy : np_add x noise = Ok (map (fun p => fst p + snd p) (combine x noise))).
  { apply np_add_same_length. unfold x. rewrite Hdata, Hlen. reflexivity. }
  set (y := map (fun p => fst p + snd p) (combine x noise)) in Hy.
  set (log := measurements st ++ [(sparse_eye n, y, 1, ax)]).
  destruct (Hest log total (snd (np_random_normal 0 scale n (np_random w2))))
    as ([est' l] & He).
  unfold round_body.
  rewrite (bind_step _ _ _ _ _ Hsel).
  rewrite (bind_step _ _ _ _ _ (do_data_project_eq data ax w2)).
  fold n scale x.
  erewrite bind_step;
    [| rewrite do_np_random_normal_eq; cbn [np_random calls]; rewrite Hnoise; reflexivity].
  erewrite bind_step; [| unfold lift; rewrite Hy; reflexivity].
  fold log.
  erewrite bind_step;
    [| rewrite do_engine_estimate_eq; cbn [np_random calls]; rewrite He; reflexivity].
  unfold ret. eexists _, _, ax. split; [reflexivity |].
  cbn [cliques]. split; [reflexivity | exact Hin].
Qed.

(** The rounds succeed as long as, with a size-aware engine, every round
    has a candidate under its cap. *)
Lemma run_loop_completes (remaining : nat) :
  forall (i0 : Z) (st : loop_state) (w : world),
    (1 <= i0)%Z ->
    workload <> [] ->
    length (cliques st) = Z.to_nat (i0 - 1) ->
    (forall c, In c (cliques st) -> In c workload) ->
    (isinstance_FactoredInference engine = true ->
     forall i selected, (i0 <= i < i0 + Z.of_nat remaining)%Z ->
       length selected = Z.to_nat (i - 1) ->
       (forall c, In c selected -> In c workload) ->
       candidates self (data_domain data) workload selected i n_rounds <> []) ->
    exists st' w',
      run_loop self data workload engine total workload_answers sigma exp_eps n_rounds
        (py_range i0 (i0 + Z.of_nat remaining)) st w = (inr st', w') /\
      (remaining <> O -> exists l, loss st' = Some l).
Proof.
  induction remaining as [| k IH]; intros i0 st w Hi0 Hwl Hlen Hsub Hfit.
  - rewrite py_range_nil by lia. exists st, w. split; [reflexivity | congruence].
  - rewrite py_range_cons by lia.
    destruct (round_body_completes i0 st w) as (st1 & w1 & ax & Hround & Hc & Hin).
    { destruct (isinstance_FactoredInference engine) eqn:E; [| exact Hwl].
      apply Hfit; [reflexivity | lia | exact Hlen | exact Hsub]. }
    destruct (IH (i0 + 1)%Z st1 w1) as (st' & w' & Hloop & Hloss).
    + lia.
    + exact Hwl.
    + rewrite Hc, length_app, Hlen. simpl. lia.
    + intros c Hcin. rewrite Hc in Hcin. apply in_app_or in Hcin as [Hcin | [<- | []]].
      * apply Hsub. exact Hcin.
      * exact Hin.
    + intros Hf i selected Hi. apply Hfit; [exact Hf | lia].
    + exists st', w'. split.
      * unfold run_loop in *. simpl for_each.
        rewrite (bind_step _ _ _ _ _ Hround).
        replace (i0 + Z.of_nat (S k))%Z with (i0 + 1 + Z.of_nat k)%Z by lia.
        exact Hloop.
      * intros _. destruct k as [| k'].
        -- rewrite py_range_nil in Hloop by lia. unfold run_loop in Hloop.
           simpl in Hloop. unfold ret in Hloop. injection Hloop as <- _.
           apply round_body_Ok in Hround as (? & ? & ? & ? & l & Hround).
           cbv zeta in Hround. exists l. tauto.
        -- apply Hloss. discriminate.
Qed.

End Completion.

Section RunCompletes.

Context {C : Collaborators}.

(** [run] returns when the collaborators keep their contracts, there is
    at least one round, [rho] is positive, [alpha] is in [(0, 1]], the
    sensitivity of a marginal is not negative and, with a size-aware
    engine, every round has a candidate under its cap. *)
Lemma run_completes (self : MWEM) (data : Dataset) (workload : list clique)
    (engine : Engine) (alpha : R) (records : option Z) (w : world) :
  let n := Z.min (Z.of_nat (length workload)) (rounds self) in
  well_behaved data engine ->
  (1 <= n)%Z -> 0 < rho self -> 0 < alpha <= 1 ->
  0 <= marginal_sensitivity self ->
  (isinstance_FactoredInference engine = true ->
   forall i selected, (1 <= i <= n)%Z ->
     length selected = Z.to_nat (i - 1) ->
     (forall c, In c selected -> In c workload) ->
     candidates self (data_domain data) workload selected i n <> []) ->
  exists out w', run self data workload engine alpha records w = (inr out, w').
Proof.
  intros n Hbehaved Hn Hrho Halpha Hms Hfit.
  assert (Hwl : workload <> []).
  { intros ->. simpl in n. unfold n in Hn. lia. }
  pose proof (run_budget_Ok self workload alpha ltac:(fold n; lia) ltac:(lra) ltac:(lra))
    as Hb.
  fold n in Hb.
  destruct (compute_workload_answers_eq data workload w) as (answers & Ha & Hcov).
  set (total := if bounded self then Some (data_records data) else None).
  set (w0 := {| np_random := np_random w;
                calls := calls w ++ map call_data_project workload |}) in Ha.
  assert (Hinit : exists est0 w1, initial_model self data engine total w0 = (inr est0, w1)).
  { destruct Hbehaved as (_ & _ & _ & _ & Hest & Hpm & _).
    unfold initial_model. destruct (isinstance_FactoredInference engine).
    - destruct (Hest [] total (np_random w0)) as ([est0 l0] & He).
      exists est0. eexists.
      erewrite bind_step; [| rewrite do_engine_estimate_eq, He; reflexivity].
      reflexivity.
    - destruct (Hpm (data_domain data) (engine_embedding engine)
                  (engine_n_particles engine) (data_init self) (np_random w0))
        as (est0 & He).
      exists est0. eexists. rewrite do_ParticleModel_eq, He. reflexivity. }
  destruct Hinit as (est0 & w1 & Hinit).
  assert (Hscale : 0 <= marginal_sensitivity self
                        * sqrt (0.5 / (alpha * (rho self / IZR n)))).
  { apply Rmult_le_pos; [exact Hms | apply sqrt_pos]. }
  destruct (run_loop_completes self data workload engine total answers
              (sqrt (0.5 / (alpha * (rho self / IZR n))))
              (sqrt (8 * (1 - alpha) * (rho self / IZR n))) n Hbehaved Hcov Hscale
              (Z.to_nat n) 1%Z
              {| measurements := []; est := est0; loss := None; cliques := [] |} w1)
    as (st & w2 & Hloop & Hloss).
  - lia.
  - exact Hwl.
  - reflexivity.
  - intros c [].
  - intros Hf i selected Hi. apply Hfit; [exact Hf | lia].
  - destruct Hloss as (l & Hloss); [lia |].
    replace (1 + Z.of_nat (Z.to_nat n))%Z with (n + 1)%Z in Hloop by lia.
    destruct Hbehaved as (_ & _ & _ & _ & _ & _ & Hsyn & _).
    destruct (Hsyn (est st) records (np_random w2)) as (d & Hd).
    exists (d, l). eexists.
    unfold run. erewrite bind_step.
    + unfold run_return.
      rewrite (bind_step _ _ _ _ _ (record_call_eq call_print_generating w2)).
      erewrite bind_step;
        [| rewrite do_synthetic_data_eq; cbn [np_random calls]; rewrite Hd; reflexivity].
      rewrite Hloss. reflexivity.
    + unfold run_rounds. rewrite Hb.
      unfold bind at 1. unfold lift at 1. unfold Ok at 1. cbv beta iota.
      rewrite (bind_step _ _ _ _ _ Ha).
      fold total. rewrite (bind_step _ _ _ _ _ Hinit). exact Hloop.
Qed.

End RunCompletes.

(** ** The concrete world *)

Section ToyFacts.

#[local] Existing Instance Toy.collaborators.

(** The mechanism of the scenario is the one the constructor builds. *)
Lemma toy_mechanism_init (rounds : Z) (cap : R) :
  MWEM_init (Toy.hyper rounds cap) true O = Toy.mechanism rounds cap.
Proof. reflexivity. Qed.

Lemma toy_datavector_length (cl : clique) :
  length (Toy.datavector cl) = Z.to_nat (domain_size Toy.domain cl).
Proof.
  unfold Toy.datavector, Toy.cells.
  destruct (Z.to_nat (domain_size Toy.domain cl)) as [| k]; simpl.
  - reflexivity.
  - rewrite repeat_length. reflexivity.
Qed.

Lemma toy_well_behaved (engine : bool) : well_behaved Toy.data engine.
Proof.
  unfold well_behaved. simpl.
  split; [exact toy_datavector_length |].
  split; [intros est cl; rewrite toy_datavector_length; apply repeat_length |].
  split.
  { intros n p g Hn _ _. unfold Toy.choice. destruct n as [| n']; [congruence |].
    eexists. split; [reflexivity |]. apply Nat.mod_upper_bound. discriminate. }
  split.
  { intros scale n g _ _. eexists. split; [reflexivity |]. apply repeat_length. }
  split; [intros; eexists; reflexivity |].
  split; [intros; eexists; reflexivity |].
  split; [intros; eexists; reflexivity |].
  intros a. unfold Toy.domain.
  destruct (String.eqb a "A"); [lia |]. destruct (String.eqb a "B"); lia.
Qed.

(** The scenario of the specification with the particle engine completes,
    for every non-zero [alpha]. *)
Lemma toy_particle_run_completes (alpha : R) :
  0 < alpha <= 1 ->
  exists out w',
    run (Toy.mechanism 2 1) Toy.data Toy.workload false alpha None Toy.start
    = (inr out, w').
Proof.
  intros Halpha.
  apply run_completes.
  - apply toy_well_behaved.
  - simpl. lia.
  - simpl. lra.
  - exact Halpha.
  - cbn [marginal_sensitivity Toy.mechanism]. apply sqrt_pos.
  - simpl. discriminate.
Qed.

Lemma toy_size (cliques : list clique) :
  size Toy.domain cliques
  = IZR (fold_right Z.add 0%Z (map (domain_size Toy.domain) cliques)) * 8 / 2 ^ 20.
Proof. reflexivity. Qed.

Lemma toy_scale_pos : 0 < / 2 ^ 20.
Proof. apply Rinv_0_lt_compat. apply pow_lt. lra. Qed.

(** With a cap of [64 / 2^20] and two rounds, every round of the
    size-aware engine can at least offer the clique [A]. *)
Lemma toy_factored_fits (i : Z) (selected : list clique) :
  (1 <= i <= 2)%Z ->
  length selected = Z.to_nat (i - 1) ->
  (forall c, In c selected -> In c Toy.workload) ->
  candidates (Toy.mechanism 2 (64 / 2 ^ 20)) Toy.domain Toy.workload selected i 2 <> [].
Proof.
  intros Hi Hlen Hsub.
  assert (HA : In Toy.A (candidates (Toy.mechanism 2 (64 / 2 ^ 20)) Toy.domain
                           Toy.workload selected i 2)).
  { unfold candidates. apply filter_In. split; [left; reflexivity |].
    apply py_le_true. rewrite toy_size. cbn [max_model_size Toy.mechanism].
    pose proof toy_scale_pos as Hpos. unfold Rdiv. set (K := / 2 ^ 20) in *.
    assert (Hi' : i = 1%Z \/ i = 2%Z) by lia.
    destruct Hi' as [-> | ->].
    - destruct selected as [| c rest]; [| simpl in Hlen; lia].
      toy_sum. lra.
    - destruct selected as [| c [| c' rest]]; simpl in Hlen; try lia.
      assert (Hc : In c Toy.workload) by (apply Hsub; left; reflexivity).
      simpl in Hc. destruct Hc as [<- | [<- | [<- | []]]]; toy_sum; lra. }
  intros E. rewrite E in HA. exact HA.
Qed.

Lemma toy_factored_run_completes :
  exists out w',
    run (Toy.mechanism 2 (64 / 2 ^ 20)) Toy.data Toy.workload true (9 / 10) None Toy.start
    = (inr out, w').
Proof.
  apply run_completes.
  - apply toy_well_behaved.
  - simpl. lia.
  - simpl. lra.
  - lra.
  - cbn [marginal_sensitivity Toy.mechanism]. apply sqrt_pos.
  - intros _ i selected Hi Hlen Hsub. apply toy_factored_fits; assumption.
Qed.

(** The split of the budget in the scenario. *)
Lemma toy_budget (cap alpha : R) :
  alpha <> 0 ->
  run_budget (Toy.mechanism 2 cap) Toy.workload alpha
  = Ok (2%Z, 1 / 2, sqrt (0.5 / (alpha * (1 / 2))), sqrt (8 * (1 - alpha) * (1 / 2))).
Proof.
  intros Halpha.
  apply (run_budget_Ok (C := Toy.collaborators) (Toy.mechanism 2 cap) Toy.workload alpha).
  - simpl. lia.
  - simpl. lra.
  - exact Halpha.
Qed.

Lemma outcome_eq {A B : Type} (p : A * B) (a : A) : fst p = a -> p = (a, snd p).
Proof. intros <-. apply surjective_pairing. Qed.

(** The rounds of the scenario with the particle engine, run. *)
Lemma toy_particle_rounds (alpha : R) :
  alpha <> 0 ->
  fst (run_rounds (Toy.mechanism 2 1) Toy.data Toy.workload false alpha Toy.start)
  = inr Toy.final_state.
Proof.
  intros Halpha. unfold run_rounds. rewrite (toy_budget 1 alpha Halpha). reflexivity.
Qed.

Lemma toy_particle_run (alpha : R) :
  alpha <> 0 ->
  fst (run (Toy.mechanism 2 1) Toy.data Toy.workload false alpha None Toy.start)
  = inr (["A"; "B"]%string, INR 2).
Proof.
  intros Halpha. unfold run, run_rounds. rewrite (toy_budget 1 alpha Halpha). reflexivity.
Qed.

(** With a cap of [64 / 2^20], the cliques [A] and [B] fit in the first
    round, and every clique fits in the second once [A] is selected. *)
Lemma toy_candidates_1 :
  candidates (Toy.mechanism 2 (64 / 2 ^ 20)) Toy.domain Toy.workload [] 1 2
  = [Toy.A; Toy.B].
Proof.
  unfold candidates. cbn [max_model_size Toy.mechanism Toy.workload List.filter].
  pose proof toy_scale_pos as Hpos.
  rewrite (proj2 (py_le_true _ _))
    by (rewrite toy_size; unfold Rdiv; set (K := / 2 ^ 20) in *; toy_sum; lra).
  rewrite (proj2 (py_le_true _ _))
    by (rewrite toy_size; unfold Rdiv; set (K := / 2 ^ 20) in *; toy_sum; lra).
  rewrite (proj2 (py_le_false _ _))
    by (rewrite toy_size; unfold Rdiv; set (K := / 2 ^ 20) in *; toy_sum; lra).
  reflexivity.
Qed.

Lemma toy_candidates_2 :
  candidates (Toy.mechanism 2 (64 / 2 ^ 20)) Toy.domain Toy.workload [Toy.A] 2 2
  = Toy.workload.
Proof.
  unfold candidates. cbn [max_model_size Toy.mechanism Toy.workload List.filter].
  pose proof toy_scale_pos as Hpos.
  rewrite !(proj2 (py_le_true _ _)); [reflexivity | | |];
    rewrite toy_size; unfold Rdiv; set (K := / 2 ^ 20) in *; toy_sum; lra.
Qed.

(** The rounds of the scenario with the size-aware engine, run: the same
    cliques are selected. *)
Lemma toy_factored_rounds :
  fst (run_rounds (Toy.mechanism 2 (64 / 2 ^ 20)) Toy.data Toy.workload true (9 / 10)
         Toy.start)
  = inr Toy.final_state.
Proof.
  unfold run_rounds. rewrite (toy_budget _ (9 / 10)) by lra.
  unfold bind at 1. unfold lift at 1. unfold Ok at 1. cbv beta iota.
  erewrite bind_step; [| reflexivity].
  erewrite bind_step; [| reflexivity].
  change (py_range 1 (2 + 1)) with [1%Z; 2%Z].
  unfold run_loop. cbn [for_each].
  unfold round_body at 1.
  cbn [isinstance_FactoredInference Toy.collaborators cliques data_domain].
  rewrite toy_candidates_1.
  erewrite bind_step; [| reflexivity].
  unfold round_body at 1.
  cbn [isinstance_FactoredInference Toy.collaborators cliques data_domain app].
  rewrite toy_candidates_2.
  reflexivity.
Qed.

(** With a cap of zero nothing fits in the first round. *)
Lemma toy_no_candidates :
  candidates (Toy.mechanism 2 0) Toy.domain Toy.workload [] 1 2 = [].
Proof.
  assert (H : forall c, In c Toy.workload ->
            py_le (size Toy.domain ([] ++ [c])) (0 * IZR 1 / IZR 2) = false).
  { intros c Hc. apply py_le_false. rewrite toy_size.
    pose proof toy_scale_pos as Hpos. unfold Rdiv. set (K := / 2 ^ 20) in *.
    simpl in Hc. destruct Hc as [<- | [<- | [<- | []]]]; toy_sum; lra. }
  unfold candidates. cbn [max_model_size Toy.mechanism Toy.workload List.filter].
  rewrite !H by (simpl; tauto). reflexivity.
Qed.

End ToyFacts.

(** A run whose first round has no candidate under the cap. *)
Lemma run_first_round_empty {C : Collaborators} (self : MWEM) (data : Dataset)
    (workload : list clique) (engine : Engine) (alpha : R) (records : option Z)
    (w : world) (est0 : Model) (l0 : R) :
  let n := Z.min (Z.of_nat (length workload)) (rounds self) in
  let total := if bounded self then Some (data_records data) else None in
  let exp_eps := sqrt (8 * (1 - alpha) * (rho self / IZR n)) in
  isinstance_FactoredInference engine = true ->
  (1 <= n)%Z -> rho self <> 0 -> alpha <> 0 ->
  fst (engine_estimate engine [] total (np_random w)) = inr (est0, l0) ->
  candidates self (data_domain data) workload [] 1 n = [] ->
  run self data workload engine alpha records w
  = (inl (ValueError zero_size_reduction),
     {| np_random := snd (engine_estimate engine [] total (np_random w));
        calls := calls w ++ map call_data_project workload
                 ++ [call_engine_estimate [] total;
                     call_worst_approximated est0 [] exp_eps true] |}).
Proof.
  intros n total exp_eps Hf Hn Hrho Halpha Hest Hempty.
  pose proof (run_budget_Ok self workload alpha ltac:(fold n; lia) Hrho Halpha) as Hb.
  fold n in Hb.
  destruct (compute_workload_answers_eq data workload w) as (answers & Ha & _).
  unfold run. apply bind_Raise. unfold run_rounds. rewrite Hb.
  unfold bind at 1. unfold lift at 1. unfold Ok at 1. cbv beta iota.
  rewrite (bind_step _ _ _ _ _ Ha). fold total.
  erewrite bind_step.
  2: { unfold initial_model. rewrite Hf.
       erewrite bind_step;
         [| rewrite do_engine_estimate_eq; cbn [np_random calls]; rewrite Hest;
            reflexivity].
       reflexivity. }
  rewrite py_range_cons by lia. unfold run_loop. cbn [for_each].
  apply bind_Raise. unfold round_body. rewrite Hf. cbn [cliques]. rewrite Hempty.
  apply bind_Raise. apply bind_Raise.
  rewrite worst_approximated_empty. cbn [np_random calls est].
  rewrite <- !app_assoc. reflexivity.
Qed.

(** ** The properties on the concrete world *)

Section Instances.

#[local] Existing Instance Toy.collaborators.

Lemma toy_table_covers (cl : clique) :
  In cl [Toy.A] ->
  exists x, Toy.table !! cl = Some x /\
            length x = length (factor_datavector (est_project O cl)).
Proof.
  intros [<- | []]. exists (Toy.datavector Toy.A). split.
  - apply lookup_insert_eq.
  - rewrite toy_datavector_length. symmetry. apply (repeat_length 0 (Toy.cells Toy.A)).
Qed.

Lemma toy_selection :
  worst_approximated (Toy.mechanism 2 1) Toy.table O [Toy.A] 1 true Toy.start
  = (inr Toy.A,
     {| np_random := 1%nat;
        calls := [call_worst_approximated O [Toy.A] 1 true;
                  call_np_random_choice 1
                    (softmax
                       (map (fun e => 0.5 * 1 / 2 * (e - spec_error Toy.table O true Toy.A))
                          [spec_error Toy.table O true Toy.A]))] |}).
Proof.
  rewrite (worst_approximated_covered (C := Toy.collaborators)
             (Toy.mechanism 2 1) Toy.table O [Toy.A] 1 true
             Toy.start (spec_error (C := Toy.collaborators) Toy.table O true Toy.A)
             toy_table_covers eq_refl).
  reflexivity.
Qed.

(** C10 on the single candidate [A]. *)
Lemma worst_approximated_frame_witness :
  exists w',
    worst_approximated (Toy.mechanism 2 1) Toy.table O [Toy.A] 1 true Toy.start
    = (inr Toy.A, w') /\
    In Toy.A [Toy.A].
Proof.
  eexists. split; [exact toy_selection |].
  exact (proj1 (worst_approximated_frame _ _ _ _ _ _ _ _ _ toy_selection)).
Defined.

(** C3 refuted.  [alpha = 1] is outside the open interval, and the run of
    the scenario returns a dataset and a loss, after touching the data
    and taking both measurements.  With [rounds = -1] the number of rounds
    is negative, and the run projects the data on the whole workload,
    builds the initial model and asks it for synthetic data before it
    fails, on the unbound variable [loss]. *)
Lemma run_has_no_validation :
  ~ (0 < 1 < 1) /\
  fst (run (Toy.mechanism 2 1) Toy.data Toy.workload false 1 None Toy.start)
  = inr (["A"; "B"]%string, INR 2) /\
  fst (run_rounds (Toy.mechanism 2 1) Toy.data Toy.workload false 1 Toy.start)
  = inr Toy.final_state /\
  (Z.min (Z.of_nat (length Toy.workload)) (rounds (Toy.mechanism (-1) 1)) <= 0)%Z /\
  run (Toy.mechanism (-1) 1) Toy.data Toy.workload false (9 / 10) None Toy.start
  = (inl (UnboundLocalError "loss"),
     {| np_random := O;
        calls := [call_data_project Toy.A; call_data_project Toy.B;
                  call_data_project Toy.AB; call_ParticleModel Toy.domain tt 1 tt;
                  call_print_generating; call_synthetic_data O None] |}).
Proof.
  split; [lra |]. split; [apply toy_particle_run; lra |].
  split; [apply toy_particle_rounds; lra |].
  split; [simpl; lia |].
  unfold run, run_rounds.
  rewrite (run_budget_Ok (C := Toy.collaborators) (Toy.mechanism (-1) 1) Toy.workload
             (9 / 10)).
  - reflexivity.
  - simpl. lia.
  - simpl. lra.
  - lra.
Qed.

(** C3 as the code has it, with [alpha = 0]. *)
Lemma run_zero_division_witness :
  run (Toy.mechanism 2 1) Toy.data Toy.workload false 0 None Toy.start
  = (inl ZeroDivisionError, Toy.start).
Proof.
  apply run_zero_division. right. right. reflexivity.
Defined.

(** C4 refuted: with a cap of zero the first round has no candidate; the
    selector is called with the empty list, and the run ends with numpy's
    error for the maximum of an empty array. *)
Lemma empty_candidates_reach_selector :
  exists w',
    run (Toy.mechanism 2 0) Toy.data Toy.workload true (9 / 10) None Toy.start
    = (inl (ValueError zero_size_reduction), w') /\
    In (call_worst_approximated O [] (sqrt (8 * (1 - 9 / 10) * (1 / 2))) true) (calls w').
Proof.
  eexists. split.
  - apply (run_first_round_empty (C := Toy.collaborators)
             (Toy.mechanism 2 0) Toy.data Toy.workload true (9 / 10)
             None Toy.start O 0).
    + reflexivity.
    + simpl. lia.
    + simpl. lra.
    + lra.
    + reflexivity.
    + exact toy_no_candidates.
  - cbn [calls]. apply in_or_app. right. apply in_or_app. right. right. left. reflexivity.
Qed.

(** C4 as the code has it, in the first round of that run. *)
Lemma empty_candidates_raise_witness :
  run (Toy.mechanism 2 0) Toy.data Toy.workload true (9 / 10) None Toy.start
  = (inl (ValueError zero_size_reduction),
     {| np_random := O;
        calls := [call_data_project Toy.A; call_data_project Toy.B;
                  call_data_project Toy.AB; call_engine_estimate [] (Some 4%Z);
                  call_worst_approximated O [] (sqrt (8 * (1 - 9 / 10) * (1 / 2))) true] |}).
Proof.
  assert (Hb : run_budget (Toy.mechanism 2 0) Toy.workload (9 / 10)
               = Ok (2%Z, 1 / 2, sqrt (0.5 / (9 / 10 * (1 / 2))),
                     sqrt (8 * (1 - 9 / 10) * (1 / 2)))).
  { apply (run_budget_Ok (C := Toy.collaborators) (Toy.mechanism 2 0) Toy.workload
             (9 / 10)).
    - simpl. lia.
    - simpl. lra.
    - lra. }
  exact (proj1 (empty_candidates_raise (C := Toy.collaborators)
                  (Toy.mechanism 2 0) Toy.data Toy.workload true (9 / 10) None
                  (<[Toy.AB := Toy.datavector Toy.AB]>
                     (<[Toy.B := Toy.datavector Toy.B]>
                        (<[Toy.A := Toy.datavector Toy.A]> ∅)))
                  O 2 1 (1 / 2) (sqrt (0.5 / (9 / 10 * (1 / 2))))
                  (sqrt (8 * (1 - 9 / 10) * (1 / 2))) [] [2%Z]
                  {| measurements := []; est := O; loss := None; cliques := [] |}
                  Toy.start
                  {| np_random := O;
                     calls := [call_data_project Toy.A; call_data_project Toy.B;
                               call_data_project Toy.AB] |}
                  {| np_random := O;
                     calls := [call_data_project Toy.A; call_data_project Toy.B;
                               call_data_project Toy.AB;
                               call_engine_estimate [] (Some 4%Z)] |}
                  {| np_random := O;
                     calls := [call_data_project Toy.A; call_data_project Toy.B;
                               call_data_project Toy.AB;
                               call_engine_estimate [] (Some 4%Z)] |}
                  eq_refl Hb eq_refl eq_refl eq_refl eq_refl toy_no_candidates)).
Defined.

(** C5 on the scenario of the specification: two rounds, two entries. *)
Lemma run_measurement_log_witness :
  fst (run (Toy.mechanism 2 1) Toy.data Toy.workload false (9 / 10) None Toy.start)
  = inr (["A"; "B"]%string, INR 2) /\
  exists st w_end,
    run_rounds (Toy.mechanism 2 1) Toy.data Toy.workload false (9 / 10) Toy.start
    = (inr st, w_end) /\
    length (measurements st) = 2%nat.
Proof.
  assert (H : fst (run (Toy.mechanism 2 1) Toy.data Toy.workload false (9 / 10) None
                     Toy.start)
              = inr (["A"; "B"]%string, INR 2)) by (apply toy_particle_run; lra).
  split; [exact H |].
  destruct (run_measurement_log _ _ _ _ _ _ _ _ _ (outcome_eq _ _ H))
    as (_ & st & w_end & _ & _ & _ & _ & _ & _ & Hrounds & _ & _ & Hlen & _).
  exists st, w_end. split; [exact Hrounds | exact Hlen].
Defined.

(** C7 on the scenario with the size-aware engine and a cap of
    [64 / 2^20]: the cliques [A] and [(A, B)] are selected, and their model
    size is within the cap. *)
Lemma model_size_cap_witness :
  fst (run_rounds (Toy.mechanism 2 (64 / 2 ^ 20)) Toy.data Toy.workload true (9 / 10)
         Toy.start)
  = inr Toy.final_state /\
  size Toy.domain [Toy.A; Toy.AB] <= 64 / 2 ^ 20.
Proof.
  split; [exact toy_factored_rounds |].
  destruct (model_size_cap (C := Toy.collaborators) _ _ _ _ _ _ _ _ eq_refl
              (outcome_eq _ _ toy_factored_rounds))
    as (_ & _ & Hcap).
  apply Hcap. simpl. lia.
Defined.

(** C8 on the scenario with the particle engine: the two entries of the
    log are the measurements of [A] and of [(A, B)], the cliques that the
    two selections returned. *)
Lemma recorded_measurements_witness :
  fst (run_rounds (Toy.mechanism 2 1) Toy.data Toy.workload false (9 / 10) Toy.start)
  = inr Toy.final_state /\
  Forall2 (fun c m => exists g,
             recorded (Toy.mechanism 2 1) Toy.data (sqrt (0.5 / (9 / 10 * (1 / 2)))) c g m)
    [Toy.A; Toy.AB] (measurements Toy.final_state) /\
  forall Q y weight c, In (Q, y, weight, c) (measurements Toy.final_state) ->
    In c [Toy.A; Toy.AB] /\
    Q = sparse_eye (domain_size Toy.domain c) /\
    weight = 1 /\
    length y = Z.to_nat (fold_right Z.mul 1%Z (map Toy.domain c)).
Proof.
  assert (H : fst (run_rounds (Toy.mechanism 2 1) Toy.data Toy.workload false (9 / 10)
                     Toy.start)
              = inr Toy.final_state) by (apply toy_particle_rounds; lra).
  split; [exact H |].
  destruct (toy_well_behaved false) as (Hdata & _ & _ & _).
  assert (Hnormal : forall (loc scale : R) (n : Z) (g : nat) (noise : list R),
            fst (Toy.normal loc scale n g) = inr noise -> length noise = Z.to_nat n).
  { intros loc scale n g noise E. simpl in E. injection E as <-. apply repeat_length. }
  destruct (recorded_measurements (C := Toy.collaborators) _ _ _ _ _ _ _ _
              Hdata Hnormal (outcome_eq _ _ H))
    as (n & rho_r & sigma & exp_eps & answers & est0 & w1 & Hb & _ & _ & Hrec & _ & Hlog).
  rewrite (toy_budget 1 (9 / 10)) in Hb by lra. injection Hb as <- <- <- <-.
  split; [exact Hrec | exact Hlog].
Defined.

(** C9 refuted: the scenario with the particle engine completes, and
    [engine.estimate] is never called with an empty list of
    measurements. *)
Lemma particle_model_not_estimated :
  fst (run (Toy.mechanism 2 1) Toy.data Toy.workload false (9 / 10) None Toy.start)
  = inr (["A"; "B"]%string, INR 2) /\
  forall total,
    ~ In (call_engine_estimate [] total)
         (calls (snd (run (Toy.mechanism 2 1) Toy.data Toy.workload false (9 / 10) None
                        Toy.start))).
Proof.
  split; [apply toy_particle_run; lra |].
  intros total Hin.
  destruct (appends_calls _ _ Toy.start
              (appends_run (C := Toy.collaborators) (Toy.mechanism 2 1) Toy.data
                 Toy.workload false (9 / 10) None))
    as (new & Hcalls & Hnew).
  rewrite Hcalls in Hin. simpl in Hin.
  rewrite List.Forall_forall in Hnew. specialize (Hnew _ Hin).
  specialize (Hnew _ _ _ _ (toy_budget 1 (9 / 10) ltac:(lra))). simpl in Hnew.
  destruct Hnew as (_ & Hnew). specialize (Hnew eq_refl). discriminate Hnew.
Qed.

(** C9 as the code has it, on the scenario with the particle engine: the
    model before the first round is the new [ParticleModel]. *)
Lemma initial_model_and_refit_witness :
  fst (run_rounds (Toy.mechanism 2 1) Toy.data Toy.workload false (9 / 10) Toy.start)
  = inr Toy.final_state /\
  exists est0 g, ParticleModel Toy.domain tt 1%Z tt O = (inr est0, g).
Proof.
  assert (H : fst (run_rounds (Toy.mechanism 2 1) Toy.data Toy.workload false (9 / 10)
                     Toy.start)
              = inr Toy.final_state) by (apply toy_particle_rounds; lra).
  split; [exact H |].
  destruct (initial_model_and_refit (C := Toy.collaborators) _ _ _ _ _ _ _ _
              (outcome_eq _ _ H))
    as (n & rho_r & sigma & exp_eps & answers & est0 & w1 & _ & (Hinit & _) & _).
  exists est0, (np_random w1). exact Hinit.
Defined.

End Instances.

(** * Further properties of the code *)

(** ** The split of the budget *)

Section BudgetAccounting.

Context {C : Collaborators}.

Lemma run_budget_values (self : MWEM) (workload : list clique) (alpha : R)
    (n : Z) (rho_r sigma exp_eps : R) :
  run_budget self workload alpha = Ok (n, rho_r, sigma, exp_eps) ->
  n = Z.min (Z.of_nat (length workload)) (rounds self) /\
  n <> 0%Z /\
  rho_r = rho self / IZR n /\
  alpha * rho_r <> 0 /\
  sigma = sqrt (0.5 / (alpha * rho_r)) /\
  exp_eps = sqrt (8 * (1 - alpha) * rho_r).
Proof.
  unfold run_budget, result_bind, py_truediv. intros H.
  destruct (Req_dec_T (IZR (Z.min (Z.of_nat (length workload)) (rounds self))) 0)
    as [E | E]; [discriminate H |].
  unfold Ok in H.
  destruct (Req_dec_T
              (alpha * (rho self / IZR (Z.min (Z.of_nat (length workload)) (rounds self))))
              0) as [E' | E']; [discriminate H |].
  injection H as <- <- <- <-.
  repeat split; try reflexivity; try assumption.
  intros Hz. apply E. rewrite Hz. reflexivity.
Qed.

(** X1.  When the split of the budget succeeds with at least one round,
    [rho > 0] and [0 < alpha <= 1], the noise multiplier is positive, the
    selection strength is non-negative, the Gaussian measurement costs
    [0.5 / sigma^2 = alpha * rho_r], the selection costs
    [eps^2 / 8 = (1 - alpha) * rho_r], and the cost of the [R] rounds adds
    up to [rho]. *)
Theorem budget_accounting (self : MWEM) (workload : list clique) (alpha : R)
    (n : Z) (rho_r sigma exp_eps : R) :
  run_budget self workload alpha = Ok (n, rho_r, sigma, exp_eps) ->
  (1 <= n)%Z -> 0 < rho self -> 0 < alpha <= 1 ->
  0 < sigma /\
  0 <= exp_eps /\
  0.5 / (sigma * sigma) = alpha * rho_r /\
  exp_eps * exp_eps / 8 = (1 - alpha) * rho_r /\
  IZR n * (0.5 / (sigma * sigma) + exp_eps * exp_eps / 8) = rho self.
Proof.
  intros Hb Hn Hrho Halpha.
  apply run_budget_values in Hb as (_ & Hn0 & Hr & Hq & Hs & He).
  assert (HnR : 0 < IZR n) by (apply IZR_lt; lia).
  assert (Hrpos : 0 < rho_r).
  { rewrite Hr. apply Rdiv_lt_0_compat; assumption. }
  assert (Hqpos : 0 < alpha * rho_r) by (apply Rmult_lt_0_compat; lra).
  assert (Hq2 : 0 < 0.5 / (alpha * rho_r)) by (apply Rdiv_lt_0_compat; lra).
  assert (He2 : 0 <= 8 * (1 - alpha) * rho_r).
  { apply Rmult_le_pos; [lra | lra]. }
  assert (Hss : sigma * sigma = 0.5 / (alpha * rho_r)).
  { rewrite Hs. apply sqrt_sqrt. lra. }
  assert (Hee : exp_eps * exp_eps = 8 * (1 - alpha) * rho_r).
  { rewrite He. apply sqrt_sqrt. exact He2. }
  assert (H1 : 0.5 / (sigma * sigma) = alpha * rho_r).
  { rewrite Hss. field. lra. }
  assert (H2 : exp_eps * exp_eps / 8 = (1 - alpha) * rho_r).
  { rewrite Hee. field. }
  split; [rewrite Hs; apply sqrt_lt_R0; exact Hq2 |].
  split; [rewrite He; apply sqrt_pos |].
  split; [exact H1 |]. split; [exact H2 |].
  rewrite H1, H2, Hr. field. lra.
Qed.

(** X2.  For the same mechanism and workload, with at least one round and
    [rho > 0], a larger [alpha] in [(0, 1]] gives a smaller or equal
    noise multiplier and a smaller or equal selection strength; the number
    of rounds and the budget of a round do not depend on [alpha]. *)
Theorem budget_monotone (self : MWEM) (workload : list clique) (alpha1 alpha2 : R)
    (n1 n2 : Z) (rho1 rho2 sigma1 sigma2 eps1 eps2 : R) :
  run_budget self workload alpha1 = Ok (n1, rho1, sigma1, eps1) ->
  run_budget self workload alpha2 = Ok (n2, rho2, sigma2, eps2) ->
  (1 <= n1)%Z -> 0 < rho self -> 0 < alpha1 -> alpha1 <= alpha2 -> alpha2 <= 1 ->
  n1 = n2 /\ rho1 = rho2 /\ sigma2 <= sigma1 /\ eps2 <= eps1.
Proof.
  intros Hb1 Hb2 Hn Hrho Ha1 Ha12 Ha2.
  apply run_budget_values in Hb1 as (Hn1 & _ & Hr1 & _ & Hs1 & He1).
  apply run_budget_values in Hb2 as (Hn2 & _ & Hr2 & _ & Hs2 & He2).
  assert (Hnn : n1 = n2) by congruence.
  assert (Hrr : rho1 = rho2) by congruence.
  rewrite <- Hrr in Hs2, He2. clear Hn2 Hr2.
  assert (HnR : 0 < IZR n1) by (apply IZR_lt; lia).
  assert (Hrpos : 0 < rho1).
  { rewrite Hr1. apply Rdiv_lt_0_compat; assumption. }
  split; [exact Hnn |]. split; [exact Hrr |]. split.
  - rewrite Hs1, Hs2. apply sqrt_le_1_alt.
    unfold Rdiv. apply Rmult_le_compat_l; [lra |].
    apply Rinv_le_contravar.
    + apply Rmult_lt_0_compat; lra.
    + apply Rmult_le_compat_r; lra.
  - rewrite He1, He2. apply sqrt_le_1_alt.
    apply Rmult_le_compat_r; [lra |]. lra.
Qed.

End BudgetAccounting.

(** ** The distribution of the selection *)


Section SelectorTrace.

Context {C : Collaborators}.

Lemma np_max_length (x : list R) (m : R) : np_max x = Ok m -> x <> [].
Proof. destruct x; [discriminate | discriminate]. Qed.

(** The two ways a selection can go: it stops before [np.random.choice],
    having recorded its own call only, or it calls [choice] once, with the
    softmax of the scaled scores, and returns the candidate at the index
    drawn. *)
Lemma worst_approximated_trace (self : MWEM) (workload_answers : gmap clique (list R))
    (est : Model) (workload : list clique) (eps : R) (penalty : bool) (w : world) :
  (exists e,
     worst_approximated self workload_answers est workload eps penalty w
     = (inl e, {| np_random := np_random w;
                  calls := calls w ++ [call_worst_approximated est workload eps penalty] |}))
  \/
  (exists errors m,
     length errors = length workload /\
     np_max errors = Ok m /\
     worst_approximated self workload_answers est workload eps penalty w
     = (match fst (np_random_choice (length workload)
                     (softmax (map (fun e => 0.5 * eps / sensitivity self * (e - m)) errors))
                     (np_random w)) with
        | inl e => inl e
        | inr key => py_getitem workload key
        end,
        {| np_random :=
             snd (np_random_choice (length workload)
                    (softmax (map (fun e => 0.5 * eps / sensitivity self * (e - m)) errors))
                    (np_random w));
           calls := calls w
                    ++ [call_worst_approximated est workload eps penalty;
                        call_np_random_choice (length workload)
                          (softmax (map (fun e => 0.5 * eps / sensitivity self * (e - m))
                                      errors))] |})).
Proof.
  remember (worst_approximated self workload_answers est workload eps penalty w) as r
    eqn:Er.
  unfold worst_approximated, worst_approximated_body in Er.
  unfold bind at 1 2 in Er. rewrite record_call_eq in Er.
  unfold bind at 1 in Er.
  match type of Er with context [for_each workload ?body ?fr0 ?w0] =>
    pose proof (error_loop_pure penalty workload fr0 w0) as Hpure;
    pose proof (error_loop_frame penalty workload fr0) as Hframe;
    destruct (for_each workload body fr0 w0) as [[e | fr] w1] eqn:Eloop
  end.
  - left. exists e. cbn [snd] in Hpure. subst w1. exact Er.
  - cbn [snd] in Hpure. subst w1.
    destruct (Hframe _ _ _ Eloop) as (_ & _ & Hw & Hlen).
    cbn [l_workload l_errors length Nat.add] in Hw, Hlen.
    cbv zeta in Er. unfold bind at 1 in Er. unfold lift at 1 in Er.
    destruct (selection_logits self eps (l_errors fr)) as [e | logits] eqn:El.
    + left. exists e. exact Er.
    + apply selection_logits_Ok in El as (m & Em & ->).
      right. exists (l_errors fr), m. split; [exact Hlen |]. split; [exact Em |].
      rewrite Hlen, Hw in Er.
      unfold bind at 1 in Er. rewrite do_np_random_choice_eq in Er.
      cbn [np_random calls] in Er.
      rewrite <- app_assoc in Er. cbn [app] in Er.
      destruct (np_random_choice _ _ (np_random w)) as [[e | key] g']; cbn [fst snd] in *.
      * exact Er.
      * unfold bind, lift, ret in Er.
        destruct (py_getitem workload key) as [e | ax]; exact Er.
Qed.

(** X3.  Whatever the table, the model and the candidates, a vector that
    [worst_approximated] passes to [np.random.choice] has one entry per
    candidate, the entries are positive and add up to one, and there is at
    least one candidate (the sensitivity, by which the code divides, is
    not zero). *)
Theorem selection_probabilities (self : MWEM) (workload_answers : gmap clique (list R))
    (est : Model) (workload : list clique) (eps : R) (penalty : bool) (w : world)
    (new : list call) (n : nat) (p : list R) :
  sensitivity self <> 0 ->
  calls (snd (worst_approximated self workload_answers est workload eps penalty w))
  = calls w ++ new ->
  In (call_np_random_choice n p) new ->
  n = length workload /\ length p = n /\ workload <> [] /\ distribution p.
Proof.
  intros _ Hcalls Hin.
  destruct (worst_approximated_trace self workload_answers est workload eps penalty w)
    as [(e & E) | (errors & m & Hlen & Hm & E)];
    rewrite E in Hcalls; cbn [snd calls] in Hcalls; apply app_inv_head in Hcalls;
    subst new.
  - destruct Hin as [Hin | []]. discriminate Hin.
  - destruct Hin as [Hin | [Hin | []]]; [discriminate Hin |].
    injection Hin as <- <-.
    assert (Hne : map (fun e => 0.5 * eps / sensitivity self * (e - m)) errors <> []).
    { apply np_max_length in Hm. destruct errors; [congruence | discriminate]. }
    split; [reflexivity |].
    split; [rewrite softmax_length, length_map; exact Hlen |].
    split.
    + intros ->. apply np_max_length in Hm. destruct errors; [congruence | discriminate].
    + split; [apply softmax_pos; exact Hne | apply softmax_sum; exact Hne].
Qed.

(** X6.  With [eps = 0] the scores play no part: a vector that
    [worst_approximated] passes to [np.random.choice] is the uniform one
    over the candidates. *)
Theorem selection_uniform (self : MWEM) (workload_answers : gmap clique (list R))
    (est : Model) (workload : list clique) (penalty : bool) (w : world)
    (new : list call) (n : nat) (p : list R) :
  sensitivity self <> 0 ->
  calls (snd (worst_approximated self workload_answers est workload 0 penalty w))
  = calls w ++ new ->
  In (call_np_random_choice n p) new ->
  p = repeat (1 / INR (length workload)) (length workload).
Proof.
  intros _ Hcalls Hin.
  destruct (worst_approximated_trace self workload_answers est workload 0 penalty w)
    as [(e & E) | (errors & m & Hlen & Hm & E)];
    rewrite E in Hcalls; cbn [snd calls] in Hcalls; apply app_inv_head in Hcalls;
    subst new.
  - destruct Hin as [Hin | []]. discriminate Hin.
  - destruct Hin as [Hin | [Hin | []]]; [discriminate Hin |].
    injection Hin as _ <-. rewrite <- Hlen. clear.
    replace (map (fun e => 0.5 * 0 / sensitivity self * (e - m)) errors)
      with (map (fun _ : R => 0) errors)
      by (apply map_ext; intros e; unfold Rdiv; ring).
    apply softmax_zero.
Qed.

End SelectorTrace.

Section SelectorScores.

Context {C : Collaborators}.

Variables (self : MWEM) (workload_answers : gmap clique (list R)) (est : Model)
  (workload : list clique) (eps : R) (penalty : bool).

Hypothesis Hcovered : forall cl, In cl workload ->
  exists x, workload_answers !! cl = Some x /\
            length x = length (factor_datavector (est_project est cl)).

Hypothesis Hnonempty : workload <> [].

(** The vector passed to [choice] for covered candidates, the maximum
    removed from it. *)
Lemma selection_vector (w : world) :
  calls (snd (worst_approximated self workload_answers est workload eps penalty w))
  = calls w
    ++ [call_worst_approximated est workload eps penalty;
        call_np_random_choice (length workload)
          (softmax (map (fun cl => eps / (2 * sensitivity self)
                                   * spec_error workload_answers est penalty cl)
                      workload))].
Proof.
  destruct (np_max_nonempty (map (spec_error workload_answers est penalty) workload))
    as (m & Hm).
  { destruct workload; [congruence | discriminate]. }
  rewrite (worst_approximated_covered self workload_answers est workload eps penalty w m
             Hcovered Hm).
  cbn [snd calls].
  rewrite <- (softmax_shift
                (map (fun cl => eps / (2 * sensitivity self)
                                * spec_error workload_answers est penalty cl) workload)
                (eps / (2 * sensitivity self) * m)).
  rewrite !map_map.
  rewrite (List.map_ext
             (fun cl => 0.5 * eps / sensitivity self
                        * (spec_error workload_answers est penalty cl - m))
             (fun cl => eps / (2 * sensitivity self)
                        * spec_error workload_answers est penalty cl
                        - eps / (2 * sensitivity self) * m)).
  - reflexivity.
  - intros cl. rewrite selection_scale. ring.
Qed.

(** X4.  For a non-empty list of candidates that the table covers, the
    probability that [worst_approximated] gives to a candidate is
    proportional to [exp (eps * error / (2 * sensitivity))]: subtracting
    the greatest error, as the code does, changes none of the
    probabilities. *)
Theorem selection_exponential_weights (w : world) :
  sensitivity self <> 0 ->
  exists total : R,
    0 < total /\
    total = np_sum (map (fun cl => exp (eps / (2 * sensitivity self)
                                        * spec_error workload_answers est penalty cl))
                      workload) /\
    calls (snd (worst_approximated self workload_answers est workload eps penalty w))
    = calls w
      ++ [call_worst_approximated est workload eps penalty;
          call_np_random_choice (length workload)
            (map (fun cl => exp (eps / (2 * sensitivity self)
                                 * spec_error workload_answers est penalty cl) / total)
               workload)].
Proof.
  intros _.
  set (f := fun cl => eps / (2 * sensitivity self)
                      * spec_error workload_answers est penalty cl).
  exists (np_sum (map exp (map f workload))).
  split; [| split].
  - apply np_sum_exp_pos. destruct workload; [congruence | discriminate].
  - rewrite map_map. reflexivity.
  - rewrite selection_vector. fold f. unfold softmax. cbv zeta.
    rewrite (map_map f). reflexivity.
Qed.

(** X5.  Under the same conditions, the probabilities of two candidates
    are in the ratio [exp (eps * (e_i - e_j) / (2 * sensitivity))] of
    their errors; with [eps >= 0] and a positive sensitivity a candidate
    with a smaller or equal error has a smaller or equal probability. *)
Theorem selection_odds (w : world) (i j : nat) (ci cj : clique) :
  sensitivity self <> 0 ->
  nth_error workload i = Some ci ->
  nth_error workload j = Some cj ->
  let e_i := spec_error workload_answers est penalty ci in
  let e_j := spec_error workload_answers est penalty cj in
  exists (p : list R) (p_i p_j : R),
    calls (snd (worst_approximated self workload_answers est workload eps penalty w))
    = calls w ++ [call_worst_approximated est workload eps penalty;
                  call_np_random_choice (length workload) p] /\
    nth_error p i = Some p_i /\
    nth_error p j = Some p_j /\
    p_i = p_j * exp (eps / (2 * sensitivity self) * (e_i - e_j)) /\
    (0 <= eps -> 0 < sensitivity self -> e_i <= e_j -> p_i <= p_j).
Proof.
  intros _ Hi Hj e_i e_j.
  set (c := eps / (2 * sensitivity self)).
  set (f := fun cl => c * spec_error workload_answers est penalty cl).
  assert (Hpos : 0 < np_sum (map exp (map f workload))).
  { apply np_sum_exp_pos. destruct workload; [congruence | discriminate]. }
  exists (softmax (map f workload)),
         (exp (c * e_i) / np_sum (map exp (map f workload))),
         (exp (c * e_j) / np_sum (map exp (map f workload))).
  split; [apply selection_vector |].
  split; [apply softmax_nth; rewrite nth_error_map, Hi; reflexivity |].
  split; [apply softmax_nth; rewrite nth_error_map, Hj; reflexivity |].
  split.
  - replace (c * e_i) with (c * e_j + c * (e_i - e_j)) by ring.
    rewrite exp_plus. field. lra.
  - intros Heps Hsens Hle.
    assert (Hc : 0 <= c).
    { unfold c. apply Rmult_le_pos; [exact Heps |].
      apply Rlt_le, Rinv_0_lt_compat. lra. }
    assert (Hexp : exp (c * e_i) <= exp (c * e_j)).
    { assert (Hce : c * e_i <= c * e_j) by (apply Rmult_le_compat_l; assumption).
      destruct Hce as [Hlt | Heq].
      - apply Rlt_le, exp_increasing. exact Hlt.
      - rewrite Heq. lra. }
    unfold Rdiv. apply Rmult_le_compat_r; [| exact Hexp].
    apply Rlt_le, Rinv_0_lt_compat. exact Hpos.
Qed.

End SelectorScores.

(** ** The failures of the selection *)

Section SelectorFailures.

Context {C : Collaborators}.

Lemma np_broadcast_mismatch (op : R -> R -> R) (x y : list R) :
  length x <> length y -> length x <> 1%nat -> length y <> 1%nat ->
  np_broadcast op x y = Raise (ValueError (broadcast_mismatch (length x) (length y))).
Proof.
  intros Hxy Hx Hy. unfold np_broadcast.
  destruct (Nat.eqb_spec (length x) (length y)) as [E | _]; [contradiction |].
  destruct x as [| a [| a' x']]; destruct y as [| b [| b' y']];
    cbn [length] in *; try congruence; reflexivity.
Qed.

(** The loop over the candidates stops at the first one whose score cannot
    be computed, with the exception of that step. *)
Lemma error_loop_stops (penalty : bool) (pre post : list clique) (cl : clique)
    (fr0 : locals) (w : world) (e : exn) :
  (forall c, In c pre ->
     exists x, l_workload_answers fr0 !! c = Some x /\
               length x = length (factor_datavector (est_project (l_est fr0) c))) ->
  (forall errors,
     error_step penalty cl {| l_workload_answers := l_workload_answers fr0;
                              l_est := l_est fr0;
                              l_workload := l_workload fr0;
                              l_errors := errors |} = Raise e) ->
  for_each (pre ++ cl :: post) (fun cl fr => lift (error_step penalty cl fr)) fr0 w
  = (inl e, w).
Proof.
  intros Hcov Hstep. rewrite for_each_app.
  unfold bind at 1. rewrite (error_loop_covered penalty pre fr0 w Hcov).
  cbn [for_each]. unfold bind at 1. unfold lift at 1. rewrite Hstep. reflexivity.
Qed.

Lemma worst_approximated_stops (self : MWEM) (workload_answers : gmap clique (list R))
    (est : Model) (pre post : list clique) (cl : clique) (eps : R) (penalty : bool)
    (w : world) (e : exn) :
  (forall c, In c pre ->
     exists x, workload_answers !! c = Some x /\
               length x = length (factor_datavector (est_project est c))) ->
  (forall errors,
     error_step penalty cl {| l_workload_answers := workload_answers;
                              l_est := est;
                              l_workload := pre ++ cl :: post;
                              l_errors := errors |} = Raise e) ->
  worst_approximated self workload_answers est (pre ++ cl :: post) eps penalty w
  = (inl e,
     {| np_random := np_random w;
        calls := calls w
                 ++ [call_worst_approximated est (pre ++ cl :: post) eps penalty] |}).
Proof.
  intros Hcov Hstep. unfold worst_approximated, worst_approximated_body.
  apply bind_Raise.
  rewrite (bind_step _ _ _ _ _ (record_call_eq _ w)).
  apply bind_Raise.
  apply (error_loop_stops penalty pre post cl
           {| l_workload_answers := workload_answers; l_est := est;
              l_workload := pre ++ cl :: post; l_errors := [] |}).
  - exact Hcov.
  - exact Hstep.
Qed.

(** X7.  When a candidate has no entry in the table of true answers, and
    the candidates before it have one of the shape of the model's
    marginal, [worst_approximated] raises [KeyError] for that candidate:
    it has recorded its call, and it has drawn nothing. *)
Theorem selection_KeyError (self : MWEM) (workload_answers : gmap clique (list R))
    (est : Model) (pre post : list clique) (cl : clique) (eps : R) (penalty : bool)
    (w : world) :
  (forall c, In c pre ->
     exists x, workload_answers !! c = Some x /\
               length x = length (factor_datavector (est_project est c))) ->
  workload_answers !! cl = None ->
  worst_approximated self workload_answers est (pre ++ cl :: post) eps penalty w
  = (inl (KeyError cl),
     {| np_random := np_random w;
        calls := calls w
                 ++ [call_worst_approximated est (pre ++ cl :: post) eps penalty] |}).
Proof.
  intros Hcov Hnone. apply worst_approximated_stops; [exact Hcov |].
  intros errors. unfold error_step, dict_getitem. cbn [l_workload_answers].
  rewrite Hnone. reflexivity.
Qed.

(** X8.  When the true marginal of a candidate and the model's marginal
    have different lengths, neither of them [1], the subtraction cannot
    broadcast and [worst_approximated] raises numpy's [ValueError]; with a
    true marginal of one entry and a longer model marginal nothing is
    raised in the loop: the entry is subtracted from every entry of the
    model's marginal. *)
Theorem selection_shape_mismatch (self : MWEM) (workload_answers : gmap clique (list R))
    (est : Model) (pre post : list clique) (cl : clique) (eps : R) (penalty : bool)
    (w : world) (x : list R) :
  (forall c, In c pre ->
     exists x, workload_answers !! c = Some x /\
               length x = length (factor_datavector (est_project est c))) ->
  workload_answers !! cl = Some x ->
  let xest := factor_datavector (est_project est cl) in
  length x <> length xest ->
  (length x <> 1%nat -> length xest <> 1%nat ->
   worst_approximated self workload_answers est (pre ++ cl :: post) eps penalty w
   = (inl (ValueError (broadcast_mismatch (length x) (length xest))),
      {| np_random := np_random w;
         calls := calls w
                  ++ [call_worst_approximated est (pre ++ cl :: post) eps penalty] |})) /\
  (forall a, x = [a] ->
     forall fr,
       l_workload_answers fr = workload_answers -> l_est fr = est ->
       exists fr',
         error_step penalty cl fr = Ok fr' /\
         l_errors fr'
         = l_errors fr
           ++ [np_sum (map (fun b => Rabs (a - b)) xest)
               - (if penalty then IZR (domain_size (est_domain est) cl) else 0)]).
Proof.
  intros Hcov Hx xest Hlen. subst xest. split.
  - intros H1 H2. apply worst_approximated_stops; [exact Hcov |].
    intros errors. unfold error_step, dict_getitem. cbn [l_workload_answers l_est].
    rewrite Hx. unfold result_bind at 1. unfold Ok at 1. unfold np_sub.
    rewrite (np_broadcast_mismatch Rminus x _ Hlen H1 H2). reflexivity.
  - intros a -> fr Ha He. eexists. split.
    + unfold error_step, dict_getitem. rewrite Ha, He, Hx.
      unfold result_bind at 1. unfold Ok at 1. unfold np_sub, np_broadcast.
      destruct (Nat.eqb_spec (length [a])
                  (length (factor_datavector (est_project est cl)))) as [E | _];
        [contradiction |].
      cbn [result_bind Ok]. reflexivity.
    + cbn [l_errors]. unfold np_append, np_abs. rewrite map_map. reflexivity.
Qed.

End SelectorFailures.


(** ** The table of true answers *)

Section Table.

Context {C : Collaborators}.

(** X9.  When the dict comprehension of [run] has built the table (the
    projections of the data are taken to return), it has projected the
    data once per entry of the workload, in order, repeated entries
    included, and the table has the marginal of the data for every clique
    of the workload and no other key. *)
Theorem workload_answers_table (data : Dataset) (workload : list clique) (w w' : world)
    (answers : gmap clique (list R)) :
  compute_workload_answers data workload w = (inr answers, w') ->
  calls w' = calls w ++ map call_data_project workload /\
  count is_data_project (map call_data_project workload) = length workload /\
  (forall cl, In cl workload ->
     answers !! cl = Some (data_datavector (data_project data cl))) /\
  (forall cl, ~ In cl workload -> answers !! cl = None).
Proof.
  intros H.
  destruct (workload_answers_loop data workload ∅ w) as (answers' & E & Hin & Hout).
  unfold compute_workload_answers in H. rewrite E in H. injection H as <- <-.
  split; [reflexivity |]. split.
  - clear. unfold count. induction workload as [| cl rest IH]; [reflexivity |].
    cbn [map List.filter is_data_project length]. f_equal. exact IH.
  - split; [exact Hin |].
    intros cl Hcl. rewrite (Hout cl Hcl). apply lookup_empty.
Qed.

End Table.


(** ** The calls of a run *)

Section RunTrace.

Context {C : Collaborators}.

Lemma count_app (f : call -> bool) (a b : list call) :
  count f (a ++ b) = (count f a + count f b)%nat.
Proof. unfold count. rewrite List.filter_app, length_app. reflexivity. Qed.

Lemma count_concat (f : call -> bool) (k : nat) (l : list (list call)) :
  Forall (fun cs => count f cs = k) l -> count f (concat l) = (length l * k)%nat.
Proof.
  induction 1 as [| cs l Hcs _ IH]; [reflexivity |].
  cbn [concat length]. rewrite count_app, Hcs, IH. lia.
Qed.

Lemma count_round_trace (engine : Engine) (total : option Z) (cs : list call) :
  round_trace engine total cs ->
  count is_data_project cs = 1%nat /\
  count is_worst_approximated cs = 1%nat /\
  count is_np_random_normal cs = 1%nat /\
  count is_engine_estimate cs = 1%nat.
Proof.
  intros (est0 & offered & eps & p & i & ax & scale & n & log & ->).
  destruct (isinstance_FactoredInference engine); repeat split; reflexivity.
Qed.

(** The first call of a computation that begins with one. *)
Lemma first_call_bind {A B : Type} (c : call) (m : M A) (k : A -> M B) :
  (forall w, exists r, calls (snd (m w)) = calls w ++ c :: r) ->
  (forall a, appends (fun _ => True) (k a)) ->
  forall w, exists r, calls (snd (bind m k w)) = calls w ++ c :: r.
Proof.
  intros Hm Hk w. destruct (Hm w) as (r & Hr). unfold bind.
  destruct (m w) as [[e | a] w1]; cbn [snd] in *.
  - exists r. exact Hr.
  - destruct (appends_calls _ _ w1 (Hk a)) as (new & Hnew & _).
    exists (r ++ new). rewrite Hnew, Hr, <- app_assoc. reflexivity.
Qed.

Lemma worst_approximated_first_call (self : MWEM)
    (workload_answers : gmap clique (list R)) (est : Model) (offered : list clique)
    (eps : R) (penalty : bool) (w : world) :
  exists r,
    calls (snd (worst_approximated self workload_answers est offered eps penalty w))
    = calls w ++ call_worst_approximated est offered eps penalty :: r.
Proof.
  destruct (worst_approximated_trace self workload_answers est offered eps penalty w)
    as [(e & H) | (errors & m & _ & _ & H)]; rewrite H; cbn [snd calls]; eexists;
    reflexivity.
Qed.

Lemma run_call_uses_budget (self : MWEM) (engine : Engine) (sigma exp_eps : R)
    (total records : option Z) (c : call) :
  run_call self engine sigma exp_eps total records c -> uses_budget self sigma exp_eps c.
Proof.
  destruct c; cbn [run_call uses_budget]; intros H; try exact I.
  - destruct H as [H _]. exact H.
  - exact H.
Qed.

(** The call that makes the first model is recorded, whatever its outcome. *)
Lemma initial_model_calls (self : MWEM) (data : Dataset) (engine : Engine)
    (total : option Z) (w : world) :
  calls (snd (initial_model self data engine total w))
  = calls w
    ++ [if isinstance_FactoredInference engine
        then call_engine_estimate [] total
        else call_ParticleModel (data_domain data) (engine_embedding engine)
               (engine_n_particles engine) (data_init self)].
Proof.
  unfold initial_model. destruct (isinstance_FactoredInference engine).
  - unfold bind. rewrite do_engine_estimate_eq.
    destruct (fst (engine_estimate engine [] total (np_random w))) as [e | [est0 l]];
      reflexivity.
  - rewrite do_ParticleModel_eq. reflexivity.
Qed.

Variables (self : MWEM) (data : Dataset) (workload : list clique) (engine : Engine)
  (total : option Z) (workload_answers : gmap clique (list R)) (sigma exp_eps : R)
  (n_rounds : Z).

Let loop := run_loop self data workload engine total workload_answers sigma exp_eps n_rounds.

(** The calls of a round that completes. *)
Lemma round_body_trace (i : Z) (st st' : loop_state) (w w' : world) :
  round_body self data workload engine (data_domain data) total workload_answers
    sigma exp_eps n_rounds i st w = (inr st', w') ->
  exists cs, round_trace engine total cs /\ calls w' = calls w ++ cs.
Proof.
  intros H. apply round_body_Ok in H as (ax & w1 & noise & y & l & H).
  cbv zeta in H. destruct H as (Hsel & _ & _ & _ & _ & _ & _ & Hc).
  apply worst_approximated_Ok in Hsel as (fr & Hsel).
  apply worst_approximated_body_Ok in Hsel
    as (_ & _ & _ & _ & m & key & Hsel).
  cbv zeta in Hsel. destruct Hsel as (_ & _ & _ & Hw1).
  eexists. split.
  - unfold round_trace. eexists (est st), _, exp_eps, _, i, ax, _, _, _. reflexivity.
  - rewrite Hc, Hw1. cbn [calls]. rewrite <- !app_assoc. reflexivity.
Qed.

Lemma run_loop_trace (indices : list Z) (st st' : loop_state) (w w' : world) :
  loop indices st w = (inr st', w') ->
  exists per_round,
    length per_round = length indices /\
    Forall (round_trace engine total) per_round /\
    calls w' = calls w ++ concat per_round.
Proof.
  intros H.
  pose (I := fun (done : list Z) (_ : loop_state) (v : world) =>
    exists per_round,
      length per_round = length done /\
      Forall (round_trace engine total) per_round /\
      calls v = calls w ++ concat per_round).
  change (I ([] ++ indices) st' w').
  unfold loop, run_loop in H.
  eapply for_each_invariant; [| | exact H].
  - intros done i s v s' v' (per_round & Hlen & Hall & Hcalls) Hround.
    apply round_body_trace in Hround as (cs & Hcs & Hv').
    exists (per_round ++ [cs]). split; [| split].
    + rewrite !length_app, Hlen. reflexivity.
    + apply Forall_app. split; [exact Hall |]. constructor; [exact Hcs | constructor].
    + rewrite Hv', Hcalls, concat_app. cbn [concat]. rewrite app_nil_r, app_assoc.
      reflexivity.
  - exists []. split; [reflexivity |]. split; [constructor |].
    cbn [concat]. rewrite app_nil_r. reflexivity.
Qed.

(** The calls of a round that completes carry the share of the budget
    that the round was given. *)
Lemma round_body_budget_trace (i : Z) (st st' : loop_state) (w w' : world) :
  round_body self data workload engine (data_domain data) total workload_answers
    sigma exp_eps n_rounds i st w = (inr st', w') ->
  exists cs, budget_round self engine total sigma exp_eps cs /\ calls w' = calls w ++ cs.
Proof.
  intros H. apply round_body_Ok in H as (ax & w1 & noise & y & l & H).
  cbv zeta in H. destruct H as (Hsel & _ & _ & _ & _ & _ & _ & Hc).
  apply worst_approximated_Ok in Hsel as (fr & Hsel).
  apply worst_approximated_body_Ok in Hsel
    as (_ & _ & _ & _ & m & key & Hsel).
  cbv zeta in Hsel. destruct Hsel as (_ & _ & _ & Hw1).
  eexists. split.
  - unfold budget_round. eexists (est st), _, _, i, ax, _, _. reflexivity.
  - rewrite Hc, Hw1. cbn [calls]. rewrite <- !app_assoc. reflexivity.
Qed.

Lemma run_loop_budget_trace (indices : list Z) (st st' : loop_state) (w w' : world) :
  loop indices st w = (inr st', w') ->
  exists per_round,
    length per_round = length indices /\
    Forall (budget_round self engine total sigma exp_eps) per_round /\
    calls w' = calls w ++ concat per_round.
Proof.
  intros H.
  pose (I := fun (done : list Z) (_ : loop_state) (v : world) =>
    exists per_round,
      length per_round = length done /\
      Forall (budget_round self engine total sigma exp_eps) per_round /\
      calls v = calls w ++ concat per_round).
  change (I ([] ++ indices) st' w').
  unfold loop, run_loop in H.
  eapply for_each_invariant; [| | exact H].
  - intros done i s v s' v' (per_round & Hlen & Hall & Hcalls) Hround.
    apply round_body_budget_trace in Hround as (cs & Hcs & Hv').
    exists (per_round ++ [cs]). split; [| split].
    + rewrite !length_app, Hlen. reflexivity.
    + apply Forall_app. split; [exact Hall |]. constructor; [exact Hcs | constructor].
    + rewrite Hv', Hcalls, concat_app. cbn [concat]. rewrite app_nil_r, app_assoc.
      reflexivity.
  - exists []. split; [reflexivity |]. split; [constructor |].
    cbn [concat]. rewrite app_nil_r. reflexivity.
Qed.

(** A round begins with the selection, whatever becomes of it. *)
Lemma round_body_first_call (i : Z) (st : loop_state) (w : world) :
  exists rest,
    calls (snd (round_body self data workload engine (data_domain data) total
                  workload_answers sigma exp_eps n_rounds i st w))
    = calls w
      ++ call_worst_approximated (est st)
           (if isinstance_FactoredInference engine
            then candidates self (data_domain data) workload (cliques st) i n_rounds
            else workload) exp_eps true
         :: rest /\
    Forall (uses_budget self sigma exp_eps) rest.
Proof.
  destruct (appends_calls _ _ w
              (appends_round_body self data workload engine (data_domain data) total None
                 workload_answers sigma exp_eps n_rounds i st))
    as (new & Hnew & Hall).
  assert (Hfirst : exists r,
    calls (snd (round_body self data workload engine (data_domain data) total
                  workload_answers sigma exp_eps n_rounds i st w))
    = calls w
      ++ call_worst_approximated (est st)
           (if isinstance_FactoredInference engine
            then candidates self (data_domain data) workload (cliques st) i n_rounds
            else workload) exp_eps true
         :: r).
  { unfold round_body. apply first_call_bind.
    - intros w0. destruct (isinstance_FactoredInference engine).
      + apply first_call_bind; [intros w1; apply worst_approximated_first_call |].
        intros ax. apply appends_bind; [| intros _; apply appends_ret].
        apply appends_record_call. exact I.
      + apply worst_approximated_first_call.
    - intros ax.
      apply appends_bind; [apply appends_do_data_project; exact I | intros x].
      apply appends_bind; [apply appends_do_np_random_normal; exact I | intros noise].
      apply appends_bind; [apply appends_lift | intros y].
      apply appends_bind; [| intros [est' l]; apply appends_ret].
      apply appends_do_engine_estimate. exact I. }
  destruct Hfirst as (r & Hr). exists r. split; [exact Hr |].
  rewrite Hr in Hnew. apply app_inv_head in Hnew. subst new.
  inversion Hall as [| c cs _ Htail]. subst.
  eapply Forall_impl; [exact Htail |]. intros c. apply run_call_uses_budget.
Qed.

(** The calls of the rounds, whatever the outcome of the loop: those of
    the rounds that completed, then those of the round that did not, if
    there is one. *)
Lemma run_loop_any (indices : list Z) :
  forall (st : loop_state) (w : world),
  exists per_round partial,
    (length per_round <= length indices)%nat /\
    Forall (budget_round self engine total sigma exp_eps) per_round /\
    round_started self sigma exp_eps partial /\
    calls (snd (loop indices st w)) = calls w ++ concat per_round ++ partial /\
    forall st' w', loop indices st w = (inr st', w') ->
      length per_round = length indices /\ partial = [].
Proof.
  unfold loop, run_loop.
  induction indices as [| i rest IH]; intros st w.
  - exists [], []. cbn [for_each ret snd concat app length].
    split; [lia |]. split; [constructor |]. split; [left; reflexivity |].
    split; [rewrite app_nil_r; reflexivity |]. intros st' w' _. split; reflexivity.
  - cbn [for_each].
    destruct (round_body_first_call i st w) as (r & Hr & Hbudget).
    destruct (round_body self data workload engine (data_domain data) total
                workload_answers sigma exp_eps n_rounds i st w) as [[e | st1] w1] eqn:E.
    + rewrite (bind_Raise _ _ _ _ _ E).
      cbn [snd] in Hr. eexists [], _. cbn [concat app length snd].
      split; [lia |]. split; [constructor |]. split.
      * right. eexists _, _, r. split; [reflexivity | exact Hbudget].
      * split; [exact Hr |]. intros st' w' H. discriminate H.
    + rewrite (bind_step _ _ _ _ _ E).
      apply round_body_budget_trace in E as (cs & Hcs & Hw1).
      destruct (IH st1 w1) as (per_round & partial & Hlen & Hall & Hpart & Hcalls & Hdone).
      exists (cs :: per_round), partial. cbn [length concat].
      split; [lia |]. split; [constructor; assumption |]. split; [exact Hpart |].
      split; [rewrite Hcalls, Hw1, <- !app_assoc; reflexivity |].
      intros st' w' H. destruct (Hdone st' w' H) as (Hl & Hp).
      split; [rewrite Hl; reflexivity | exact Hp].
Qed.

(** The model and the loss after the last round are what the last call of
    [engine.estimate], on the whole log, returned. *)
Lemma run_loop_last_estimate (indices : list Z) (st st' : loop_state) (w w' : world) :
  loop indices st w = (inr st', w') ->
  indices <> [] ->
  exists g l,
    engine_estimate engine (measurements st') total g = (inr (est st', l), np_random w') /\
    loss st' = Some l.
Proof.
  intros H.
  pose (I := fun (done : list Z) (s : loop_state) (v : world) =>
    done <> [] ->
    exists g l,
      engine_estimate engine (measurements s) total g = (inr (est s, l), np_random v) /\
      loss s = Some l).
  change (I ([] ++ indices) st' w').
  unfold loop, run_loop in H.
  eapply for_each_invariant; [| | exact H].
  - intros done i s v s' v' _ Hround _.
    apply round_body_Ok in Hround as (ax & w1 & noise & y & l & Hround).
    cbv zeta in Hround. destruct Hround as (_ & _ & _ & He & Hm & Hl & _).
    eexists _, l. rewrite Hm. split; [exact He | exact Hl].
  - intros Hne. congruence.
Qed.

(** The cliques of the log are the selected cliques, and they come from
    the workload. *)
Lemma run_loop_selected (indices : list Z) (st st' : loop_state) (w w' : world) :
  map snd (measurements st) = cliques st ->
  Forall (fun c => In c workload) (cliques st) ->
  loop indices st w = (inr st', w') ->
  map snd (measurements st') = cliques st' /\
  Forall (fun c => In c workload) (cliques st').
Proof.
  intros Hm0 Hc0 H.
  pose (I := fun (done : list Z) (s : loop_state) (_ : world) =>
    map snd (measurements s) = cliques s /\
    Forall (fun c => In c workload) (cliques s)).
  change (I ([] ++ indices) st' w').
  unfold loop, run_loop in H.
  eapply for_each_invariant; [| | exact H].
  - intros done i s v s' v' (Hms & Hcs) Hround.
    apply round_body_Ok in Hround as (ax & w1 & noise & y & l & Hround).
    cbv zeta in Hround. destruct Hround as (Hsel & _ & _ & _ & Hm & _ & Hc & _).
    apply worst_approximated_In in Hsel.
    assert (Hin : In ax workload).
    { destruct (isinstance_FactoredInference engine); [| exact Hsel].
      unfold candidates in Hsel. apply filter_In in Hsel. tauto. }
    split.
    + rewrite Hm, Hc, List.map_app. apply (f_equal2 (@app clique)); [exact Hms | reflexivity].
    + rewrite Hc. apply Forall_app. split; [exact Hcs |].
      constructor; [exact Hin | constructor].
  - split; assumption.
Qed.

End RunTrace.

Section RunAccount.

Context {C : Collaborators}.

(** C1.  With [R = min(len(workload), rounds) >= 1], [rho > 0] and
    [0 < alpha < 1], the split computes [rho_r = rho / R],
    [sigma = sqrt(0.5 / (alpha * rho_r))] and
    [eps_sel = sqrt(8 * (1 - alpha) * rho_r)] before the loop.  Whatever
    the outcome of the run, no selection in it has another strength than
    [eps_sel] and no draw of noise another scale than
    [marginal_sensitivity * sigma]; and the calls of the rounds, after
    those of the table and of the first model, are: for each round that
    completed, in this order, one selection with strength [eps_sel], its
    draw, the projection of the data and one draw of noise of scale
    [marginal_sensitivity * sigma], followed by the estimation; and, for
    the round that did not complete, if there is one, the selection with
    strength [eps_sel] first.  When the rounds complete, [R] of them
    have. *)
Theorem budget_split_fixed (self : MWEM) (data : Dataset) (workload : list clique)
    (engine : Engine) (alpha : R) (records : option Z) :
  let n := Z.min (Z.of_nat (length workload)) (rounds self) in
  (1 <= n)%Z -> 0 < rho self -> 0 < alpha < 1 ->
  let rho_r := rho self / IZR n in
  let sigma := sqrt (0.5 / (alpha * rho_r)) in
  let eps_sel := sqrt (8 * (1 - alpha) * rho_r) in
  let total := if bounded self then Some (data_records data) else None in
  let init := if isinstance_FactoredInference engine
              then call_engine_estimate [] total
              else call_ParticleModel (data_domain data) (engine_embedding engine)
                     (engine_n_particles engine) (data_init self) in
  run_budget self workload alpha = Ok (n, rho_r, sigma, eps_sel) /\
  (forall w, exists new,
     calls (snd (run self data workload engine alpha records w)) = calls w ++ new /\
     Forall (uses_budget self sigma eps_sel) new) /\
  forall w, exists per_round partial,
    (length per_round <= Z.to_nat n)%nat /\
    Forall (budget_round self engine total sigma eps_sel) per_round /\
    round_started self sigma eps_sel partial /\
    calls (snd (run_rounds self data workload engine alpha w))
    = calls w ++ map call_data_project workload ++ [init] ++ concat per_round ++ partial /\
    forall st w', run_rounds self data workload engine alpha w = (inr st, w') ->
      length per_round = Z.to_nat n /\ partial = [].
Proof.
  intros n Hn Hrho Halpha rho_r sigma eps_sel total init.
  assert (Hb : run_budget self workload alpha = Ok (n, rho_r, sigma, eps_sel)).
  { apply run_budget_Ok; [fold n; lia | lra | lra]. }
  split; [exact Hb |]. split.
  - intros w. apply appends_calls.
    eapply appends_weaken; [| apply appends_run].
    intros c Hc. specialize (Hc _ _ _ _ Hb).
    eapply run_call_uses_budget. exact Hc.
  - intros w.
    destruct (compute_workload_answers_eq data workload w) as (answers & Ha & _).
    assert (Hrounds : run_rounds self data workload engine alpha w
                      = (let* est0 := initial_model self data engine total in
                         run_loop self data workload engine total answers sigma eps_sel n
                           (py_range 1 (n + 1))
                           {| measurements := []; est := est0; loss := None;
                              cliques := [] |})
                          {| np_random := np_random w;
                             calls := calls w ++ map call_data_project workload |}).
    { unfold run_rounds. rewrite Hb.
      unfold bind at 1. unfold lift at 1. unfold Ok at 1. cbv beta iota.
      rewrite (bind_step _ _ _ _ _ Ha). reflexivity. }
    rewrite Hrounds. unfold bind at 1 2.
    pose proof (initial_model_calls self data engine total
                  {| np_random := np_random w;
                     calls := calls w ++ map call_data_project workload |}) as Hinit.
    fold init in Hinit. cbn [calls] in Hinit.
    destruct (initial_model self data engine total _) as [[e | est0] w1];
      cbn [snd] in Hinit.
    + exists [], []. cbn [length concat app snd].
      split; [lia |]. split; [constructor |]. split; [left; reflexivity |].
      split; [rewrite Hinit, <- !app_assoc; reflexivity |].
      intros st w' H. discriminate H.
    + destruct (run_loop_any self data workload engine total answers sigma eps_sel n
                  (py_range 1 (n + 1))
                  {| measurements := []; est := est0; loss := None; cliques := [] |} w1)
        as (per_round & partial & Hlen & Hall & Hpart & Hcalls & Hdone).
      rewrite py_range_length in Hlen, Hdone.
      replace (Z.to_nat (n + 1 - 1)) with (Z.to_nat n) in Hlen, Hdone by (f_equal; lia).
      exists per_round, partial.
      split; [exact Hlen |]. split; [exact Hall |]. split; [exact Hpart |].
      split; [rewrite Hcalls, Hinit, <- !app_assoc; reflexivity | exact Hdone].
Qed.

(** X11.  The calls of a run that returns, in order: one projection of
    the data per entry of the workload, the call that makes the first
    model, then for each of the [R] rounds the selection, its draw, the
    printed line of a size-aware engine, the projection on the selected
    clique, the draw of the noise and the estimation, and at the end the
    printed line and [synthetic_data].  The data is projected
    [len(workload) + R] times, and there are [R] selections and [R]
    draws of noise. *)
Theorem run_trace (self : MWEM) (data : Dataset) (workload : list clique)
    (engine : Engine) (alpha : R) (records : option Z) (w w' : world)
    (out : Dataset * R) :
  run self data workload engine alpha records w = (inr out, w') ->
  let n := Z.to_nat (Z.min (Z.of_nat (length workload)) (rounds self)) in
  let total := if bounded self then Some (data_records data) else None in
  exists (init : call) (per_round : list (list call)) (final : Model) (new : list call),
    calls w' = calls w ++ new /\
    new = map call_data_project workload ++ [init] ++ concat per_round
          ++ [call_print_generating; call_synthetic_data final records] /\
    init = (if isinstance_FactoredInference engine
            then call_engine_estimate [] total
            else call_ParticleModel (data_domain data) (engine_embedding engine)
                   (engine_n_particles engine) (data_init self)) /\
    length per_round = n /\
    Forall (round_trace engine total) per_round /\
    count is_data_project new = (length workload + n)%nat /\
    count is_worst_approximated new = n /\
    count is_np_random_normal new = n /\
    count is_engine_estimate new
    = (if isinstance_FactoredInference engine then S n else n).
Proof.
  intros Hrun n total.
  apply run_Ok in Hrun as (st & w_end & l & Hrounds & _ & _ & _ & Hcalls).
  apply run_rounds_Ok in Hrounds
    as (n' & rho_r & sigma & exp_eps & answers & est0 & w1 & Hb & _ & Hinit & Hloop).
  apply run_budget_rounds in Hb. fold total in Hinit, Hloop.
  apply run_loop_trace in Hloop as (per_round & Hlen & Hall & Hloop).
  rewrite py_range_length in Hlen.
  replace (Z.to_nat (n' + 1 - 1)) with n in Hlen by (unfold n; rewrite Hb; f_equal; lia).
  apply initial_model_Ok in Hinit. cbn [calls] in Hinit.
  set (init := if isinstance_FactoredInference engine
               then call_engine_estimate [] total
               else call_ParticleModel (data_domain data) (engine_embedding engine)
                      (engine_n_particles engine) (data_init self)).
  assert (Hw1 : calls w1 = (calls w ++ map call_data_project workload) ++ [init]).
  { unfold init. destruct (isinstance_FactoredInference engine); tauto. }
  exists init, per_round, (est st),
    (map call_data_project workload ++ [init] ++ concat per_round
     ++ [call_print_generating; call_synthetic_data (est st) records]).
  split; [| split; [reflexivity |]].
  { rewrite Hcalls, Hloop, Hw1. rewrite <- !app_assoc. reflexivity. }
  split; [reflexivity |]. split; [exact Hlen |]. split; [exact Hall |].
  assert (Hproj : count is_data_project (map call_data_project workload)
                  = length workload).
  { clear. unfold count. induction workload as [| cl rest IH]; [reflexivity |].
    cbn [map List.filter is_data_project length]. f_equal. exact IH. }
  assert (Hnone : forall f, (forall cl, f (call_data_project cl) = false) ->
            count f (map call_data_project workload) = O).
  { clear. intros f Hf. unfold count. induction workload as [| cl rest IH];
      [reflexivity |].
    cbn [map List.filter]. rewrite Hf. exact IH. }
  assert (Hper : forall f, (forall cs, round_trace engine total cs -> count f cs = 1%nat) ->
            count f (concat per_round) = n).
  { intros f Hf. rewrite (count_concat f 1).
    - rewrite Hlen. lia.
    - eapply Forall_impl; [exact Hall | exact Hf]. }
  rewrite !count_app, Hproj.
  rewrite !Hnone by reflexivity.
  rewrite !Hper by (intros cs Hcs; apply (count_round_trace engine total cs Hcs)).
  unfold init. destruct (isinstance_FactoredInference engine);
    unfold count; cbn [List.filter is_data_project is_worst_approximated
                         is_np_random_normal is_engine_estimate length];
    repeat split; lia.
Qed.

(** X12.  When [run] returns, the loss it returns and the model it
    samples from are what the last call of [engine.estimate] returned, on
    the log of all [R] measurements, and the dataset is what that model's
    [synthetic_data] returned for [records], drawn right after. *)
Theorem run_returns_last_estimate (self : MWEM) (data : Dataset)
    (workload : list clique) (engine : Engine) (alpha : R) (records : option Z)
    (w w' : world) (out : Dataset * R) :
  run self data workload engine alpha records w = (inr out, w') ->
  let n := Z.to_nat (Z.min (Z.of_nat (length workload)) (rounds self)) in
  let total := if bounded self then Some (data_records data) else None in
  exists (st : loop_state) (w_end : world) (g : Rng),
    run_rounds self data workload engine alpha w = (inr st, w_end) /\
    length (measurements st) = n /\
    engine_estimate engine (measurements st) total g
    = (inr (est st, snd out), np_random w_end) /\
    est_synthetic_data (est st) records (np_random w_end)
    = (inr (fst out), np_random w').
Proof.
  intros Hrun n total.
  apply run_Ok in Hrun as (st & w_end & l & Hrounds & Hloss & Hout & Hsyn & _).
  exists st, w_end.
  pose proof Hrounds as Hparts.
  apply run_rounds_Ok in Hparts
    as (n' & rho_r & sigma & exp_eps & answers & est0 & w1 & Hb & _ & _ & Hloop).
  apply run_budget_rounds in Hb. fold total in Hloop.
  pose proof (run_loop_grows _ _ _ _ _ _ _ _ _ _ _ _ _ _ Hloop)
    as (new & sel & Hm & Hlen & _).
  cbn [measurements app] in Hm. rewrite py_range_length in Hlen.
  assert (Hne : py_range 1 (n' + 1) <> []).
  { intros E. rewrite E in Hloop. unfold run_loop in Hloop. cbn [for_each] in Hloop.
    unfold ret in Hloop. injection Hloop as <- _. cbn [loss] in Hloss.
    discriminate Hloss. }
  destruct (run_loop_last_estimate _ _ _ _ _ _ _ _ _ _ _ _ _ _ Hloop Hne)
    as (g & l' & He & Hl').
  exists g. split; [exact Hrounds |]. split.
  - rewrite Hm, Hlen. unfold n. rewrite Hb. f_equal. lia.
  - split; [| exact Hsyn]. rewrite Hout. rewrite Hloss in Hl'. injection Hl' as <-.
    exact He.
Qed.

(** X15.  When the rounds complete, the cliques of the measurements of
    the log are, in order, the selected cliques, there are [R] of them,
    and each of them is a clique of the workload. *)
Theorem selected_cliques_measured (self : MWEM) (data : Dataset)
    (workload : list clique) (engine : Engine) (alpha : R) (w w' : world)
    (st : loop_state) :
  run_rounds self data workload engine alpha w = (inr st, w') ->
  map snd (measurements st) = cliques st /\
  length (cliques st) = Z.to_nat (Z.min (Z.of_nat (length workload)) (rounds self)) /\
  Forall (fun c => In c workload) (cliques st).
Proof.
  intros Hrounds.
  apply run_rounds_Ok in Hrounds
    as (n & rho_r & sigma & exp_eps & answers & est0 & w1 & Hb & _ & _ & Hloop).
  apply run_budget_rounds in Hb.
  pose proof (run_loop_grows _ _ _ _ _ _ _ _ _ _ _ _ _ _ Hloop)
    as (_ & sel & _ & _ & Hc & Hlen & _).
  cbn [cliques app] in Hc. rewrite py_range_length in Hlen.
  apply run_loop_selected in Hloop as (Hm & Hin); [| reflexivity | constructor].
  split; [exact Hm |]. split; [| exact Hin].
  rewrite Hc, Hlen, Hb. f_equal. lia.
Qed.

End RunAccount.


(** ** The end of a run *)

Section RunEnd.

Context {C : Collaborators}.

Lemma appends_loop_call_round (self : MWEM) (data : Dataset) (workload : list clique)
    (engine : Engine) (domain : Domain) (total : option Z)
    (workload_answers : gmap clique (list R)) (sigma exp_eps : R) (rounds i : Z)
    (st : loop_state) :
  appends loop_call
    (round_body self data workload engine domain total workload_answers sigma exp_eps
       rounds i st).
Proof.
  unfold round_body.
  apply appends_bind.
  { destruct (isinstance_FactoredInference engine).
    - apply appends_bind.
      + apply appends_worst_approximated; [exact I | intros; exact I].
      + intros ax. apply appends_bind; [| intros _; apply appends_ret].
        apply appends_record_call. exact I.
    - apply appends_worst_approximated; [exact I | intros; exact I]. }
  intros ax.
  apply appends_bind; [apply appends_do_data_project; exact I | intros x].
  apply appends_bind; [apply appends_do_np_random_normal; exact I | intros noise].
  apply appends_bind; [apply appends_lift | intros y].
  apply appends_bind; [| intros [est' l]; apply appends_ret].
  apply appends_do_engine_estimate. exact I.
Qed.

(** Up to the end of the round loop no dataset is generated. *)
Lemma appends_loop_call (self : MWEM) (data : Dataset) (workload : list clique)
    (engine : Engine) (alpha : R) :
  appends loop_call (run_rounds self data workload engine alpha).
Proof.
  unfold run_rounds.
  apply appends_bind; [apply appends_lift | intros [[[n rho_r] sigma] exp_eps]].
  apply appends_bind;
    [apply appends_compute_workload_answers; intros cl; exact I | intros answers].
  apply appends_bind.
  { unfold initial_model. destruct (isinstance_FactoredInference engine).
    - apply appends_bind; [| intros [est l]; apply appends_ret].
      apply appends_do_engine_estimate. exact I.
    - apply appends_do_ParticleModel. exact I. }
  intros est0. unfold run_loop. apply appends_for_each. intros i st.
  apply appends_loop_call_round.
Qed.

(** X13.  [synthetic_data] is called at most once, as the last call of
    the run, after the line that announces it, and only when the round
    loop has ended without an exception; it is called on the model of the
    loop's last state.  When the loop raises, [run] raises the same
    exception and has made no other call. *)
Theorem synthetic_data_last (self : MWEM) (data : Dataset) (workload : list clique)
    (engine : Engine) (alpha : R) (records : option Z) (w : world) :
  exists before : list call,
    Forall loop_call before /\
    calls (snd (run_rounds self data workload engine alpha w)) = calls w ++ before /\
    match fst (run_rounds self data workload engine alpha w) with
    | inl e =>
        run self data workload engine alpha records w
        = (inl e, snd (run_rounds self data workload engine alpha w))
    | inr st =>
        calls (snd (run self data workload engine alpha records w))
        = calls w ++ before
          ++ [call_print_generating; call_synthetic_data (est st) records]
    end.
Proof.
  destruct (appends_calls loop_call _ w (appends_loop_call self data workload engine alpha))
    as (before & Hcalls & Hall).
  exists before. split; [exact Hall |]. split; [exact Hcalls |].
  destruct (run_rounds self data workload engine alpha w) as [[e | st] w1] eqn:E;
    cbn [fst snd] in *.
  - unfold run. apply bind_Raise. exact E.
  - unfold run. rewrite (bind_step _ _ _ _ _ E). unfold run_return.
    rewrite (bind_step _ _ _ _ _ (record_call_eq call_print_generating w1)).
    unfold bind at 1. rewrite do_synthetic_data_eq. cbn [np_random calls].
    rewrite Hcalls, <- !app_assoc. cbn [app].
    destruct (fst (est_synthetic_data (est st) records (np_random w1))) as [e | d].
    + reflexivity.
    + destruct (loss st); reflexivity.
Qed.

(** X10.  With a negative number of rounds (and [rho] and [alpha] not
    zero) the loop body never runs: [run] projects the data on the whole
    workload, makes the first model, asks it for the synthetic data and
    then fails on the variable [loss], which no round has bound.  No
    selection is made and no noise is drawn. *)
Theorem run_negative_rounds (self : MWEM) (data : Dataset) (workload : list clique)
    (engine : Engine) (alpha : R) (records : option Z) (w w1 : world) (est0 : Model)
    (d : Dataset) :
  let total := if bounded self then Some (data_records data) else None in
  (rounds self < 0)%Z -> rho self <> 0 -> alpha <> 0 ->
  initial_model self data engine total
    {| np_random := np_random w; calls := calls w ++ map call_data_project workload |}
  = (inr est0, w1) ->
  fst (est_synthetic_data est0 records (np_random w1)) = inr d ->
  run self data workload engine alpha records w
  = (inl (UnboundLocalError "loss"),
     {| np_random := snd (est_synthetic_data est0 records (np_random w1));
        calls := calls w1 ++ [call_print_generating;
                              call_synthetic_data est0 records] |}).
Proof.
  intros total Hneg Hrho Halpha Hinit Hsyn.
  assert (Hmin : Z.min (Z.of_nat (length workload)) (rounds self) = rounds self) by lia.
  pose proof (run_budget_Ok self workload alpha) as Hb. cbv zeta in Hb.
  rewrite Hmin in Hb. specialize (Hb ltac:(lia) Hrho Halpha).
  destruct (compute_workload_answers_eq data workload w) as (answers & Ha & _).
  unfold run.
  erewrite bind_step.
  2: { unfold run_rounds. rewrite Hb.
       unfold bind at 1. unfold lift at 1. unfold Ok at 1. cbv beta iota.
       rewrite (bind_step _ _ _ _ _ Ha). fold total.
       rewrite (bind_step _ _ _ _ _ Hinit).
       rewrite py_range_nil by lia. reflexivity. }
  unfold run_return.
  rewrite (bind_step _ _ _ _ _ (record_call_eq call_print_generating w1)).
  cbn [est loss]. unfold bind at 1. rewrite do_synthetic_data_eq.
  cbn [np_random calls]. rewrite Hsyn. unfold lift.
  rewrite <- app_assoc. reflexivity.
Qed.

(** X16.  [run] returns a dataset and a loss, after [R] measurements,
    whenever there is at least one round, [rho] is positive, [alpha] is
    in [(0, 1]] (the range in which the noise multiplier and the selection
    strength are numbers), the sensitivity is positive and that of a
    marginal is not negative, the collaborators keep their contracts (the
    shapes of the
    marginals; an index in range from [choice] when it is given a vector
    of probabilities; as many numbers as asked from [normal] when the scale
    and the size are not negative; no exception from the engine and the
    models) and, for a size-aware engine, every round has a clique of the
    workload under its cap whatever was selected before. *)
Theorem run_returns (self : MWEM) (data : Dataset) (workload : list clique)
    (engine : Engine) (alpha : R) (records : option Z) (w : world) :
  let n := Z.min (Z.of_nat (length workload)) (rounds self) in
  well_behaved data engine ->
  (1 <= n)%Z -> 0 < rho self -> 0 < alpha <= 1 ->
  0 < sensitivity self -> 0 <= marginal_sensitivity self ->
  (isinstance_FactoredInference engine = true ->
   forall i selected, (1 <= i <= n)%Z ->
     length selected = Z.to_nat (i - 1) ->
     (forall c, In c selected -> In c workload) ->
     candidates self (data_domain data) workload selected i n <> []) ->
  exists (synthetic : Dataset) (l : R) (w' : world) (st : loop_state) (w_end : world),
    run self data workload engine alpha records w = (inr (synthetic, l), w') /\
    run_rounds self data workload engine alpha w = (inr st, w_end) /\
    loss st = Some l /\
    length (measurements st) = Z.to_nat n.
Proof.
  intros n Hbehaved Hn Hrho Halpha _ Hms Hfit.
  destruct (run_completes self data workload engine alpha records w
              Hbehaved Hn Hrho Halpha Hms Hfit) as ([synthetic l] & w' & Hrun).
  pose proof Hrun as Hparts.
  apply run_Ok in Hparts as (st & w_end & l' & Hrounds & Hloss & Hl & _).
  cbn [snd] in Hl. subst l'.
  exists synthetic, l, w', st, w_end.
  split; [exact Hrun |]. split; [exact Hrounds |]. split; [exact Hloss |].
  apply run_rounds_Ok in Hrounds
    as (n' & rho_r & sigma & exp_eps & answers & est0 & w1 & Hb & _ & _ & Hloop).
  apply run_budget_rounds in Hb. fold n in Hb. subst n'.
  pose proof (run_loop_grows _ _ _ _ _ _ _ _ _ _ _ _ _ _ Hloop)
    as (new & _ & Hm & Hlen & _).
  cbn [measurements app] in Hm. rewrite Hm, Hlen, py_range_length. f_equal. lia.
Qed.

End RunEnd.

(** ** The schedule of the model size *)

Section Candidates.

Context {C : Collaborators}.

(** X14.  The candidates of a round are cliques of the workload.  With a
    non-negative [max_model_size] and at least one round the cap grows
    with the index of the round: a clique that is a candidate in round
    [i] is one in every later round [j], for the same selected cliques;
    and in the round of index [R] the candidates are the cliques whose
    model size, with the selected ones, is at most [max_model_size]. *)
Theorem candidates_schedule (self : MWEM) (domain : Domain)
    (workload selected : list clique) (i j n : Z) (cl : clique) :
  0 <= max_model_size self -> (0 < n)%Z -> (i <= j)%Z ->
  In cl (candidates self domain workload selected i n) ->
  In cl workload /\
  size domain (selected ++ [cl]) <= max_model_size self * IZR i / IZR n /\
  In cl (candidates self domain workload selected j n) /\
  (In cl (candidates self domain workload selected n n)
   <-> size domain (selected ++ [cl]) <= max_model_size self).
Proof.
  intros Hcap Hn Hij Hin. unfold candidates in *.
  apply filter_In in Hin as (Hw & Hle). apply py_le_true in Hle.
  assert (HnR : 0 < IZR n) by (apply IZR_lt; exact Hn).
  assert (Hmono : max_model_size self * IZR i / IZR n
                  <= max_model_size self * IZR j / IZR n).
  { unfold Rdiv. apply Rmult_le_compat_r.
    - apply Rlt_le, Rinv_0_lt_compat. exact HnR.
    - apply Rmult_le_compat_l; [exact Hcap | apply IZR_le; exact Hij]. }
  split; [exact Hw |]. split; [exact Hle |]. split.
  - apply filter_In. split; [exact Hw |]. apply py_le_true. lra.
  - replace (max_model_size self * IZR n / IZR n) with (max_model_size self)
      by (field; lra).
    rewrite filter_In, py_le_true. tauto.
Qed.

End Candidates.

(** ** The constructor *)

Section Constructor.

Context {C : Collaborators}.

(** X17.  A run reads from the mechanism its budget [rho], the two
    sensitivities, [bounded], [rounds], [data_init] and [max_model_size]
    only: two mechanisms that the constructor builds from hyperparameters
    that differ in [degree] at most, and from different generator
    objects, run alike from every state. *)
Theorem run_ignores_degree_and_prng (hp1 hp2 : hyperparameters) (bounded : bool)
    (prng1 prng2 : Prng) (data : Dataset) (workload : list clique) (engine : Engine)
    (alpha : R) (records : option Z) (w : world) :
  hp_epsilon hp1 = hp_epsilon hp2 ->
  hp_delta hp1 = hp_delta hp2 ->
  hp_rounds hp1 = hp_rounds hp2 ->
  hp_data_init hp1 = hp_data_init hp2 ->
  hp_max_model_size hp1 = hp_max_model_size hp2 ->
  k (MWEM_init hp1 bounded prng1) = hp_degree hp1 /\
  prng (MWEM_init hp1 bounded prng1) = prng1 /\
  run (MWEM_init hp1 bounded prng1) data workload engine alpha records w
  = run (MWEM_init hp2 bounded prng2) data workload engine alpha records w.
Proof.
  intros He Hd Hr Hi Hm. unfold MWEM_init. rewrite <- He, <- Hd, <- Hr, <- Hi, <- Hm.
  destruct (Mechanism_attributes (hp_epsilon hp1) (hp_delta hp1) bounded)
    as [[rho0 sens] msens].
  split; [reflexivity |]. split; reflexivity.
Qed.

End Constructor.


(** ** The further properties on the concrete world *)

Section FurtherInstances.

#[local] Existing Instance Toy.collaborators.

Lemma toy_table_AB_covers (cl : clique) :
  In cl [Toy.A; Toy.B] ->
  exists x, toy_table_AB !! cl = Some x /\
            length x = length (factor_datavector (est_project O cl)).
Proof.
  intros [<- | [<- | []]].
  - exists (Toy.datavector Toy.A). split; reflexivity.
  - exists (Toy.datavector Toy.B). split; reflexivity.
Qed.

Lemma toy_table_short_covers (cl : clique) :
  In cl [Toy.A] ->
  exists x, toy_table_short !! cl = Some x /\
            length x = length (factor_datavector (est_project O cl)).
Proof.
  intros [<- | []]. exists (Toy.datavector Toy.A). split; reflexivity.
Qed.

Lemma toy_sensitivity (rounds : Z) (cap : R) : sensitivity (Toy.mechanism rounds cap) <> 0.
Proof. cbn [sensitivity Toy.mechanism]. lra. Qed.

(** The selection among the single candidate [A], for any [eps]. *)
Lemma toy_selection_calls (eps : R) :
  calls (snd (worst_approximated (Toy.mechanism 2 1) Toy.table O [Toy.A] eps true
                Toy.start))
  = calls Toy.start
    ++ [call_worst_approximated O [Toy.A] eps true;
        call_np_random_choice 1
          (softmax
             (map (fun e => 0.5 * eps / 2 * (e - spec_error Toy.table O true Toy.A))
                [spec_error Toy.table O true Toy.A]))].
Proof.
  rewrite (worst_approximated_covered (C := Toy.collaborators)
             (Toy.mechanism 2 1) Toy.table O [Toy.A] eps true
             Toy.start (spec_error (C := Toy.collaborators) Toy.table O true Toy.A)
             toy_table_covers eq_refl).
  reflexivity.
Qed.

(** X1 on the scenario of the specification: two rounds, [rho = 1] and
    [alpha = 0.9]. *)
Lemma budget_accounting_witness :
  run_budget (Toy.mechanism 2 1) Toy.workload (9 / 10)
  = Ok (2%Z, 1 / 2, sqrt (0.5 / (9 / 10 * (1 / 2))), sqrt (8 * (1 - 9 / 10) * (1 / 2))) /\
  2 * (0.5 / (sqrt (0.5 / (9 / 10 * (1 / 2))) * sqrt (0.5 / (9 / 10 * (1 / 2))))
       + sqrt (8 * (1 - 9 / 10) * (1 / 2)) * sqrt (8 * (1 - 9 / 10) * (1 / 2)) / 8)
  = 1.
Proof.
  assert (Hb : run_budget (Toy.mechanism 2 1) Toy.workload (9 / 10)
               = Ok (2%Z, 1 / 2, sqrt (0.5 / (9 / 10 * (1 / 2))),
                     sqrt (8 * (1 - 9 / 10) * (1 / 2)))) by (apply toy_budget; lra).
  assert (H2 : 0 < rho (Toy.mechanism 2 1)) by (simpl; lra).
  assert (H3 : 0 < 9 / 10 <= 1) by lra.
  split; [exact Hb |].
  exact (proj2 (proj2 (proj2 (proj2
           (budget_accounting (C := Toy.collaborators) (Toy.mechanism 2 1) Toy.workload
              (9 / 10) 2 (1 / 2) _ _ Hb ltac:(lia) H2 H3))))).
Defined.

(** X2 on the scenario, with [alpha = 0.5] and [alpha = 0.9]. *)
Lemma budget_monotone_witness :
  sqrt (0.5 / (9 / 10 * (1 / 2))) <= sqrt (0.5 / (1 / 2 * (1 / 2))) /\
  sqrt (8 * (1 - 9 / 10) * (1 / 2)) <= sqrt (8 * (1 - 1 / 2) * (1 / 2)).
Proof.
  assert (Hb1 : run_budget (Toy.mechanism 2 1) Toy.workload (1 / 2)
                = Ok (2%Z, 1 / 2, sqrt (0.5 / (1 / 2 * (1 / 2))),
                      sqrt (8 * (1 - 1 / 2) * (1 / 2)))) by (apply toy_budget; lra).
  assert (Hb2 : run_budget (Toy.mechanism 2 1) Toy.workload (9 / 10)
                = Ok (2%Z, 1 / 2, sqrt (0.5 / (9 / 10 * (1 / 2))),
                      sqrt (8 * (1 - 9 / 10) * (1 / 2)))) by (apply toy_budget; lra).
  assert (H2 : 0 < rho (Toy.mechanism 2 1)) by (simpl; lra).
  exact (proj2 (proj2
           (budget_monotone (C := Toy.collaborators) (Toy.mechanism 2 1) Toy.workload
              (1 / 2) (9 / 10) 2 2 (1 / 2) (1 / 2) _ _ _ _ Hb1 Hb2 ltac:(lia) H2
              ltac:(lra) ltac:(lra) ltac:(lra)))).
Defined.

(** X3 on the single candidate [A]. *)
Lemma selection_probabilities_witness :
  distribution
    (softmax (map (fun e => 0.5 * 1 / 2 * (e - spec_error Toy.table O true Toy.A))
                [spec_error Toy.table O true Toy.A])).
Proof.
  exact (proj2 (proj2 (proj2
           (selection_probabilities (C := Toy.collaborators) (Toy.mechanism 2 1)
              Toy.table O [Toy.A] 1 true Toy.start _ 1%nat _
              (toy_sensitivity 2 1) (toy_selection_calls 1)
              (or_intror (or_introl eq_refl)))))).
Defined.

(** X6 on the single candidate [A]. *)
Lemma selection_uniform_witness :
  softmax (map (fun e => 0.5 * 0 / 2 * (e - spec_error Toy.table O true Toy.A))
             [spec_error Toy.table O true Toy.A])
  = [1 / INR 1].
Proof.
  exact (selection_uniform (C := Toy.collaborators) (Toy.mechanism 2 1)
           Toy.table O [Toy.A] true Toy.start _ 1%nat _
           (toy_sensitivity 2 1) (toy_selection_calls 0)
           (or_intror (or_introl eq_refl))).
Defined.

(** X4 on the candidates [A] and [B]. *)
Lemma selection_exponential_weights_witness :
  exists total : R,
    0 < total /\
    calls (snd (worst_approximated (Toy.mechanism 2 1) toy_table_AB O [Toy.A; Toy.B] 1
                  true Toy.start))
    = [call_worst_approximated O [Toy.A; Toy.B] 1 true;
       call_np_random_choice 2
         [exp (1 / (2 * 2) * spec_error toy_table_AB O true Toy.A) / total;
          exp (1 / (2 * 2) * spec_error toy_table_AB O true Toy.B) / total]].
Proof.
  destruct (selection_exponential_weights (C := Toy.collaborators) (Toy.mechanism 2 1)
              toy_table_AB O [Toy.A; Toy.B] 1 true toy_table_AB_covers
              ltac:(discriminate) Toy.start (toy_sensitivity 2 1))
    as (total & Hpos & _ & Hcalls).
  exists total. split; [exact Hpos | exact Hcalls].
Defined.

(** X5 on the candidates [A] and [B]. *)
Lemma selection_odds_witness :
  exists (p : list R) (p_A p_B : R),
    calls (snd (worst_approximated (Toy.mechanism 2 1) toy_table_AB O [Toy.A; Toy.B] 1
                  true Toy.start))
    = [call_worst_approximated O [Toy.A; Toy.B] 1 true; call_np_random_choice 2 p] /\
    nth_error p 0 = Some p_A /\
    nth_error p 1 = Some p_B /\
    p_A = p_B * exp (1 / (2 * 2) * (spec_error toy_table_AB O true Toy.A
                                    - spec_error toy_table_AB O true Toy.B)).
Proof.
  destruct (selection_odds (C := Toy.collaborators) (Toy.mechanism 2 1)
              toy_table_AB O [Toy.A; Toy.B] 1 true toy_table_AB_covers
              ltac:(discriminate) Toy.start 0 1 Toy.A Toy.B (toy_sensitivity 2 1)
              eq_refl eq_refl)
    as (p & p_A & p_B & Hcalls & HA & HB & Hratio & _).
  exists p, p_A, p_B. repeat split; assumption.
Defined.

(** X7: the table for [A] alone, asked about [A] and then [B]. *)
Lemma selection_KeyError_witness :
  worst_approximated (Toy.mechanism 2 1) Toy.table O [Toy.A; Toy.B] 1 true Toy.start
  = (inl (KeyError Toy.B),
     {| np_random := O; calls := [call_worst_approximated O [Toy.A; Toy.B] 1 true] |}).
Proof.
  exact (selection_KeyError (C := Toy.collaborators) (Toy.mechanism 2 1) Toy.table O
           [Toy.A] [] Toy.B 1 true Toy.start toy_table_covers eq_refl).
Defined.

(** X8: the answer for [B] has two entries, the model's marginal three. *)
Lemma selection_shape_mismatch_witness :
  worst_approximated (Toy.mechanism 2 1) toy_table_short O [Toy.A; Toy.B] 1 true
    Toy.start
  = (inl (ValueError (broadcast_mismatch 2 3)),
     {| np_random := O; calls := [call_worst_approximated O [Toy.A; Toy.B] 1 true] |}).
Proof.
  exact (proj1 (selection_shape_mismatch (C := Toy.collaborators) (Toy.mechanism 2 1)
                  toy_table_short O [Toy.A] [] Toy.B 1 true Toy.start [1; 2]
                  toy_table_short_covers eq_refl ltac:(discriminate))
           ltac:(discriminate) ltac:(discriminate)).
Defined.

(** X10 on the scenario with [rounds = -1]. *)
Lemma run_negative_rounds_witness :
  run (Toy.mechanism (-1) 1) Toy.data Toy.workload false (9 / 10) None Toy.start
  = (inl (UnboundLocalError "loss"),
     {| np_random := O;
        calls := [call_data_project Toy.A; call_data_project Toy.B;
                  call_data_project Toy.AB; call_ParticleModel Toy.domain tt 1 tt;
                  call_print_generating; call_synthetic_data O None] |}).
Proof.
  exact (run_negative_rounds (C := Toy.collaborators) (Toy.mechanism (-1) 1) Toy.data
           Toy.workload false (9 / 10) None Toy.start
           {| np_random := O;
              calls := [call_data_project Toy.A; call_data_project Toy.B;
                        call_data_project Toy.AB;
                        call_ParticleModel Toy.domain tt 1 tt] |}
           O ["A"; "B"]%string
           ltac:(simpl; lia) ltac:(simpl; lra) ltac:(lra) eq_refl eq_refl).
Defined.

(** X11 on the scenario: three projections for the table and one in each
    of the two rounds. *)
Lemma run_trace_witness :
  fst (run (Toy.mechanism 2 1) Toy.data Toy.workload false (9 / 10) None Toy.start)
  = inr (["A"; "B"]%string, INR 2) /\
  exists new,
    calls (snd (run (Toy.mechanism 2 1) Toy.data Toy.workload false (9 / 10) None
                  Toy.start)) = new /\
    count is_data_project new = 5%nat /\
    count is_np_random_normal new = 2%nat.
Proof.
  assert (H : fst (run (Toy.mechanism 2 1) Toy.data Toy.workload false (9 / 10) None
                     Toy.start)
              = inr (["A"; "B"]%string, INR 2)) by (apply toy_particle_run; lra).
  split; [exact H |].
  destruct (run_trace (C := Toy.collaborators) _ _ _ _ _ _ _ _ _ (outcome_eq _ _ H))
    as (init & per_round & final & new & Hcalls & _ & _ & _ & _ & Hp & _ & Hn & _).
  exists new. split; [exact Hcalls |]. split; [exact Hp | exact Hn].
Defined.

(** X12 on the scenario. *)
Lemma run_returns_last_estimate_witness :
  fst (run (Toy.mechanism 2 1) Toy.data Toy.workload false (9 / 10) None Toy.start)
  = inr (["A"; "B"]%string, INR 2) /\
  exists (st : loop_state) (w_end : world) (g : nat),
    run_rounds (Toy.mechanism 2 1) Toy.data Toy.workload false (9 / 10) Toy.start
    = (inr st, w_end) /\
    engine_estimate false (measurements st) (Some 4%Z) g
    = (inr (est st, INR 2), np_random w_end).
Proof.
  assert (H : fst (run (Toy.mechanism 2 1) Toy.data Toy.workload false (9 / 10) None
                     Toy.start)
              = inr (["A"; "B"]%string, INR 2)) by (apply toy_particle_run; lra).
  split; [exact H |].
  destruct (run_returns_last_estimate (C := Toy.collaborators) _ _ _ _ _ _ _ _ _
              (outcome_eq _ _ H))
    as (st & w_end & g & Hrounds & _ & He & _).
  exists st, w_end, g. split; [exact Hrounds | exact He].
Defined.

(** X15 on the scenario: [A] and [(A, B)] are selected and measured. *)
Lemma selected_cliques_measured_witness :
  fst (run_rounds (Toy.mechanism 2 1) Toy.data Toy.workload false (9 / 10) Toy.start)
  = inr Toy.final_state /\
  map snd (measurements Toy.final_state) = cliques Toy.final_state /\
  Forall (fun c => In c Toy.workload) (cliques Toy.final_state).
Proof.
  assert (H : fst (run_rounds (Toy.mechanism 2 1) Toy.data Toy.workload false (9 / 10)
                     Toy.start)
              = inr Toy.final_state) by (apply toy_particle_rounds; lra).
  split; [exact H |].
  destruct (selected_cliques_measured (C := Toy.collaborators) _ _ _ _ _ _ _ _
              (outcome_eq _ _ H))
    as (Hm & _ & Hin).
  split; [exact Hm | exact Hin].
Defined.

(** X16 on the scenario with the particle engine. *)
Lemma run_returns_witness :
  exists (synthetic : clique) (l : R) (w' : world),
    run (Toy.mechanism 2 1) Toy.data Toy.workload false (9 / 10) None Toy.start
    = (inr (synthetic, l), w').
Proof.
  destruct (run_returns (C := Toy.collaborators) (Toy.mechanism 2 1) Toy.data
              Toy.workload false (9 / 10) None Toy.start
              (toy_well_behaved false) ltac:(simpl; lia) ltac:(simpl; lra) ltac:(lra)
              ltac:(simpl; lra) (sqrt_pos 2) ltac:(simpl; discriminate))
    as (synthetic & l & w' & _ & _ & Hrun & _).
  exists synthetic, l, w'. exact Hrun.
Defined.

(** X14 on the scenario with a cap of [64 / 2^20]: [A] is a candidate of
    the first round, hence of the second. *)
Lemma candidates_schedule_witness :
  In Toy.A (candidates (Toy.mechanism 2 (64 / 2 ^ 20)) Toy.domain Toy.workload [] 1 2) /\
  In Toy.A (candidates (Toy.mechanism 2 (64 / 2 ^ 20)) Toy.domain Toy.workload [] 2 2).
Proof.
  assert (H1 : In Toy.A (candidates (Toy.mechanism 2 (64 / 2 ^ 20)) Toy.domain
                           Toy.workload [] 1 2)).
  { rewrite toy_candidates_1. left. reflexivity. }
  assert (H0 : 0 <= max_model_size (Toy.mechanism 2 (64 / 2 ^ 20))).
  { cbn [max_model_size Toy.mechanism]. pose proof toy_scale_pos as Hpos.
    unfold Rdiv. set (K := / 2 ^ 20) in *. lra. }
  split; [exact H1 |].
  exact (proj1 (proj2 (proj2
           (candidates_schedule (C := Toy.collaborators) (Toy.mechanism 2 (64 / 2 ^ 20))
              Toy.domain Toy.workload [] 1 2 2 Toy.A H0 ltac:(lia) ltac:(lia) H1)))).
Defined.

(** X17 on the scenario: another [degree] and another generator object. *)
Lemma run_ignores_degree_and_prng_witness :
  run (MWEM_init (Toy.hyper 2 1) true 0%nat) Toy.data Toy.workload false (9 / 10) None
    Toy.start
  = run (MWEM_init toy_hyper_degree_3 true 7%nat) Toy.data Toy.workload false (9 / 10)
      None Toy.start.
Proof.
  exact (proj2 (proj2
           (run_ignores_degree_and_prng (C := Toy.collaborators) (Toy.hyper 2 1)
              toy_hyper_degree_3 true 0%nat 7%nat Toy.data Toy.workload false (9 / 10)
              None Toy.start eq_refl eq_refl eq_refl eq_refl eq_refl))).
Defined.

Lemma toy_table_BA_covers (cl : clique) :
  In cl [Toy.B; Toy.A] ->
  exists x, toy_table_AB !! cl = Some x /\
            length x = length (factor_datavector (est_project O cl)).
Proof.
  intros [<- | [<- | []]]; apply toy_table_AB_covers; simpl; tauto.
Qed.

(** The scores of [A] and [B] against the model that answers with zeros. *)
Lemma toy_errors :
  map (spec_error toy_table_AB O true) [Toy.B; Toy.A] = [1; 2].
Proof.
  change (map (spec_error (C := Toy.collaborators) toy_table_AB O true) [Toy.B; Toy.A])
    with [Rabs (4 - 0) + (Rabs (0 - 0) + (Rabs (0 - 0) + 0)) - 3;
          Rabs (4 - 0) + (Rabs (0 - 0) + 0) - 2].
  rewrite !Rabs_right by lra. f_equal; [lra | f_equal; lra].
Qed.

(** C2 on the candidates [B] and [A], with scores [1] and [2]: the
    greatest score is that of the second candidate. *)
Lemma worst_approximated_distribution_witness :
  map (spec_error toy_table_AB O true) [Toy.B; Toy.A] = [1; 2] /\
  np_max [1; 2] = Ok 2 /\
  selection_logits (Toy.mechanism 2 1) 1 [1; 2]
  = Ok [1 / (2 * 2) * (1 - 2); 1 / (2 * 2) * (2 - 2)] /\
  calls (snd (worst_approximated (Toy.mechanism 2 1) toy_table_AB O [Toy.B; Toy.A] 1
                true Toy.start))
  = [call_worst_approximated O [Toy.B; Toy.A] 1 true;
     call_np_random_choice 2 (spec_distribution 1 2 [1; 2] 2)].
Proof.
  split; [exact toy_errors |].
  destruct (worst_approximated_distribution (C := Toy.collaborators)
              (Toy.mechanism 2 1) toy_table_AB O [Toy.B; Toy.A] 1 true Toy.start
              ltac:(discriminate) toy_table_BA_covers)
    as (m & Hub & Hin & Hm & Hlogits & _ & _ & Hcalls & _).
  rewrite toy_errors in Hub, Hin, Hm, Hlogits, Hcalls.
  assert (E : m = 2).
  { inversion Hub as [| ? ? _ Hub']. inversion Hub' as [| ? ? H2 _].
    destruct Hin as [<- | [<- | []]]; lra. }
  subst m. split; [exact Hm |]. split; [exact Hlogits | exact Hcalls].
Defined.

(** C1 on the scenario of the specification: three cliques, two rounds,
    [rho = 1] and [alpha = 0.9].  After the three projections of the table
    and the making of the first model, each of the two rounds selects with
    the strength and draws with the scale of the split. *)
Lemma budget_split_fixed_witness :
  run_budget (Toy.mechanism 2 1) Toy.workload (9 / 10)
  = Ok (2%Z, 1 / 2, sqrt (0.5 / (9 / 10 * (1 / 2))), sqrt (8 * (1 - 9 / 10) * (1 / 2))) /\
  fst (run_rounds (Toy.mechanism 2 1) Toy.data Toy.workload false (9 / 10) Toy.start)
  = inr Toy.final_state /\
  exists per_round,
    length per_round = 2%nat /\
    Forall (budget_round (Toy.mechanism 2 1) false (Some 4%Z)
              (sqrt (0.5 / (9 / 10 * (1 / 2)))) (sqrt (8 * (1 - 9 / 10) * (1 / 2))))
      per_round /\
    calls (snd (run_rounds (Toy.mechanism 2 1) Toy.data Toy.workload false (9 / 10)
                  Toy.start))
    = [call_data_project Toy.A; call_data_project Toy.B; call_data_project Toy.AB;
       call_ParticleModel Toy.domain tt 1 tt] ++ concat per_round.
Proof.
  assert (H1 : (1 <= Z.min (Z.of_nat (length Toy.workload))
                        (rounds (Toy.mechanism 2 1)))%Z) by (simpl; lia).
  assert (H2 : 0 < rho (Toy.mechanism 2 1)) by (simpl; lra).
  assert (H3 : 0 < 9 / 10 < 1) by lra.
  assert (H : fst (run_rounds (Toy.mechanism 2 1) Toy.data Toy.workload false (9 / 10)
                     Toy.start)
              = inr Toy.final_state) by (apply toy_particle_rounds; lra).
  destruct (budget_split_fixed (C := Toy.collaborators) (Toy.mechanism 2 1) Toy.data
              Toy.workload false (9 / 10) None H1 H2 H3)
    as (Hb & _ & Hrounds).
  split; [exact Hb |]. split; [exact H |].
  destruct (Hrounds Toy.start) as (per_round & partial & _ & Hall & _ & Hcalls & Hdone).
  destruct (Hdone _ _ (outcome_eq _ _ H)) as (Hlen & Hpartial).
  rewrite Hpartial, app_nil_r in Hcalls.
  exists per_round. split; [exact Hlen |]. split; [exact Hall | exact Hcalls].
Defined.

(** X9 on the workload of the scenario: [B] has its marginal in the
    table, and a clique that is not in the workload has no entry. *)
Lemma workload_answers_table_witness :
  toy_table_workload !! Toy.B = Some (Toy.datavector Toy.B) /\
  toy_table_workload !! (["B"; "A"]%string : clique) = None.
Proof.
  destruct (workload_answers_table (C := Toy.collaborators) Toy.data Toy.workload
              Toy.start _ toy_table_workload eq_refl)
    as (_ & _ & Hin & Hout).
  split.
  - apply Hin. right. left. reflexivity.
  - apply Hout. intros [H | [H | [H | []]]]; discriminate H.
Defined.

End FurtherInstances.

(** ** Reproducibility on the concrete world with two streams *)

Section SeededInstances.

#[local] Existing Instance Seeded.two_streams.

(** Every operation of that world is determined by the state of the
    module-level generator. *)
Lemma seeded_same_seed (engine : bool) : seeded Seeded.same_seed engine.
Proof.
  unfold seeded, respects, Seeded.same_seed. cbn.
  repeat split; intros; try assumption; unfold Seeded.on_global; cbn [fst snd];
    match goal with H : fst _ = fst _ |- _ => rewrite H end; reflexivity.
Qed.

Lemma seeded_budget (prng : nat) :
  run_budget (Seeded.mechanism_of prng) Toy.workload (9 / 10)
  = Ok (2%Z, 1 / 2, sqrt (0.5 / (9 / 10 * (1 / 2))), sqrt (8 * (1 - 9 / 10) * (1 / 2))).
Proof.
  apply (run_budget_Ok (C := Seeded.two_streams) (Seeded.mechanism_of prng) Toy.workload
           (9 / 10)).
  - simpl. lia.
  - simpl. lra.
  - lra.
Qed.

(** The run of the scenario from the seed [0]: [A] and [(A, B)] are
    selected. *)
Lemma seeded_run (other : nat) :
  fst (run (Seeded.mechanism_of 0) Toy.data Toy.workload false (9 / 10) None
         (Seeded.world_at 0 other []))
  = inr (["A"; "B"]%string, INR 2) /\
  cliques_of (fst (run_rounds (Seeded.mechanism_of 0) Toy.data Toy.workload false (9 / 10)
                     (Seeded.world_at 0 other [])))
  = Some [Toy.A; Toy.AB].
Proof.
  unfold run, run_rounds. rewrite (seeded_budget 0). split; reflexivity.
Qed.

(** From the seed [1] the selections are others: [B], then [A]. *)
Lemma seeded_run_other_seed :
  cliques_of (fst (run_rounds (Seeded.mechanism_of 0) Toy.data Toy.workload false (9 / 10)
                     (Seeded.world_at 1 0 [])))
  = Some [Toy.B; Toy.A].
Proof.
  unfold run_rounds. rewrite (seeded_budget 0). reflexivity.
Qed.

(** C6 on the scenario: two mechanisms that differ in the generator
    object given to the constructor, two worlds with the same state of
    [np.random], different states of the other generator and different
    histories of calls; and a third world, with another state of
    [np.random], from which the selections differ. *)
Lemma run_deterministic_witness :
  Seeded.same_seed (np_random (Seeded.world_at 0 0 []))
    (np_random (Seeded.world_at 0 5 [call_print_generating])) /\
  fst (run (Seeded.mechanism_of 0) Toy.data Toy.workload false (9 / 10) None
         (Seeded.world_at 0 0 []))
  = inr (["A"; "B"]%string, INR 2) /\
  fst (run (Seeded.mechanism_of 7) Toy.data Toy.workload false (9 / 10) None
         (Seeded.world_at 0 5 [call_print_generating]))
  = inr (["A"; "B"]%string, INR 2) /\
  cliques_of (fst (run_rounds (Seeded.mechanism_of 7) Toy.data Toy.workload false (9 / 10)
                     (Seeded.world_at 0 5 [call_print_generating])))
  = Some [Toy.A; Toy.AB] /\
  cliques_of (fst (run_rounds (Seeded.mechanism_of 0) Toy.data Toy.workload false (9 / 10)
                     (Seeded.world_at 1 0 [])))
  = Some [Toy.B; Toy.A].
Proof.
  assert (HE : Seeded.same_seed (np_random (Seeded.world_at 0 0 []))
                 (np_random (Seeded.world_at 0 5 [call_print_generating])))
    by reflexivity.
  assert (Hsame : same_configuration (Seeded.mechanism_of 0) (Seeded.mechanism_of 7)).
  { unfold same_configuration. simpl. repeat split. }
  destruct (run_deterministic (C := Seeded.two_streams) Seeded.same_seed
              (Seeded.mechanism_of 0) (Seeded.mechanism_of 7) Toy.data Toy.workload false
              (9 / 10) None (Seeded.world_at 0 0 [])
              (Seeded.world_at 0 5 [call_print_generating])
              (seeded_same_seed false) Hsame HE)
    as (Hrun & Hrounds & _).
  destruct (seeded_run O) as (H1 & H2).
  split; [exact HE |]. split; [exact H1 |].
  split; [rewrite <- Hrun; exact H1 |].
  split; [rewrite <- Hrounds; exact H2 | exact seeded_run_other_seed].
Defined.

End SeededInstances.
